(** * macup: the archive engine of the backup tool, embedded in Rocq

    The development follows the Go sources of the repository:

    - [internal/backup/data.go]            - the first data.go (module [data_go]);
    - [unnamed/part_003]                   - the refactored data.go with
      [backupLocation], [normalizePath], [generateFilename], [newArchiveWriter]
      and the [errors.Join] based [Close] (module [part_003]);
    - [unnamed/part_000]                   - [restoreLocation], [extractArchive],
      [extractFile] and the data.go that tracks [totalSize] (module [part_000]);
    - [unnamed/part_001], [unnamed/part_002] - [Create] and [Restore] of the
      engine of part_000 (modules [part_001] and [part_000]);
    - [internal/backup/config.go]          - the [Create] of the first
      data.go (module [config_go]);
    - [internal/backup/clear.go]           - [ClearLocations] and
      [ClearSingleLocation] (module [clear_go]).

    Paths are Go strings (byte strings), the file system is a directory tree
    with symbolic links, a tar+gzip archive is the sequence of entries its
    stream decodes to, and every operation that touches the file system takes
    the world and returns the new one together with Go's [error] value. *)

From Stdlib Require Import String Ascii List ZArith Lia Bool Arith.
Import ListNotations.

Local Open Scope list_scope.
Local Open Scope string_scope.

Set Warnings "-register-all".

(** ** Go's [error] values *)

Inductive error : Type :=
| ENOENT                                    (* no such file or directory *)
| EEXIST                                    (* file exists *)
| ENOTDIR                                   (* not a directory *)
| EISDIR                                    (* is a directory *)
| ELOOP                                     (* too many levels of symbolic links *)
| EIO (msg : string)                        (* a fault reported by the device *)
| ErrClosed                                 (* os: file already closed *)
| ErrNoHome                                 (* os.UserHomeDir: $HOME is not defined *)
| ErrGetwd                                  (* os.Getwd failed *)
| SkipDir                                   (* filepath.SkipDir *)
| SkipAll                                   (* filepath.SkipAll *)
| ErrGzipHeader                             (* gzip: invalid header *)
| EOF                                       (* io.EOF *)
| ErrUnexpectedEOF                          (* io.ErrUnexpectedEOF *)
| ErrWriteTooLong                           (* archive/tar: write too long *)
| ErrWriteAfterClose                        (* archive/tar: write after close *)
| ErrMissedWriting (n : Z)                  (* archive/tar: missed writing n bytes *)
| errorString (msg : string)                (* errors.New, fmt.Errorf without %w *)
| wrapError (msg : string) (err : error)    (* fmt.Errorf("msg: %w", err) *)
| joinError (errs : list error).            (* errors.Join *)

(** A Go result [(value, error)]. *)
Inductive result (A : Type) : Type :=
| Ok (a : A)
| Err (e : error).

Arguments Ok {A} a.
Arguments Err {A} e.

Definition bind {A B : Type} (r : result A) (k : A -> result B) : result B :=
  match r with
  | Ok a => k a
  | Err e => Err e
  end.

Notation "x <- r ;; k" := (bind r (fun x => k))
  (at level 61, r at next level, right associativity).

Definition is_ok {A : Type} (r : result A) : bool :=
  match r with Ok _ => true | Err _ => false end.

Module errors.

(** [errors.Join]: nil errors are discarded; the result is nil when every
    argument is nil, and otherwise an error wrapping the others in order. *)
Definition Join (errs : list (option error)) : option error :=
  match flat_map (fun e => match e with Some x => [x] | None => [] end) errs with
  | [] => None
  | es => Some (joinError es)
  end.

(** [errors.Is]-style containment: [target] occurs in the chain of [e]. *)
Fixpoint wraps (target : error) (eqb : error -> error -> bool) (e : error) : bool :=
  eqb e target ||
  match e with
  | wrapError _ e' => wraps target eqb e'
  | joinError es =>
      (fix any (l : list error) : bool :=
         match l with
         | [] => false
         | x :: l' => wraps target eqb x || any l'
         end) es
  | _ => false
  end.

End errors.

(** ** Byte strings *)

Module strings.

(** [strings.HasPrefix]. *)
Fixpoint HasPrefix (s prefix : string) {struct prefix} : bool :=
  match prefix, s with
  | EmptyString, _ => true
  | String p prefix', String c s' => Ascii.eqb c p && HasPrefix s' prefix'
  | String _ _, EmptyString => false
  end.

(** The separator of Unix paths. *)
Definition slash : ascii := "/"%char.

(** [strings.Split(s, "/")]: the pieces between separators, never empty as a
    list. *)
Fixpoint Split (s : string) : list string :=
  match s with
  | EmptyString => [EmptyString]
  | String c s' =>
      if Ascii.eqb c slash then EmptyString :: Split s'
      else match Split s' with
           | [] => [String c EmptyString]
           | x :: xs => String c x :: xs
           end
  end.

(** [strings.Join(elems, "/")]. *)
Fixpoint Join (elems : list string) : string :=
  match elems with
  | [] => EmptyString
  | [x] => x
  | x :: xs => x ++ String slash (Join xs)
  end.

(** [s[n:]]. *)
Fixpoint drop (n : nat) (s : string) : string :=
  match n, s with
  | O, _ => s
  | S n', String _ s' => drop n' s'
  | S _, EmptyString => EmptyString
  end.

(** [s[:n]]. *)
Fixpoint take (n : nat) (s : string) : string :=
  match n, s with
  | O, _ => EmptyString
  | S n', String c s' => String c (take n' s')
  | S _, EmptyString => EmptyString
  end.

End strings.

(** ** archive/tar: headers and streams *)

Module tar.

Inductive Flag : Type :=
| TypeReg                                   (* regular file *)
| TypeDir                                   (* directory *)
| TypeSymlink                               (* symbolic link *)
| TypeOther (c : ascii).                    (* hard link, device, fifo, ... *)

Inductive Format : Type := FormatUnknown | FormatPAX.

Record Header : Type := {
  Typeflag : Flag;
  Name : string;
  Linkname : string;
  Size : Z;
  Mode : Z;
  Fmt : Format
}.

(** One member of an archive: its header and the bytes that follow it. *)
Record entry : Type := { hdr : Header; payload : string }.

(** What a gzip-compressed tar stream decodes to: the members in order, and
    how the stream ends after the last of them: [None] when the reader
    reports [io.EOF] there (the gzip stream is complete and ends between two
    members, with the end-of-archive marker or without it), [Some e] when it
    fails with [e] (a gzip stream that was never finished, or a corrupt
    one). *)
Record archive : Type := { entries : list entry; trailer : option error }.

(** A file that was made for an archive and whose gzip stream is not
    finished. *)
Definition empty : archive := {| entries := []; trailer := Some ErrUnexpectedEOF |}.

(** The stream once the gzip writer has written its trailer. *)
Definition finish (a : archive) : archive :=
  {| entries := entries a; trailer := None |}.

End tar.

(** ** The file system and package os *)

Module os.

Local Open Scope Z_scope.

(** A directory lists its entries in the order [os.ReadDir] returns them
    (sorted by file name). Permission bits are the nine bits of
    [FileMode.Perm]; they are what [Stat] reports and what an archive
    carries, and no call is refused for them: the process is one that is
    allowed every access. *)
Inductive node : Type :=
| File (perm : Z) (data : string)
| Symlink (target : string)
| Dir (perm : Z) (entries : list (string * node)).

Inductive ftype : Type := TReg | TDir | TLink.

(** [os.FileInfo]. *)
Record FileInfo : Type := {
  Name : string;
  Size : Z;
  Perm : Z;
  Type_ : ftype
}.

Definition IsDir (fi : FileInfo) : bool :=
  match Type_ fi with TDir => true | _ => false end.

(** The layers of an archive writer, innermost first. *)
Inductive layer : Type := TarLayer | GzipLayer | FileLayer.

(** The world a run of the tool lives in: the directory tree below "/", the
    process's umask, home and working directory, the size the system reports
    for a directory, the archive files, each kept as the stream it decodes to
    under the resolved path of the file, and the [Close] calls the layers of
    archive writers have seen, in order, each with what it returned. *)
Record World : Type := {
  root : node;
  umask : Z;
  dirsize : Z;
  HOME : option string;
  wd : option string;
  archives : list (list string * tar.archive);
  closes : list (layer * option error)
}.

Definition with_root (w : World) (r : node) : World :=
  {| root := r; umask := umask w; dirsize := dirsize w; HOME := HOME w;
     wd := wd w; archives := archives w; closes := closes w |}.

Definition with_archives (w : World) (a : list (list string * tar.archive)) : World :=
  {| root := root w; umask := umask w; dirsize := dirsize w; HOME := HOME w;
     wd := wd w; archives := a; closes := closes w |}.

(** A layer's [Close] returned [e]. *)
Definition closed_with (w : World) (l : layer) (e : option error) : World :=
  {| root := root w; umask := umask w; dirsize := dirsize w; HOME := HOME w;
     wd := wd w; archives := archives w; closes := (closes w ++ [(l, e)])%list |}.

Fixpoint lookup (name : string) (es : list (string * node)) : option node :=
  match es with
  | [] => None
  | (k, v) :: es' => if String.eqb k name then Some v else lookup name es'
  end.

(** The node at a resolved path: no link is followed. *)
Fixpoint get (n : node) (p : list string) : option node :=
  match p with
  | [] => Some n
  | c :: p' =>
      match n with
      | Dir _ es =>
          match lookup c es with
          | Some child => get child p'
          | None => None
          end
      | _ => None
      end
  end.

(** Replace the entry [name], or add it at its place in file-name order. *)
Fixpoint set_child (name : string) (new : node) (es : list (string * node))
  : list (string * node) :=
  match es with
  | [] => [(name, new)]
  | (k, v) :: es' =>
      if String.eqb k name then (name, new) :: es'
      else if String.ltb name k then (name, new) :: (k, v) :: es'
      else (k, v) :: set_child name new es'
  end.

(** Store [new] at the resolved path [p]; the directories above it must
    exist. *)
Fixpoint put (n : node) (p : list string) (new : node) : option node :=
  match p with
  | [] => Some new
  | c :: p' =>
      match n with
      | Dir perm es =>
          let sub :=
            match lookup c es with
            | Some child => put child p' new
            | None => match p' with [] => Some new | _ => None end
            end in
          match sub with
          | Some child' => Some (Dir perm (set_child c child' es))
          | None => None
          end
      | _ => None
      end
  end.

(** The elements of a path that name something: empty elements and "." do
    not; ".." is kept and resolved against the directory reached. *)
Definition elems (path : string) : list string :=
  filter (fun c => negb (String.eqb c "") && negb (String.eqb c "."))
         (strings.Split path).

(** The kernel gives up after this many links in one resolution. *)
Definition MAXSYMLINKS : nat := 40.

(** Path resolution from the resolved directory [cur] along [rest]. Every
    element but the last must lead to a directory, links on the way are
    followed, and the last element is followed only when [follow] is set. The
    result is the resolved path of the last element, which need not exist. *)
Fixpoint resolve (fuel : nat) (r : node) (follow : bool)
  (cur rest : list string) {struct fuel} : result (list string) :=
  (fix go (cur rest : list string) {struct rest} : result (list string) :=
     match rest with
     | [] => Ok cur
     | c :: rest' =>
         match get r cur with
         | Some (Dir _ _) =>
             if String.eqb c ".." then go (removelast cur) rest'
             else
               match get r (cur ++ [c])%list with
               | Some (Symlink t) =>
                   match rest', follow with
                   | [], false => Ok (cur ++ [c])%list
                   | _, _ =>
                       match fuel with
                       | O => Err ELOOP
                       | S fuel' =>
                           resolve fuel' r follow
                             (if strings.HasPrefix t "/" then [] else cur)
                             (elems t ++ rest')%list
                       end
                   end
               | Some _ => go (cur ++ [c])%list rest'
               | None =>
                   match rest' with
                   | [] => Ok (cur ++ [c])%list
                   | _ => Err ENOENT
                   end
               end
         | Some _ => Err ENOTDIR
         | None => Err ENOENT
         end
     end) cur rest.

(** The resolved path a path string names. *)
Definition namei (w : World) (follow : bool) (path : string) : result (list string) :=
  if String.eqb path "" then Err ENOENT
  else if strings.HasPrefix path "/" then
    resolve MAXSYMLINKS (root w) follow [] (elems path)
  else
    match wd w with
    | Some d => resolve MAXSYMLINKS (root w) follow [] (elems d ++ elems path)%list
    | None => Err ENOENT
    end.

(** The last element of a path, as [FileInfo.Name] reports it. *)
Definition basename (path : string) : string :=
  last (filter (fun c => negb (String.eqb c "")) (strings.Split path)) "/".

Definition info_of (w : World) (name : string) (n : node) : FileInfo :=
  match n with
  | File perm data =>
      {| Name := name; Size := Z.of_nat (String.length data); Perm := perm; Type_ := TReg |}
  | Symlink t =>
      {| Name := name; Size := Z.of_nat (String.length t); Perm := 511; Type_ := TLink |}
  | Dir perm _ =>
      {| Name := name; Size := dirsize w; Perm := perm; Type_ := TDir |}
  end.

Fixpoint find_archive (p : list string) (l : list (list string * tar.archive))
  : option tar.archive :=
  match l with
  | [] => None
  | (k, a) :: l' =>
      if list_eq_dec string_dec k p then Some a else find_archive p l'
  end.

Fixpoint set_archive (p : list string) (a : tar.archive)
  (l : list (list string * tar.archive)) : list (list string * tar.archive) :=
  match l with
  | [] => [(p, a)]
  | (k, b) :: l' =>
      if list_eq_dec string_dec k p then (p, a) :: l' else (k, b) :: set_archive p a l'
  end.

(** What [Stat] and [Lstat] report for the node at [p]: an archive file is
    a regular file whose compressed size the model does not track. *)
Definition stat_at (w : World) (path : string) (p : list string) : result FileInfo :=
  match get (root w) p with
  | Some n => Ok (info_of w (basename path) n)
  | None =>
      match find_archive p (archives w) with
      | Some _ => Ok {| Name := basename path; Size := 0; Perm := 420; Type_ := TReg |}
      | None => Err ENOENT
      end
  end.

(** [os.Lstat]: the last element is not followed. *)
Definition Lstat (w : World) (path : string) : result FileInfo :=
  p <- namei w false path ;; stat_at w path p.

(** [os.Stat]: every link is followed. *)
Definition Stat (w : World) (path : string) : result FileInfo :=
  p <- namei w true path ;; stat_at w path p.

(** [os.IsNotExist]. *)
Definition IsNotExist {A : Type} (r : result A) : bool :=
  match r with
  | Err ENOENT => true
  | _ => false
  end.

(** [os.Open] followed by reading the whole file ([io.Copy] from it). *)
Definition ReadFile (w : World) (path : string) : result string :=
  p <- namei w true path ;;
  match get (root w) p with
  | Some (File _ data) => Ok data
  | Some (Dir _ _) => Err EISDIR
  | Some (Symlink _) => Err ELOOP
  | None => Err ENOENT
  end.

(** The permission bits a new file gets: the requested ones without those of
    the umask. *)
Definition masked (w : World) (perm : Z) : Z :=
  Z.land (Z.land perm 511) (Z.lnot (umask w)).

Definition store (w : World) (p : list string) (n : node) : World * option error :=
  match put (root w) p n with
  | Some r => (with_root w r, None)
  | None => (w, Some ENOENT)
  end.

(** [os.Mkdir]. *)
Definition Mkdir (w : World) (path : string) (perm : Z) : World * option error :=
  match namei w false path with
  | Err e => (w, Some e)
  | Ok p =>
      match stat_at w path p with
      | Ok _ => (w, Some EEXIST)
      | Err _ => store w p (Dir (masked w perm) [])
      end
  end.

(** The path string of the elements [es]. *)
Definition render (abs : bool) (es : list string) : string :=
  (if abs then "/" else "") ++ strings.Join es.

(** [os.MkdirAll] over the elements of the path, last element first: a path
    that is a directory is left alone; otherwise the parent is made first
    and then the directory itself, and a failure of [Mkdir] is forgiven when
    the directory is there all the same. *)
Fixpoint mkdirAll (w : World) (abs : bool) (rev_elems : list string) (perm : Z)
  : World * option error :=
  let path := render abs (rev rev_elems) in
  match Stat w path with
  | Ok dir => if IsDir dir then (w, None) else (w, Some ENOTDIR)
  | Err _ =>
      let '(w1, err) :=
        match rev_elems with
        | _ :: parent =>
            if abs || negb (Nat.eqb (List.length parent) 0)
            then mkdirAll w abs parent perm
            else (w, None)
        | [] => (w, None)
        end in
      match err with
      | Some e => (w1, Some e)
      | None =>
          let '(w2, err2) := Mkdir w1 path perm in
          match err2 with
          | None => (w2, None)
          | Some e =>
              match Lstat w2 path with
              | Ok dir => if IsDir dir then (w2, None) else (w2, Some e)
              | Err _ => (w2, Some e)
              end
          end
      end
  end.

Definition MkdirAll (w : World) (path : string) (perm : Z) : World * option error :=
  mkdirAll w (strings.HasPrefix path "/")
    (rev (filter (fun c => negb (String.eqb c "")) (strings.Split path))) perm.

(** An open file: the resolved path of the file it was opened on, and
    whether [Close] was called on it. *)
Record File_ : Type := { fd_path : list string; fd_closed : bool }.

(** [os.OpenFile(path, O_CREATE|O_WRONLY|O_TRUNC, perm)]: a missing file is
    created with [perm] less the umask, an existing one is emptied and keeps
    its mode; the last element is followed when it is a link. *)
Definition OpenFile_create_trunc (w : World) (path : string) (perm : Z)
  : World * result File_ :=
  match namei w true path with
  | Err e => (w, Err e)
  | Ok p =>
      match get (root w) p with
      | Some (Dir _ _) => (w, Err EISDIR)
      | Some (Symlink _) => (w, Err ELOOP)
      | Some (File fperm _) =>
          match store w p (File fperm "") with
          | (w', None) => (w', Ok {| fd_path := p; fd_closed := false |})
          | (w', Some e) => (w', Err e)
          end
      | None =>
          match store w p (File (masked w perm) "") with
          | (w', None) => (w', Ok {| fd_path := p; fd_closed := false |})
          | (w', Some e) => (w', Err e)
          end
      end
  end.

(** Writing [data] at the end of an open file. *)
Definition Write (w : World) (f : File_) (data : string) : World * option error :=
  if fd_closed f then (w, Some ErrClosed)
  else
    match get (root w) (fd_path f) with
    | Some (File perm old) => store w (fd_path f) (File perm (old ++ data))
    | _ => (w, Some (EIO "write"))
    end.

(** [File.Close]: a second call fails. *)
Definition Close (f : File_) (w : World) : File_ * World * option error :=
  if fd_closed f then (f, closed_with w FileLayer (Some ErrClosed), Some ErrClosed)
  else ({| fd_path := fd_path f; fd_closed := true |}, closed_with w FileLayer None, None).

(** Bytes reaching an open archive file: the stream it decodes to changes
    by [upd]. *)
Definition WriteArchive (w : World) (f : File_) (upd : tar.archive -> tar.archive)
  : World * option error :=
  if fd_closed f then (w, Some ErrClosed)
  else
    match find_archive (fd_path f) (archives w) with
    | Some a => (with_archives w (set_archive (fd_path f) (upd a) (archives w)), None)
    | None => (w, Some (EIO "write"))
    end.

(** [os.Symlink(target, path)]: the system refuses the empty target. *)
Definition Symlink_ (w : World) (target path : string) : World * option error :=
  if String.eqb target "" then (w, Some ENOENT)
  else
    match namei w false path with
    | Err e => (w, Some e)
    | Ok p =>
        match stat_at w path p with
        | Ok _ => (w, Some EEXIST)
        | Err _ => store w p (Symlink target)
        end
    end.

(** [os.Create] of an archive file: [O_RDWR|O_CREATE|O_TRUNC], so a file
    that is there already is emptied, whatever it held. *)
Definition Create (w : World) (path : string) : World * result File_ :=
  match namei w true path with
  | Err e => (w, Err e)
  | Ok p =>
      match get (root w) p with
      | Some (Dir _ _) => (w, Err EISDIR)
      | _ => (with_archives w (set_archive p tar.empty (archives w)), Ok {| fd_path := p; fd_closed := false |})
      end
  end.

(** [os.Open] of an archive file and the gzip reader over it: the stream the
    file decodes to. A file in which no gzip stream was begun is empty, and
    the reader, which reads the gzip header when it is made, fails on it with
    [io.EOF]. A file of the tree is no gzip stream. *)
Definition OpenArchive (w : World) (path : string) : result (result tar.archive) :=
  p <- namei w true path ;;
  match find_archive p (archives w) with
  | Some a =>
      match tar.trailer a, tar.entries a with
      | Some _, [] => Ok (Err EOF)
      | _, _ => Ok (Ok a)
      end
  | None =>
      match get (root w) p with
      | Some (File _ _) => Ok (Err ErrGzipHeader)
      | Some (Dir _ _) => Ok (Err EISDIR)
      | _ => Err ENOENT
      end
  end.

(** The tree without the entry at the resolved path [p]. *)
Fixpoint remove (n : node) (p : list string) : node :=
  match p, n with
  | [c], Dir perm es => Dir perm (filter (fun e => negb (String.eqb (fst e) c)) es)
  | c :: p', Dir perm es =>
      Dir perm (map (fun e => if String.eqb (fst e) c then (fst e, remove (snd e) p') else e) es)
  | _, _ => n
  end.

(** [os.RemoveAll]: the path and all below it; a link is removed, not
    followed, and a path that does not exist is no error. The archive files
    are kept beside the tree and stay: the removal is that of a path with no
    archive at or below it. *)
Definition RemoveAll (w : World) (path : string) : World * option error :=
  match namei w false path with
  | Ok [] => (w, Some (errorString "unlinkat /: device or resource busy"))
  | Ok p => (with_root w (remove (root w) p), None)
  | Err ENOENT => (w, None)
  | Err e => (w, Some e)
  end.

(** [os.Open]: the file or directory at [path], opened for reading; every
    link is followed. *)
Definition Open (w : World) (path : string) : result File_ :=
  p <- namei w true path ;;
  match get (root w) p with
  | Some (Symlink _) => Err ELOOP
  | Some _ => Ok {| fd_path := p; fd_closed := false |}
  | None => Err ENOENT
  end.

(** Reading an open file to its end, as [io.Copy] does: the bytes the file
    holds when it is read. A directory cannot be read. *)
Definition ReadAll (w : World) (f : File_) : result string :=
  if fd_closed f then Err ErrClosed
  else
    match get (root w) (fd_path f) with
    | Some (File _ data) => Ok data
    | Some (Dir _ _) => Err EISDIR
    | _ => Err (EIO "read")
    end.

(** [os.UserHomeDir]. *)
Definition UserHomeDir (w : World) : result string :=
  match HOME w with
  | Some h => if String.eqb h "" then Err ErrNoHome else Ok h
  | None => Err ErrNoHome
  end.

(** [os.Getwd]. *)
Definition Getwd (w : World) : result string :=
  match wd w with
  | Some d => Ok d
  | None => Err ErrGetwd
  end.

End os.

(** ** path/filepath on Unix *)

Module filepath.

Definition Separator : string := "/".

Definition IsAbs (path : string) : bool := strings.HasPrefix path "/".

(** A path element that [Clean] keeps as it is: neither empty nor ".", "..". *)
Definition plain (c : string) : bool :=
  negb (String.eqb c "") && negb (String.eqb c ".") && negb (String.eqb c "..").

(** One pass of [Clean] over the elements of a path. [out] is the output so
    far, last element first. An empty element and "." are dropped; ".."
    removes the element before it, is dropped at the root, and is kept at the
    start of a relative path. *)
Fixpoint clean_elems (rooted : bool) (elems out : list string) : list string :=
  match elems with
  | [] => rev out
  | c :: elems' =>
      if String.eqb c "" || String.eqb c "." then clean_elems rooted elems' out
      else if String.eqb c ".." then
        match out with
        | top :: out' =>
            if String.eqb top ".." then clean_elems rooted elems' (c :: out)
            else clean_elems rooted elems' out'
        | [] =>
            if rooted then clean_elems rooted elems' out
            else clean_elems rooted elems' [c]
        end
      else clean_elems rooted elems' (c :: out)
  end.

(** [filepath.Clean]: the shortest path equivalent to [path] by purely
    lexical processing. The empty path becomes "."; a rooted result is "/"
    followed by its elements, and only the root ends in a separator. *)
Definition Clean (path : string) : string :=
  if String.eqb path "" then "."
  else
    let rooted := IsAbs path in
    let out := clean_elems rooted (strings.Split path) [] in
    if rooted then "/" ++ strings.Join out
    else match out with
         | [] => "."
         | _ => strings.Join out
         end.

(** [filepath.Join]: leading empty elements are ignored, the rest is joined
    with separators and cleaned; all elements empty gives the empty string. *)
Fixpoint Join (elem : list string) : string :=
  match elem with
  | [] => ""
  | e :: rest =>
      if String.eqb e "" then Join rest
      else Clean (strings.Join elem)
  end.

(** [path[:i+1]] for the index [i] of the last separator of [path]. *)
Definition through_last_slash (path : string) : string :=
  String.concat "" (map (fun c => c ++ "/") (removelast (strings.Split path))).

(** [filepath.Dir]: all but the last element of [path], cleaned. *)
Definition Dir (path : string) : string :=
  Clean (through_last_slash path).

(** The elements of [path] after its trailing separators are removed, last
    element first. *)
Fixpoint strip_empty (rev_elems : list string) : list string :=
  match rev_elems with
  | c :: rest => if String.eqb c "" then strip_empty rest else rev_elems
  | [] => []
  end.

(** [filepath.Base]: the last element of [path]; "." for the empty path and
    "/" for a path of separators only. *)
Definition Base (path : string) : string :=
  if String.eqb path "" then "."
  else match strip_empty (rev (strings.Split path)) with
       | c :: _ => c
       | [] => "/"
       end.

(** [filepath.Abs]: an absolute path is cleaned, a relative one is joined to
    the working directory. *)
Definition Abs (w : os.World) (path : string) : result string :=
  if IsAbs path then Ok (Clean path)
  else wd <- os.Getwd w ;; Ok (Join [wd; path]).

(** The elements two paths have in common at their start, removed. *)
Fixpoint strip_common (b t : list string) : list string * list string :=
  match b, t with
  | x :: b', y :: t' => if String.eqb x y then strip_common b' t' else (b, t)
  | _, _ => (b, t)
  end.

(** The elements of a clean path as [Rel] walks them, from separator to
    separator: the root has one element, the empty one before its
    separator. *)
Definition rel_elems (path : string) : list string :=
  if String.eqb path "/" then [""] else strings.Split path.

(** [filepath.Rel]: a path that names [targpath] when joined to [basepath];
    the elements left of the base are climbed with "..". *)
Definition Rel (basepath targpath : string) : result string :=
  let base := Clean basepath in
  let targ := Clean targpath in
  if String.eqb targ base then Ok "."
  else
    let base := if String.eqb base "." then "" else base in
    if negb (Bool.eqb (IsAbs base) (IsAbs targ))
    then Err (errorString ("Rel: can't make " ++ targpath ++ " relative to " ++ basepath))
    else
      let bs := if String.eqb base "" then [] else rel_elems base in
      let '(b, t) := strip_common bs (rel_elems targ) in
      match b with
      | [] => Ok (strings.Join t)
      | x :: _ =>
          if String.eqb x ".."
          then Err (errorString ("Rel: can't make " ++ targpath ++ " relative to " ++ basepath))
          else Ok (strings.Join (map (fun _ => "..") b ++ t)%list)
      end.

(** [fs.DirEntry]: what a directory listing tells about an entry. [Info]
    is the entry's own [Lstat]. *)
Record DirEntry : Type := {
  Name : string;
  IsDir : bool;
  Info : result os.FileInfo
}.

Definition entry_of (w : os.World) (name : string) (n : os.node) : DirEntry :=
  {| Name := name;
     IsDir := match n with os.Dir _ _ => true | _ => false end;
     Info := Ok (os.info_of w name n) |}.

(** [fs.WalkDirFunc], as a function on the state [S] its closure updates. *)
Definition WalkDirFunc (S : Type) : Type :=
  string -> option DirEntry -> option error -> S -> S * option error.

(** [filepath.walkDir]: the function is called on the entry; a directory it
    does not skip is read and its entries are walked in order. [SkipDir]
    from an entry that is no directory ends the walk of its parent. *)
Fixpoint walkDir {S : Type} (w : os.World) (fn : WalkDirFunc S)
  (path name : string) (n : os.node) (s : S) {struct n} : S * option error :=
  let d := entry_of w name n in
  let '(s1, err) := fn path (Some d) None s in
  match err with
  | Some SkipDir => (s1, if IsDir d then None else Some SkipDir)
  | Some e => (s1, Some e)
  | None =>
      match n with
      | os.Dir _ es =>
          (fix each (es : list (string * os.node)) (s : S) : S * option error :=
             match es with
             | [] => (s, None)
             | (name1, child) :: es' =>
                 let '(s', err1) := walkDir w fn (Join [path; name1]) name1 child s in
                 match err1 with
                 | Some SkipDir => (s', None)
                 | Some e => (s', Some e)
                 | None => each es' s'
                 end
             end) es s1
      | _ => (s1, None)
      end
  end.

(** [filepath.WalkDir]. *)
Definition WalkDir {S : Type} (w : os.World) (root : string) (fn : WalkDirFunc S) (s : S)
  : S * option error :=
  let '(s', err) :=
    match os.Lstat w root with
    | Err e => fn root None (Some e) s
    | Ok info =>
        match os.namei w false root with
        | Ok p =>
            match os.get (os.root w) p with
            | Some n => walkDir w fn root (os.Name info) n s
            | None => fn root (Some {| Name := os.Name info; IsDir := false; Info := Ok info |}) None s
            end
        | Err e => fn root None (Some e) s
        end
    end in
  match err with
  | Some SkipDir | Some SkipAll => (s', None)
  | _ => (s', err)
  end.

End filepath.

(** ** crypto/sha256 and the "%x" verb *)

Module sha256.

Local Open Scope Z_scope.

Definition mask32 : Z := 0xffffffff.

Definition add32 (x y : Z) : Z := Z.land (x + y) mask32.

Definition rotr (n x : Z) : Z :=
  Z.lor (Z.shiftr x n) (Z.land (Z.shiftl x (32 - n)) mask32).

Definition Ch (x y z : Z) : Z :=
  Z.lxor (Z.land x y) (Z.land (Z.lxor x mask32) z).

Definition Maj (x y z : Z) : Z :=
  Z.lxor (Z.lxor (Z.land x y) (Z.land x z)) (Z.land y z).

Definition Sigma0 (x : Z) : Z := Z.lxor (Z.lxor (rotr 2 x) (rotr 13 x)) (rotr 22 x).
Definition Sigma1 (x : Z) : Z := Z.lxor (Z.lxor (rotr 6 x) (rotr 11 x)) (rotr 25 x).
Definition sigma0 (x : Z) : Z := Z.lxor (Z.lxor (rotr 7 x) (rotr 18 x)) (Z.shiftr x 3).
Definition sigma1 (x : Z) : Z := Z.lxor (Z.lxor (rotr 17 x) (rotr 19 x)) (Z.shiftr x 10).

(** The words of the tables [_K] and [init0] .. [init7] of the Go package
    are, as FIPS 180-4 defines them, the first 32 bits of the fractional
    parts of the cube roots of the first 64 primes and of the square roots
    of the first 8. [root_bits k n x r] adds to [r] the bits below [2^n]
    that keep its [k]-th power at most [x]. *)
Definition primes : list Z :=
  [ 2; 3; 5; 7; 11; 13; 17; 19; 23; 29; 31; 37; 41; 43; 47; 53;
    59; 61; 67; 71; 73; 79; 83; 89; 97; 101; 103; 107; 109; 113; 127; 131;
    137; 139; 149; 151; 157; 163; 167; 173; 179; 181; 191; 193; 197; 199; 211; 223;
    227; 229; 233; 239; 241; 251; 257; 263; 269; 271; 277; 281; 283; 293; 307; 311 ].

Fixpoint root_bits (k : Z) (n : nat) (x r : Z) : Z :=
  match n with
  | O => r
  | S n' =>
      let r' := Z.lor r (Z.shiftl 1 (Z.of_nat n')) in
      root_bits k n' x (if r' ^ k <=? x then r' else r)
  end.

Definition frac_root (k p : Z) : Z :=
  Z.land (root_bits k 40 (Z.shiftl p (32 * k)) 0) 0xffffffff.

Definition K : list Z := Eval vm_compute in map (frac_root 3) primes.

Definition init : list Z := Eval vm_compute in map (frac_root 2) (firstn 8 primes).

Definition bytes_of (s : string) : list Z :=
  map (fun c => Z.of_nat (nat_of_ascii c)) (list_ascii_of_string s).

(** The big-endian bytes of [x], [n] of them. *)
Fixpoint be_bytes (n : nat) (x : Z) : list Z :=
  match n with
  | O => []
  | S n' => (be_bytes n' (Z.shiftr x 8) ++ [Z.land x 0xff])%list
  end.

(** The message followed by the bit 1, zeros up to 56 mod 64 bytes, and the
    length in bits as a 64-bit big-endian number. *)
Definition pad (msg : list Z) : list Z :=
  let len := Z.of_nat (List.length msg) in
  let zeros := Z.to_nat ((55 - len) mod 64) in
  (msg ++ [0x80] ++ repeat 0 zeros ++ be_bytes 8 (8 * len))%list.

(** Big-endian 32-bit words of a byte sequence. *)
Fixpoint words (fuel : nat) (bs : list Z) : list Z :=
  match fuel, bs with
  | S fuel', b0 :: b1 :: b2 :: b3 :: rest =>
      (Z.shiftl b0 24 + Z.shiftl b1 16 + Z.shiftl b2 8 + b3) :: words fuel' rest
  | _, _ => []
  end.

(** The message schedule, latest word first: [sched] extends the 16 words of
    a block (reversed) by [n] more. *)
Fixpoint schedule (n : nat) (sched : list Z) : list Z :=
  match n with
  | O => sched
  | S n' =>
      let w2 := nth 1 sched 0 in
      let w7 := nth 6 sched 0 in
      let w15 := nth 14 sched 0 in
      let w16 := nth 15 sched 0 in
      schedule n' (add32 (add32 (sigma1 w2) w7) (add32 (sigma0 w15) w16) :: sched)
  end.

Definition round (st : list Z) (kw : Z * Z) : list Z :=
  match st with
  | [a; b; c; d; e; f; g; h] =>
      let t1 := add32 (add32 (add32 h (Sigma1 e)) (add32 (Ch e f g) (fst kw))) (snd kw) in
      let t2 := add32 (Sigma0 a) (Maj a b c) in
      [add32 t1 t2; a; b; c; add32 d t1; e; f; g]
  | _ => st
  end.

Definition compress (st : list Z) (block : list Z) : list Z :=
  let w := rev (schedule 48 (rev block)) in
  let st' := fold_left round (combine K w) st in
  map (fun p => add32 (fst p) (snd p)) (combine st st').

(** The blocks of 16 words of a word sequence. *)
Fixpoint blocks (fuel : nat) (ws : list Z) : list (list Z) :=
  match fuel, ws with
  | S fuel', _ :: _ => firstn 16 ws :: blocks fuel' (skipn 16 ws)
  | _, _ => []
  end.

(** [sha256.Sum256]: the 32 bytes of the digest. *)
Definition Sum256 (s : string) : list Z :=
  let bs := pad (bytes_of s) in
  let ws := words (List.length bs) bs in
  let st := fold_left compress (blocks (List.length ws) ws) init in
  flat_map (be_bytes 4) st.

Definition hex_digit (d : Z) : ascii :=
  nth (Z.to_nat d) (list_ascii_of_string "0123456789abcdef") "0"%char.

(** fmt's "%x" of a byte slice: two lower-case hexadecimal digits a byte. *)
Fixpoint hex (bs : list Z) : string :=
  match bs with
  | [] => EmptyString
  | b :: bs' => String (hex_digit (Z.shiftr b 4)) (String (hex_digit (Z.land b 0xf)) (hex bs'))
  end.

End sha256.

(** ** github.com/klauspost/pgzip: the compressing layer *)

Module pgzip.

(** The writer keeps the first error of its workers and whether it was
    closed. Block size and worker count do not change the bytes written. *)
Record Writer : Type := { err : option error; closed : bool }.

(** [pgzip.NewWriterLevel(file, level)]: fails on a level out of range. *)
Definition DefaultCompression : Z := (-1)%Z.

Definition NewWriterLevel (level : Z) : result Writer :=
  if ((-2 <=? level)%Z && (level <=? 9)%Z)%bool
  then Ok {| err := None; closed := false |}
  else Err (errorString "gzip: invalid compression level").

(** Bytes passed down to the file; a failure of the file sticks. *)
Definition Write (z : Writer) (f : os.File_) (w : os.World)
  (upd : tar.archive -> tar.archive) : Writer * os.World * option error :=
  match err z with
  | Some e => (z, w, Some e)
  | None =>
      if closed z then (z, w, Some (errorString "gzip: write to closed writer"))
      else
        match os.WriteArchive w f upd with
        | (w', None) => (z, w', None)
        | (w', Some e) => ({| err := Some e; closed := closed z |}, w', Some e)
        end
  end.

(** [Writer.Close]: a pending error is reported; otherwise the pending
    blocks and the gzip trailer go to the file, and the stream is one a
    reader can read to its end. *)
Definition Close (z : Writer) (f : os.File_) (w : os.World)
  : Writer * os.World * option error :=
  let '(z', w', e) :=
    match err z with
    | Some e => (z, w, Some e)
    | None =>
        if closed z then (z, w, None)
        else
          match os.WriteArchive w f tar.finish with
          | (w', None) => ({| err := None; closed := true |}, w', None)
          | (w', Some e) => ({| err := Some e; closed := true |}, w', Some e)
          end
    end in
  (z', os.closed_with w' os.GzipLayer e, e).

End pgzip.

(** ** archive/tar: writing and reading *)

Module archive_tar.

Local Open Scope Z_scope.

(** [tar.FileInfoHeader(fi, link)]: a partly filled header for [fi]; [link]
    is recorded only when [fi] describes a symbolic link. *)
Definition FileInfoHeader (fi : os.FileInfo) (link : string) : result tar.Header :=
  Ok match os.Type_ fi with
     | os.TReg =>
         {| tar.Typeflag := tar.TypeReg; tar.Name := os.Name fi; tar.Linkname := "";
            tar.Size := os.Size fi; tar.Mode := os.Perm fi; tar.Fmt := tar.FormatUnknown |}
     | os.TDir =>
         {| tar.Typeflag := tar.TypeDir; tar.Name := os.Name fi ++ "/"; tar.Linkname := "";
            tar.Size := 0; tar.Mode := os.Perm fi; tar.Fmt := tar.FormatUnknown |}
     | os.TLink =>
         {| tar.Typeflag := tar.TypeSymlink; tar.Name := os.Name fi; tar.Linkname := link;
            tar.Size := 0; tar.Mode := os.Perm fi; tar.Fmt := tar.FormatUnknown |}
     end.

(** [tar.Writer]: its sticky error and the bytes the current member still
    expects. The writer holds the gzip writer, which holds the file; their
    states are passed along. *)
Record Writer : Type := { err : option error; nb : Z }.

Definition NewWriter : Writer := {| err := None; nb := 0 |}.

(** [Writer.Flush]: the current member must be complete. *)
Definition Flush (tw : Writer) : option error :=
  match err tw with
  | Some e => Some e
  | None => if 0 <? nb tw then Some (ErrMissedWriting (nb tw)) else None
  end.

Definition push_entry (h : tar.Header) (a : tar.archive) : tar.archive :=
  {| tar.entries := (tar.entries a ++ [{| tar.hdr := h; tar.payload := "" |}])%list;
     tar.trailer := tar.trailer a |}.

Fixpoint append_last (data : string) (es : list tar.entry) : list tar.entry :=
  match es with
  | [] => []
  | [e] => [{| tar.hdr := tar.hdr e; tar.payload := tar.payload e ++ data |}]
  | e :: es' => e :: append_last data es'
  end.

Definition push_data (data : string) (a : tar.archive) : tar.archive :=
  {| tar.entries := append_last data (tar.entries a); tar.trailer := tar.trailer a |}.

(** The size a member of this type may carry: only regular files have
    content. *)
Definition body_size (h : tar.Header) : Z :=
  match tar.Typeflag h with
  | tar.TypeReg => tar.Size h
  | _ => 0
  end.

(** [Writer.WriteHeader]. *)
Definition WriteHeader (tw : Writer) (z : pgzip.Writer) (f : os.File_) (w : os.World)
  (h : tar.Header) : Writer * pgzip.Writer * os.World * option error :=
  match Flush tw with
  | Some e => (tw, z, w, Some e)
  | None =>
      match pgzip.Write z f w (push_entry h) with
      | (z', w', None) => ({| err := None; nb := body_size h |}, z', w', None)
      | (z', w', Some e) => ({| err := Some e; nb := nb tw |}, z', w', Some e)
      end
  end.

(** [Writer.Write]: at most the bytes the member still expects are
    written, and more than that is [ErrWriteTooLong]. *)
Definition Write (tw : Writer) (z : pgzip.Writer) (f : os.File_) (w : os.World)
  (data : string) : Writer * pgzip.Writer * os.World * option error :=
  match err tw with
  | Some e => (tw, z, w, Some e)
  | None =>
      let len := Z.of_nat (String.length data) in
      let overwrite := nb tw <? len in
      let chunk := if overwrite then strings.take (Z.to_nat (nb tw)) data else data in
      match pgzip.Write z f w (push_data chunk) with
      | (z', w', None) =>
          ({| err := None; nb := nb tw - Z.of_nat (String.length chunk) |}, z', w',
           if overwrite then Some ErrWriteTooLong else None)
      | (z', w', Some e) => ({| err := Some e; nb := nb tw |}, z', w', Some e)
      end
  end.

(** [Writer.Close]: flushes, writes the end-of-archive marker, and
    refuses every later write. The marker adds no member: a reader finds the
    same members with it and without it. *)
Definition Close (tw : Writer) (z : pgzip.Writer) (f : os.File_) (w : os.World)
  : Writer * pgzip.Writer * os.World * option error :=
  let '(tw', z', w', e) :=
    match err tw with
    | Some ErrWriteAfterClose => (tw, z, w, None)
    | Some e => (tw, z, w, Some e)
    | None =>
        match Flush tw with
        | Some e => ({| err := Some ErrWriteAfterClose; nb := nb tw |}, z, w, Some e)
        | None =>
            match pgzip.Write z f w (fun a => a) with
            | (z', w', e) => ({| err := Some ErrWriteAfterClose; nb := nb tw |}, z', w', e)
            end
        end
    end in
  (tw', z', os.closed_with w' os.TarLayer e, e).

End archive_tar.

(** ** unnamed/part_003: data.go after the refactoring

    Logging ([log.Printf]) has no effect on the results and is left out. *)

Module part_003.

(** [Location], lines 24-28. *)
Record Location : Type := {
  Path : string;
  Ignore : list string;
  index : list string
}.

Record Data : Type := { Locations : list Location }.

(** [Config] of config.go. *)
Record Config : Type := { Output : string; Data_ : Data }.

(** [ArchiveWriter], lines 31-35. *)
Record ArchiveWriter : Type := {
  tar_ : archive_tar.Writer;
  gzip : pgzip.Writer;
  file : os.File_
}.

(** [normalizePath], lines 83-100 (and 286-303). *)
Definition normalizePath (w : os.World) (path : string) : result string :=
  path1 <-
    (if (1 <? String.length path)%nat && String.eqb (strings.take 2 path) "~/"
     then
       match os.UserHomeDir w with
       | Err err => Err (wrapError "failed to get home dir" err)
       | Ok home => Ok (filepath.Join [home; strings.drop 2 path])
       end
     else Ok path) ;;
  match filepath.Abs w path1 with
  | Err err => Err (wrapError "failed to get absolute path" err)
  | Ok absPath => Ok absPath
  end.

(** [generateFilename], lines 102-110 (and 306-314). *)
Definition generateFilename (path : string) : string :=
  filepath.Base path ++ "-" ++ sha256.hex (sha256.Sum256 path) ++ ".tar.gz".

(** [newArchiveWriter], lines 211-234 (and 317-340). *)
Definition newArchiveWriter (w : os.World) (path : string)
  : os.World * result ArchiveWriter :=
  match os.Create w path with
  | (w1, Err err) => (w1, Err err)
  | (w1, Ok file) =>
      match pgzip.NewWriterLevel pgzip.DefaultCompression with
      | Err err =>
          let '(_, w2, _) := os.Close file w1 in (w2, Err err)
      | Ok gzipWriter =>
          (w1, Ok {| tar_ := archive_tar.NewWriter; gzip := gzipWriter; file := file |})
      end
  end.

(** [ArchiveWriter.Close], lines 236-242 (and 343-349): the arguments of
    [errors.Join] are evaluated from left to right. *)
Definition Close (aw : ArchiveWriter) (w : os.World)
  : ArchiveWriter * os.World * option error :=
  let '(t1, z1, w1, e1) := archive_tar.Close (tar_ aw) (gzip aw) (file aw) w in
  let '(z2, w2, e2) := pgzip.Close z1 (file aw) w1 in
  let '(f3, w3, e3) := os.Close (file aw) w2 in
  ({| tar_ := t1; gzip := z2; file := f3 |}, w3, errors.Join [e1; e2; e3]).

(** [ArchiveWriter.WriteHeader], lines 244-246. *)
Definition WriteHeader (aw : ArchiveWriter) (w : os.World) (hdr : tar.Header)
  : ArchiveWriter * os.World * option error :=
  let '(t1, z1, w1, e) := archive_tar.WriteHeader (tar_ aw) (gzip aw) (file aw) w hdr in
  ({| tar_ := t1; gzip := z1; file := file aw |}, w1, e).

(** [ArchiveWriter.Write], lines 248-250. *)
Definition Write (aw : ArchiveWriter) (w : os.World) (p : string)
  : ArchiveWriter * os.World * option error :=
  let '(t1, z1, w1, e) := archive_tar.Write (tar_ aw) (gzip aw) (file aw) w p in
  ({| tar_ := t1; gzip := z1; file := file aw |}, w1, e).

Definition set_index (l : Location) (idx : list string) : Location :=
  {| Path := Path l; Ignore := Ignore l; index := idx |}.

(** The function [scan] hands to [filepath.WalkDir], lines 119-140. *)
Definition scan_fn : filepath.WalkDirFunc Location :=
  fun path d err l =>
    match err with
    | Some e => (l, Some e)
    | None =>
        if String.eqb path (Path l) then (l, None)
        else
          match d with
          | None => (l, Some (errorString "invalid memory address or nil pointer dereference"))
          | Some d =>
              if existsb (String.eqb (filepath.Name d)) (Ignore l) then
                if filepath.IsDir d then (l, Some SkipDir) else (l, None)
              else (set_index l (index l ++ [path])%list, None)
          end
    end.

(** [Location.scan], lines 112-149. *)
Definition scan (w : os.World) (l : Location) : Location * option error :=
  let l := set_index l [] in
  match filepath.WalkDir w (Path l) scan_fn l with
  | (l', Some err) => (l', Some (wrapError "directory walk failed" err))
  | (l', None) => (l', None)
  end.

(** [copyFileToArchive], lines 200-209. *)
Definition copyFileToArchive (aw : ArchiveWriter) (w : os.World) (path : string)
  : ArchiveWriter * os.World * option error :=
  match os.ReadFile w path with
  | Err err => (aw, w, Some err)
  | Ok data => Write aw w data
  end.

(** [Location.writeEntry], lines 160-198. *)
Definition writeEntry (l : Location) (aw : ArchiveWriter) (w : os.World) (path : string)
  : ArchiveWriter * os.World * option error :=
  match os.Stat w path with
  | Err err => (aw, w, Some err)
  | Ok info =>
      match filepath.Rel (Path l) path with
      | Err err => (aw, w, Some err)
      | Ok relPath =>
          match archive_tar.FileInfoHeader info "" with
          | Err err => (aw, w, Some err)
          | Ok hdr =>
              let hdr :=
                {| tar.Typeflag := tar.Typeflag hdr;
                   tar.Name := filepath.Join [filepath.Base (Path l); relPath];
                   tar.Linkname := tar.Linkname hdr;
                   tar.Size := tar.Size hdr;
                   tar.Mode := tar.Mode hdr;
                   tar.Fmt := tar.FormatPAX |} in
              match WriteHeader aw w hdr with
              | (aw1, w1, Some err) => (aw1, w1, Some err)
              | (aw1, w1, None) =>
                  if negb (os.IsDir info) then copyFileToArchive aw1 w1 path
                  else (aw1, w1, None)
              end
          end
      end
  end.

(** [Location.writeToArchive], lines 151-158, over the paths still to
    write. *)
Fixpoint writeToArchive_loop (l : Location) (aw : ArchiveWriter) (w : os.World)
  (paths : list string) : ArchiveWriter * os.World * option error :=
  match paths with
  | [] => (aw, w, None)
  | path :: rest =>
      match writeEntry l aw w path with
      | (aw1, w1, Some err) => (aw1, w1, Some (wrapError ("failed to write " ++ path) err))
      | (aw1, w1, None) => writeToArchive_loop l aw1 w1 rest
      end
  end.

Definition writeToArchive (l : Location) (aw : ArchiveWriter) (w : os.World)
  : ArchiveWriter * os.World * option error :=
  writeToArchive_loop l aw w (index l).

(** The archive path [backupLocation] writes to, lines 53-67: the file name
    is generated from the normalized path. *)
Definition archivePath_of (w : os.World) (loc : Location) (outputDir : string)
  : result string :=
  path <- normalizePath w (Path loc) ;;
  Ok (filepath.Join [outputDir; generateFilename path]).

(** [backupLocation], lines 52-81. The deferred [writer.Close()] runs on
    every return after the writer was opened; its error is dropped. *)
Definition backupLocation (w : os.World) (loc : Location) (outputDir : string)
  : os.World * option error :=
  match normalizePath w (Path loc) with
  | Err err => (w, Some err)
  | Ok path =>
      let loc := {| Path := path; Ignore := Ignore loc; index := index loc |} in
      match scan w loc with
      | (_, Some err) => (w, Some (wrapError "scan failed" err))
      | (loc, None) =>
          let filename := generateFilename (Path loc) in
          let archivePath := filepath.Join [outputDir; filename] in
          match newArchiveWriter w archivePath with
          | (w1, Err err) => (w1, Some (wrapError "failed to create archive" err))
          | (w1, Ok writer) =>
              let '(writer1, w2, werr) := writeToArchive loc writer w1 in
              let '(_, w3, _) := Close writer1 w2 in
              match werr with
              | Some err => (w3, Some (wrapError "write failed" err))
              | None => (w3, None)
              end
          end
      end
  end.

(** [BackupData], lines 38-50. *)
Fixpoint BackupData_loop (w : os.World) (locs : list Location) (output : string)
  : os.World * option error :=
  match locs with
  | [] => (w, None)
  | loc :: rest =>
      match backupLocation w loc output with
      | (w1, Some err) => (w1, Some (wrapError ("failed to backup " ++ Path loc) err))
      | (w1, None) => BackupData_loop w1 rest output
      end
  end.

Definition BackupData (w : os.World) (config : Config) : os.World * option error :=
  BackupData_loop w (Locations (Data_ config)) (Output config).

End part_003.

(** ** unnamed/part_000: restore.go and data.go with progress reporting

    The progress view of package tui only draws on the terminal; its calls
    ([pv.Add], [pv.Set], [pv.Message], [pv.Done], [pv.Finish], [pv.Clear])
    change no result and are left out. [normalizePath], [generateFilename]
    and the archive writer are those of part_003, lines 285-359. *)

Module part_000.

(** [extractFile], lines 120-134. *)
Definition extractFile (w : os.World) (content : string) (path : string) (mode : Z)
  : os.World * option error :=
  match os.OpenFile_create_trunc w path mode with
  | (w1, Err err) => (w1, Some err)
  | (w1, Ok outFile) =>
      match os.Write w1 outFile content with
      | (w2, Some err) => (w2, Some err)
      | (w2, None) => (w2, None)
      end
  end.

(** The security check of [extractArchive], lines 75-83: [true] when the
    header name is refused. *)
Definition illegal_path (parentDir name : string) : bool :=
  let extractPath := filepath.Join [parentDir; name] in
  let cleanPath := filepath.Clean extractPath in
  let cleanParent := filepath.Clean parentDir in
  negb (strings.HasPrefix cleanPath (cleanParent ++ filepath.Separator))
  && negb (String.eqb cleanPath cleanParent).

(** What [extractArchive] does with a header that passed the check, lines
    85-113. *)
Definition extractEntry (w : os.World) (parentDir : string) (e : tar.entry)
  : os.World * option error :=
  let header := tar.hdr e in
  let extractPath := filepath.Join [parentDir; tar.Name header] in
  match tar.Typeflag header with
  | tar.TypeDir =>
      match os.MkdirAll w extractPath (tar.Mode header) with
      | (w1, Some err) =>
          (w1, Some (wrapError ("failed to create directory " ++ extractPath) err))
      | (w1, None) => (w1, None)
      end
  | tar.TypeReg =>
      match os.MkdirAll w (filepath.Dir extractPath) 493 with
      | (w1, Some err) => (w1, Some (wrapError "failed to create parent directory" err))
      | (w1, None) =>
          match extractFile w1 (tar.payload e) extractPath (tar.Mode header) with
          | (w2, Some err) =>
              (w2, Some (wrapError ("failed to extract file " ++ extractPath) err))
          | (w2, None) => (w2, None)
          end
      end
  | tar.TypeSymlink =>
      match os.MkdirAll w (filepath.Dir extractPath) 493 with
      | (w1, Some err) => (w1, Some (wrapError "failed to create parent directory" err))
      | (w1, None) =>
          match os.Symlink_ w1 (tar.Linkname header) extractPath with
          | (w2, Some err) =>
              (w2, Some (wrapError ("failed to create symlink " ++ extractPath) err))
          | (w2, None) => (w2, None)
          end
      end
  | tar.TypeOther _ => (w, None)
  end.

(** The loop of [extractArchive], lines 63-114, over the members the reader
    still has; [trailer] is how the stream ends after them. *)
Fixpoint extract_loop (w : os.World) (parentDir : string)
  (members : list tar.entry) (trailer : option error) : os.World * option error :=
  match members with
  | [] =>
      match trailer with
      | None => (w, None)
      | Some err => (w, Some (wrapError "failed to read tar header" err))
      end
  | e :: rest =>
      if illegal_path parentDir (tar.Name (tar.hdr e))
      then (w, Some (errorString ("illegal file path in archive: " ++ tar.Name (tar.hdr e))))
      else
        match extractEntry w parentDir e with
        | (w1, Some err) => (w1, Some err)
        | (w1, None) => extract_loop w1 parentDir rest trailer
        end
  end.

(** [extractArchive], lines 41-117. *)
Definition extractArchive (w : os.World) (archivePath targetPath : string)
  : os.World * option error :=
  match os.OpenArchive w archivePath with
  | Err err => (w, Some (wrapError "failed to open archive" err))
  | Ok (Err err) => (w, Some (wrapError "failed to create gzip reader" err))
  | Ok (Ok a) =>
      let parentDir := filepath.Dir targetPath in
      extract_loop w parentDir (tar.entries a) (tar.trailer a)
  end.

(** [Location] of part_003, lines 271-276. *)
Record Location : Type := {
  Path : string;
  Ignore : list string;
  index : list string;
  totalSize : Z
}.

Record Data : Type := { Locations : list Location }.

Record Config : Type := { Output : string; Data_ : Data }.

(** The archive [restoreLocation] looks for, lines 16-19. *)
Definition archivePath_of_restore (loc : Location) (backupDir : string) : string :=
  filepath.Join [backupDir; part_003.generateFilename (Path loc)].

(** [restoreLocation], lines 15-38. *)
Definition restoreLocation (w : os.World) (loc : Location) (backupDir : string)
  : os.World * option error :=
  let archiveName := part_003.generateFilename (Path loc) in
  let archivePath := filepath.Join [backupDir; archiveName] in
  match part_003.normalizePath w (Path loc) with
  | Err err => (w, Some (wrapError "failed to normalize path" err))
  | Ok targetPath =>
      if os.IsNotExist (os.Stat w archivePath)
      then (w, Some (errorString ("archive not found: " ++ archivePath)))
      else
        match extractArchive w archivePath targetPath with
        | (w1, Some err) => (w1, Some (wrapError "extraction failed" err))
        | (w1, None) => (w1, None)
        end
  end.

(** [Restore] of part_002, over the locations of the configuration copied
    into the backup directory. *)
Fixpoint Restore_loop (w : os.World) (locs : list Location) (backupDir : string)
  : os.World * option error :=
  match locs with
  | [] => (w, None)
  | loc :: rest =>
      match restoreLocation w loc backupDir with
      | (w1, Some err) => (w1, Some (wrapError ("failed to restore " ++ Path loc) err))
      | (w1, None) => Restore_loop w1 rest backupDir
      end
  end.

(** The configuration is the copy in the backup directory; its loading is
    outside the engine. *)
Definition Restore (w : os.World) (config : Config) (backupDir : string)
  : os.World * option error :=
  Restore_loop w (Locations (Data_ config)) backupDir.

Definition with_scan (l : Location) (idx : list string) (size : Z) : Location :=
  {| Path := Path l; Ignore := Ignore l; index := idx; totalSize := size |}.

(** The function [scan] hands to [filepath.WalkDir], lines 225-253. *)
Definition scan_fn : filepath.WalkDirFunc Location :=
  fun path d err l =>
    match err with
    | Some e => (l, Some e)
    | None =>
        if String.eqb path (Path l) then (l, None)
        else
          match d with
          | None => (l, Some (errorString "invalid memory address or nil pointer dereference"))
          | Some d =>
              if existsb (String.eqb (filepath.Name d)) (Ignore l) then
                if filepath.IsDir d then (l, Some SkipDir) else (l, None)
              else
                let l := with_scan l (index l ++ [path])%list (totalSize l) in
                if negb (filepath.IsDir d) then
                  match filepath.Info d with
                  | Ok info => (with_scan l (index l) (totalSize l + os.Size info)%Z, None)
                  | Err _ => (l, None)
                  end
                else (l, None)
          end
    end.

(** [Location.scan], lines 219-261. *)
Definition scan (w : os.World) (l : Location) : Location * option error :=
  let l := with_scan l [] 0 in
  match filepath.WalkDir w (Path l) scan_fn l with
  | (l', Some err) => (l', Some (wrapError "directory walk failed" err))
  | (l', None) => (l', None)
  end.

(** [copyFileToArchive], lines 365-374. *)
Definition copyFileToArchive (aw : part_003.ArchiveWriter) (w : os.World) (path : string)
  : part_003.ArchiveWriter * os.World * option error :=
  match os.ReadFile w path with
  | Err err => (aw, w, Some err)
  | Ok data => part_003.Write aw w data
  end.

(** [Location.writeEntryNoMessage], lines 326-362. *)
Definition writeEntryNoMessage (l : Location) (aw : part_003.ArchiveWriter)
  (w : os.World) (path : string) : part_003.ArchiveWriter * os.World * option error :=
  match os.Stat w path with
  | Err err => (aw, w, Some err)
  | Ok info =>
      match filepath.Rel (Path l) path with
      | Err err => (aw, w, Some err)
      | Ok relPath =>
          match archive_tar.FileInfoHeader info "" with
          | Err err => (aw, w, Some err)
          | Ok hdr =>
              let hdr :=
                {| tar.Typeflag := tar.Typeflag hdr;
                   tar.Name := filepath.Join [filepath.Base (Path l); relPath];
                   tar.Linkname := tar.Linkname hdr;
                   tar.Size := tar.Size hdr;
                   tar.Mode := tar.Mode hdr;
                   tar.Fmt := tar.FormatPAX |} in
              match part_003.WriteHeader aw w hdr with
              | (aw1, w1, Some err) => (aw1, w1, Some err)
              | (aw1, w1, None) =>
                  if negb (os.IsDir info) then copyFileToArchive aw1 w1 path
                  else (aw1, w1, None)
              end
          end
      end
  end.

(** [Location.writeEntry], lines 319-323: the message goes to the progress
    view, the entry to the archive. *)
Definition writeEntry (l : Location) (aw : part_003.ArchiveWriter)
  (w : os.World) (path : string) : part_003.ArchiveWriter * os.World * option error :=
  writeEntryNoMessage l aw w path.

(** [Location.writeToArchive], lines 264-316, from the [i]-th path on. *)
Fixpoint writeToArchive_loop (l : Location) (aw : part_003.ArchiveWriter) (w : os.World)
  (i : nat) (paths : list string) : part_003.ArchiveWriter * os.World * option error :=
  match paths with
  | [] => (aw, w, None)
  | path :: rest =>
      let r := if Nat.eqb (i mod 50) 0
               then writeEntry l aw w path
               else writeEntryNoMessage l aw w path in
      match r with
      | (aw1, w1, Some err) => (aw1, w1, Some (wrapError ("failed to write " ++ path) err))
      | (aw1, w1, None) => writeToArchive_loop l aw1 w1 (S i) rest
      end
  end.

Definition writeToArchive (l : Location) (aw : part_003.ArchiveWriter) (w : os.World)
  : part_003.ArchiveWriter * os.World * option error :=
  writeToArchive_loop l aw w 0 (index l).

(** The archive path [backupLocation] writes to, lines 181-184: the file
    name is generated from the path as the configuration gives it. *)
Definition archivePath_of_backup (loc : Location) (outputDir : string) : string :=
  filepath.Join [outputDir; part_003.generateFilename (Path loc)].

(** [backupLocation], lines 180-216. *)
Definition backupLocation (w : os.World) (loc : Location) (outputDir : string)
  : os.World * option error :=
  let filename := part_003.generateFilename (Path loc) in
  let archivePath := filepath.Join [outputDir; filename] in
  match part_003.normalizePath w (Path loc) with
  | Err err => (w, Some err)
  | Ok path =>
      let loc := {| Path := path; Ignore := Ignore loc; index := index loc;
                    totalSize := totalSize loc |} in
      match scan w loc with
      | (_, Some err) => (w, Some (wrapError "scan failed" err))
      | (loc, None) =>
          match part_003.newArchiveWriter w archivePath with
          | (w1, Err err) => (w1, Some (wrapError "failed to create archive" err))
          | (w1, Ok writer) =>
              let '(writer1, w2, werr) := writeToArchive loc writer w1 in
              let '(_, w3, _) := part_003.Close writer1 w2 in
              match werr with
              | Some err => (w3, Some (wrapError "write failed" err))
              | None => (w3, None)
              end
          end
      end
  end.

(** [BackupData], lines 150-177. *)
Fixpoint BackupData_loop (w : os.World) (locs : list Location) (output : string)
  : os.World * option error :=
  match locs with
  | [] => (w, None)
  | loc :: rest =>
      match backupLocation w loc output with
      | (w1, Some err) => (w1, Some (wrapError ("failed to backup " ++ Path loc) err))
      | (w1, None) => BackupData_loop w1 rest output
      end
  end.

Definition BackupData (w : os.World) (config : Config) : os.World * option error :=
  BackupData_loop w (Locations (Data_ config)) (Output config).

(** [copyConfigToBackup], lines 377-399. The destination is opened by
    [os.Create], that is with [O_RDWR|O_CREATE|O_TRUNC] and mode 0666, before
    the source is read; the deferred [Close] calls change no result. *)
Definition copyConfigToBackup (w : os.World) (configPath outputDir : string)
  : os.World * option error :=
  match os.Open w configPath with
  | Err err => (w, Some (wrapError "failed to open config file" err))
  | Ok src =>
      let destPath := filepath.Join [outputDir; "config.yaml"] in
      match os.OpenFile_create_trunc w destPath 438 with
      | (w1, Err err) => (w1, Some (wrapError "failed to create config copy" err))
      | (w1, Ok dst) =>
          match os.ReadAll w1 src with
          | Err err => (w1, Some (wrapError "failed to copy config" err))
          | Ok data =>
              match os.Write w1 dst data with
              | (w2, Some err) => (w2, Some (wrapError "failed to copy config" err))
              | (w2, None) => (w2, None)
              end
          end
      end
  end.

End part_000.

(** ** unnamed/part_001: backup.go *)

Module part_001.

(** [Create], lines 9-27. *)
Definition Create (w : os.World) (config : part_000.Config) (configPath : string)
  : os.World * option error :=
  match os.MkdirAll w (part_000.Output config) 493 with
  | (w1, Some err) => (w1, Some (wrapError "failed to create output directory" err))
  | (w1, None) =>
      match part_000.copyConfigToBackup w1 configPath (part_000.Output config) with
      | (w2, Some err) => (w2, Some (wrapError "failed to copy config" err))
      | (w2, None) =>
          match part_000.BackupData w2 config with
          | (w3, Some err) => (w3, Some err)
          | (w3, None) => (w3, None)
          end
      end
  end.

End part_001.

(** ** internal/backup/data.go: the first version *)

Module data_go.

(** [IndexEntry], lines 30-33. *)
Record IndexEntry : Type := { Path_ : string; Info : os.FileInfo }.

(** [Location], lines 22-28. *)
Record Location : Type := {
  Path : string;
  Ignore : list string;
  size : Z;
  index : list IndexEntry
}.

Record Data : Type := { Locations : list Location }.

Record Config : Type := { Output : string; Data_ : Data }.

(** [ArchiveWriter], lines 188-192. *)
Record ArchiveWriter : Type := {
  tar_ : archive_tar.Writer;
  gzip : pgzip.Writer;
  file : os.File_
}.

(** [ArchiveWriter.Close], lines 195-207: [output] is assigned anew by every
    layer that fails. *)
Definition Close (aw : ArchiveWriter) (w : os.World)
  : ArchiveWriter * os.World * option error :=
  let output : option error := None in
  let '(t1, z1, w1, e1) := archive_tar.Close (tar_ aw) (gzip aw) (file aw) w in
  let output := match e1 with Some err => Some err | None => output end in
  let '(z2, w2, e2) := pgzip.Close z1 (file aw) w1 in
  let output := match e2 with Some err => Some err | None => output end in
  let '(f3, w3, e3) := os.Close (file aw) w2 in
  let output := match e3 with Some err => Some err | None => output end in
  ({| tar_ := t1; gzip := z2; file := f3 |}, w3, output).

(** [ArchiveWriter.WriteHeader], lines 209-211. *)
Definition WriteHeader (aw : ArchiveWriter) (w : os.World) (hdr : tar.Header)
  : ArchiveWriter * os.World * option error :=
  let '(t1, z1, w1, e) := archive_tar.WriteHeader (tar_ aw) (gzip aw) (file aw) w hdr in
  ({| tar_ := t1; gzip := z1; file := file aw |}, w1, e).

(** [ArchiveWriter.Write], lines 213-215. *)
Definition Write (aw : ArchiveWriter) (w : os.World) (p : string)
  : ArchiveWriter * os.World * option error :=
  let '(t1, z1, w1, e) := archive_tar.Write (tar_ aw) (gzip aw) (file aw) w p in
  ({| tar_ := t1; gzip := z1; file := file aw |}, w1, e).

(** [openArchiveWriter], lines 217-240. *)
Definition openArchiveWriter (w : os.World) (path : string)
  : os.World * result ArchiveWriter :=
  match os.Create w path with
  | (w1, Err err) => (w1, Err err)
  | (w1, Ok outFile) =>
      match pgzip.NewWriterLevel pgzip.DefaultCompression with
      | Err err =>
          let '(_, w2, _) := os.Close outFile w1 in (w2, Err err)
      | Ok gw =>
          (w1, Ok {| tar_ := archive_tar.NewWriter; gzip := gw; file := outFile |})
      end
  end.

Definition with_scan (l : Location) (sz : Z) (idx : list IndexEntry) : Location :=
  {| Path := Path l; Ignore := Ignore l; size := sz; index := idx |}.

(** The function [scan] hands to [filepath.WalkDir], lines 98-131. *)
Definition scan_fn : filepath.WalkDirFunc Location :=
  fun path d werr l =>
    match werr with
    | Some e => (l, Some e)
    | None =>
        if String.eqb path (Path l) then (l, None)
        else
          match d with
          | None => (l, Some (errorString "invalid memory address or nil pointer dereference"))
          | Some d =>
              match filepath.Info d with
              | Err err => (l, Some err)
              | Ok info =>
                  if existsb (String.eqb (os.Name info)) (Ignore l) then
                    if os.IsDir info then (l, Some SkipDir) else (l, None)
                  else
                    (with_scan l (size l + os.Size info)%Z
                       (index l ++ [{| Path_ := path; Info := info |}])%list, None)
              end
          end
    end.

(** [Location.scan], lines 91-138. *)
Definition scan (w : os.World) (l : Location) : Location * option error :=
  let l := with_scan l (size l) [] in
  match filepath.WalkDir w (Path l) scan_fn l with
  | (l', Some err) => (l', Some (wrapError "failed to walk directory" err))
  | (l', None) => (l', None)
  end.

(** [Location.write], lines 142-185. *)
Fixpoint write_loop (l : Location) (tw : ArchiveWriter) (w : os.World)
  (es : list IndexEntry) : ArchiveWriter * os.World * option error :=
  match es with
  | [] => (tw, w, None)
  | e :: rest =>
      match filepath.Rel (Path l) (Path_ e) with
      | Err err => (tw, w, Some err)
      | Ok relPath =>
          match archive_tar.FileInfoHeader (Info e) "" with
          | Err err => (tw, w, Some err)
          | Ok hdr =>
              let hdr :=
                {| tar.Typeflag := tar.Typeflag hdr; tar.Name := relPath;
                   tar.Linkname := tar.Linkname hdr; tar.Size := tar.Size hdr;
                   tar.Mode := tar.Mode hdr; tar.Fmt := tar.Fmt hdr |} in
              match WriteHeader tw w hdr with
              | (tw1, w1, Some err) => (tw1, w1, Some err)
              | (tw1, w1, None) =>
                  if negb (os.IsDir (Info e)) then
                    match os.ReadFile w1 (Path_ e) with
                    | Err err => (tw1, w1, Some err)
                    | Ok data =>
                        match Write tw1 w1 data with
                        | (tw2, w2, Some err) => (tw2, w2, Some err)
                        | (tw2, w2, None) => write_loop l tw2 w2 rest
                        end
                    end
                  else write_loop l tw1 w1 rest
              end
          end
      end
  end.

Definition write (l : Location) (tw : ArchiveWriter) (w : os.World)
  : ArchiveWriter * os.World * option error :=
  write_loop l tw w (index l).

(** The file name [BackupData] gives the archive of a location, lines
    44-47: generated from the path as the configuration gives it. *)
Definition filename_of (location : Location) : string :=
  filepath.Base (Path location) ++ "-" ++ sha256.hex (sha256.Sum256 (Path location))
  ++ ".tar.gz".

(** The expansion and absolutization of lines 49-62. *)
Definition expand (w : os.World) (path : string) : result string :=
  path1 <-
    (if (1 <? String.length path)%nat && String.eqb (strings.take 2 path) "~/"
     then
       match os.UserHomeDir w with
       | Err err => Err (wrapError "failed to get home dir" err)
       | Ok home => Ok (filepath.Join [home; strings.drop 2 path])
       end
     else Ok path) ;;
  match filepath.Abs w path1 with
  | Err err => Err (wrapError "failed to get absolute path" err)
  | Ok p => Ok p
  end.

Fixpoint close_all (w : os.World) (deferred : list ArchiveWriter) : os.World :=
  match deferred with
  | [] => w
  | tw :: rest => let '(_, w1, _) := Close tw w in close_all w1 rest
  end.

(** [BackupData], lines 35-87. The [defer tw.Close()] of every round runs
    when the function returns, the last writer first; [deferred] are the
    writers opened so far, the last one first. *)
Fixpoint BackupData_loop (w : os.World) (locs : list Location) (output : string)
  (deferred : list ArchiveWriter) : os.World * option error :=
  match locs with
  | [] => (close_all w deferred, None)
  | location :: rest =>
      let filename := filename_of location in
      match expand w (Path location) with
      | Err err => (close_all w deferred, Some err)
      | Ok path =>
          let location := {| Path := path; Ignore := Ignore location;
                             size := size location; index := index location |} in
          match scan w location with
          | (_, Some err) =>
              (close_all w deferred, Some (wrapError "failed to scan location" err))
          | (location, None) =>
              match openArchiveWriter w (filepath.Join [output; filename]) with
              | (w1, Err err) =>
                  (close_all w1 deferred, Some (wrapError "failed to open tar.gz writer" err))
              | (w1, Ok tw) =>
                  match write location tw w1 with
                  | (tw1, w2, Some err) =>
                      (close_all w2 (tw1 :: deferred),
                       Some (wrapError "failed to filter location" err))
                  | (tw1, w2, None) => BackupData_loop w2 rest output (tw1 :: deferred)
                  end
              end
          end
      end
  end.

Definition BackupData (w : os.World) (config : Config) : os.World * option error :=
  BackupData_loop w (Locations (Data_ config)) (Output config) [].

End data_go.

(** ** internal/backup/config.go *)

Module config_go.

(** [Create], lines 47-64, over the [BackupData] of data.go. *)
Definition Create (w : os.World) (config : data_go.Config) : os.World * option error :=
  match os.MkdirAll w (data_go.Output config) 493 with
  | (w1, Some err) => (w1, Some err)
  | (w1, None) =>
      match data_go.BackupData w1 config with
      | (w2, Some err) => (w2, Some err)
      | (w2, None) => (w2, None)
      end
  end.

End config_go.

(** ** internal/backup/clear.go

    [ClearLocations] deletes the configured locations, as the command
    [clear] does to try a restore. Its messages on the terminal are left
    out. *)

Module clear_go.

(** [ClearLocations], lines 10-39. *)
Fixpoint ClearLocations_loop (w : os.World) (locs : list part_000.Location)
  : os.World * option error :=
  match locs with
  | [] => (w, None)
  | loc :: rest =>
      match part_003.normalizePath w (part_000.Path loc) with
      | Err err =>
          (w, Some (wrapError ("failed to normalize path " ++ part_000.Path loc) err))
      | Ok path =>
          if os.IsNotExist (os.Stat w path) then ClearLocations_loop w rest
          else
            match os.RemoveAll w path with
            | (w1, Some err) => (w1, Some (wrapError ("failed to delete " ++ path) err))
            | (w1, None) => ClearLocations_loop w1 rest
            end
      end
  end.

Definition ClearLocations (w : os.World) (config : part_000.Config)
  : os.World * option error :=
  ClearLocations_loop w (part_000.Locations (part_000.Data_ config)).

(** [ClearSingleLocation], lines 42-73. The error of [os.UserHomeDir] is
    dropped: without a home directory [homeDir] is the empty string. *)
Definition ClearSingleLocation (w : os.World) (path : string) : os.World * option error :=
  match part_003.normalizePath w path with
  | Err err => (w, Some (wrapError "failed to normalize path" err))
  | Ok normalizedPath =>
      if os.IsNotExist (os.Stat w normalizedPath)
      then (w, Some (errorString ("path does not exist: " ++ normalizedPath)))
      else
        let homeDir := match os.UserHomeDir w with Ok h => h | Err _ => "" end in
        if String.eqb normalizedPath "/" || String.eqb normalizedPath homeDir
        then (w, Some (errorString
                         ("refusing to delete protected directory: " ++ normalizedPath)))
        else
          match filepath.Abs w normalizedPath with
          | Err err => (w, Some (wrapError "failed to get absolute path" err))
          | Ok absPath =>
              if (String.length (filepath.Clean absPath) <? 10)%nat
              then (w, Some (errorString
                               ("path too short, refusing to delete: " ++ absPath)))
              else os.RemoveAll w normalizedPath
          end
  end.

End clear_go.

(** ** The vocabulary of the claims *)

(** A string without a separator. *)
Fixpoint noslash (s : string) : bool :=
  match s with
  | EmptyString => true
  | String c s' => negb (Ascii.eqb c strings.slash) && noslash s'
  end.

(** A path in normal form: absolute and clean, as [filepath.Abs] returns
    it. *)
Definition normal (path : string) : Prop :=
  filepath.IsAbs path = true /\ filepath.Clean path = path.

(** The elements [es] are file names: not empty, not "." or "..", and
    without separator. *)
Definition names (es : list string) : Prop :=
  Forall (fun c => filepath.plain c = true) es /\ Forall (fun c => noslash c = true) es.

(** [path] lies in [dir] or is [dir]: its elements continue those of
    [dir]. *)
Definition inside (dir path : string) : Prop :=
  exists rest, os.elems path = (os.elems dir ++ rest)%list.

(** What path resolution sees of a node. *)
Inductive shape : Type := SNone | SFile | SDir | SLink (t : string).

Definition shape_of (o : option os.node) : shape :=
  match o with
  | None => SNone
  | Some (os.File _ _) => SFile
  | Some (os.Dir _ _) => SDir
  | Some (os.Symlink t) => SLink t
  end.

(** A node without entries below it. *)
Definition leaf (n : os.node) : Prop :=
  match n with
  | os.Dir _ (_ :: _) => False
  | _ => True
  end.

(** Which shapes a new node may have for a resolution to stay as it was. *)
Definition harmless (follow : bool) (s : shape) : Prop :=
  match s with
  | SLink _ => follow = false
  | _ => True
  end.

(** Every name in the tree is a file name. *)
Fixpoint wf (n : os.node) : Prop :=
  match n with
  | os.Dir _ es =>
      (fix all (es : list (string * os.node)) : Prop :=
         match es with
         | [] => True
         | (c, m) :: es' =>
             (filepath.plain c = true /\ noslash c = true) /\ wf m /\ all es'
         end) es
  | _ => True
  end.

(** [reach n rel m]: following the names [rel] from the directory [n] leads
    to the entry [m]. *)
Inductive reach : os.node -> list string -> os.node -> Prop :=
| reach_here (n : os.node) : reach n [] n
| reach_down (perm : Z) (es : list (string * os.node)) (c : string) (m m' : os.node)
    (rel : list string) :
    In (c, m) es -> reach m rel m' -> reach (os.Dir perm es) (c :: rel) m'.

(** The path [filepath.WalkDir] builds for the entry [rel] below [root]. *)
Definition path_of (root : string) (rel : list string) : string :=
  fold_left (fun p c => filepath.Join [p; c]) rel root.

(** [slices.Contains(ignore, c)]. *)
Definition ignored (ignore : list string) (c : string) : bool :=
  existsb (String.eqb c) ignore.

(** The entries below the directory [n] that a scan keeps, in the order of
    the walk, each with its names relative to the root; [cs] are the names
    of [n] itself. An ignored name is left out with all that lies below. *)
Fixpoint kept (ignore : list string) (cs : list string) (n : os.node)
  : list (list string * os.node) :=
  match n with
  | os.Dir _ es =>
      flat_map (fun e =>
                  if ignored ignore (fst e) then []
                  else ((cs ++ [fst e])%list, snd e)
                       :: kept ignore (cs ++ [fst e])%list (snd e)) es
  | _ => []
  end.

(** The loop of [filepath.walkDir] over the entries of a directory. *)
Fixpoint walk_each {S : Type} (w : os.World) (fn : filepath.WalkDirFunc S)
  (path : string) (es : list (string * os.node)) (s : S) : S * option error :=
  match es with
  | [] => (s, None)
  | (name1, child) :: es' =>
      let '(s', err1) := filepath.walkDir w fn (filepath.Join [path; name1]) name1 child s in
      match err1 with
      | Some SkipDir => (s', None)
      | Some e => (s', Some e)
      | None => walk_each w fn path es' s'
      end
  end.

(** The state after the kept entries [l] were added to [s] in order by
    [add], the update a scan makes for an entry it keeps. *)
Definition collect (S : Type) (w : os.World) (root : string)
  (add : S -> string -> filepath.DirEntry -> S) (s : S)
  (l : list (list string * os.node)) : S :=
  fold_left (fun s x => add s (path_of root (fst x))
                          (filepath.entry_of w (last (fst x) "") (snd x))) l s.

(** What the claims say of a scan's index [idx] of the directory [n] at
    [root]: it lists the kept entries in walk order; an entry below the root
    is listed exactly when neither its own name nor the name of a directory
    above it is ignored; and no listed path has an ignored base name. *)
Definition index_spec (root : string) (ignore : list string) (n : os.node)
  (idx : list string) : Prop :=
  idx = map (fun x => path_of root (fst x)) (kept ignore [] n)
  /\ (forall rel m, rel <> [] -> reach n rel m ->
        (In (path_of root rel) idx <-> Forall (fun c => ~ In c ignore) rel))
  /\ (forall q, In q idx -> ~ In (filepath.Base q) ignore).

Definition sum (l : list Z) : Z := fold_right Z.add 0%Z l.

(** The logical size of a kept entry: its size unless it is a directory. *)
Definition entry_size (w : os.World) (x : list string * os.node) : Z :=
  match snd x with
  | os.Dir _ _ => 0%Z
  | m => os.Size (os.info_of w (last (fst x) "") m)
  end.

(** The size [Lstat] reports for a kept entry, directory or not. *)
Definition lstat_size (w : os.World) (x : list string * os.node) : Z :=
  os.Size (os.info_of w (last (fst x) "") (snd x)).

(** The update of part_000's scan for an entry it keeps. *)
Definition part_000_add (s : part_000.Location) (path : string) (d : filepath.DirEntry)
  : part_000.Location :=
  let l := part_000.with_scan s (part_000.index s ++ [path])%list (part_000.totalSize s) in
  if negb (filepath.IsDir d) then
    match filepath.Info d with
    | Ok info => part_000.with_scan l (part_000.index l) (part_000.totalSize l + os.Size info)%Z
    | Err _ => l
    end
  else l.

(** The update of data.go's scan for an entry it keeps. *)
Definition data_go_add (s : data_go.Location) (path : string) (d : filepath.DirEntry)
  : data_go.Location :=
  match filepath.Info d with
  | Ok info =>
      data_go.with_scan s (data_go.size s + os.Size info)%Z
        (data_go.index s ++ [{| data_go.Path_ := path; data_go.Info := info |}])%list
  | Err _ => s
  end.

(** The names of the members of every archive of a world. *)
Definition member_names (w : os.World) : list (list string * list string) :=
  map (fun ka => (fst ka, map (fun e => tar.Name (tar.hdr e)) (tar.entries (snd ka))))
      (os.archives w).

(** ** A small world to run the tool in *)

Module fixture.

Local Open Scope Z_scope.

(** /home/u/project: a file, a link to it, a directory with a file, and the
    two directories the configuration ignores. *)
Definition project : os.node :=
  os.Dir 493
    [ (".git", os.Dir 493 [("HEAD", os.File 420 "ref: refs/heads/main")]);
      ("a.txt", os.File 420 "0123456789");
      ("l", os.Symlink "a.txt");
      ("node_modules", os.Dir 493 [("pkg", os.Dir 493 [("index.js", os.File 420 "x")])]);
      ("sub", os.Dir 493 [("b", os.File 420 "bb")]) ].

Definition tree : os.node :=
  os.Dir 493
    [ ("backup", os.Dir 493 []);
      ("data", os.Dir 493 []);
      ("home", os.Dir 493 [("u", os.Dir 493 [("empty", os.Dir 493 []);
                                             ("project", project)])]) ].

Definition world : os.World :=
  {| os.root := tree; os.umask := 18; os.dirsize := 4096;
     os.HOME := Some "/home/u"; os.wd := Some "/home/u";
     os.archives := []; os.closes := [] |}.

Definition ignore : list string := ["node_modules"; ".git"].

Definition location (path : string) : part_000.Location :=
  {| part_000.Path := path; part_000.Ignore := ignore;
     part_000.index := []; part_000.totalSize := 0 |}.

Definition config (path : string) : part_000.Config :=
  {| part_000.Output := "/backup";
     part_000.Data_ := {| part_000.Locations := [location path] |} |}.

(** A regular-file member of an archive. *)
Definition member (name content : string) : tar.entry :=
  {| tar.hdr := {| tar.Typeflag := tar.TypeReg; tar.Name := name; tar.Linkname := "";
                   tar.Size := Z.of_nat (String.length content); tar.Mode := 420;
                   tar.Fmt := tar.FormatPAX |};
     tar.payload := content |}.

(** A symbolic-link member of an archive. *)
Definition link (name target : string) : tar.entry :=
  {| tar.hdr := {| tar.Typeflag := tar.TypeSymlink; tar.Name := name;
                   tar.Linkname := target; tar.Size := 0; tar.Mode := 511;
                   tar.Fmt := tar.FormatPAX |};
     tar.payload := "" |}.

(** The world with an archive of the given members stored for the location
    [path]. *)
Definition with_archive (path : string) (members : list tar.entry) : os.World :=
  os.with_archives world
    [ (["backup"; part_003.generateFilename path],
       {| tar.entries := members; tar.trailer := None |}) ].

End fixture.

(** ** The vocabulary of the further properties *)

(** A writer between two members, on an archive file that is open. *)
Definition ready (tw : data_go.ArchiveWriter) (w : os.World) : Prop :=
  archive_tar.err (data_go.tar_ tw) = None
  /\ archive_tar.nb (data_go.tar_ tw) = 0%Z
  /\ pgzip.err (data_go.gzip tw) = None
  /\ pgzip.closed (data_go.gzip tw) = false
  /\ os.fd_closed (data_go.file tw) = false
  /\ exists a, os.find_archive (os.fd_path (data_go.file tw)) (os.archives w) = Some a.

(** The resolved path [q] is [p] or lies below it. *)
Definition is_prefix (p q : list string) : Prop := exists t, q = (p ++ t)%list.

(** A directory is found. *)
Definition is_dir (o : option os.node) : Prop :=
  exists perm es, o = Some (os.Dir perm es).

(** The resolved path [es] leads through directories of the tree [r], and
    what lies at its end, if anything, is no link. *)
Definition straight (r : os.node) (es : list string) : Prop :=
  (forall pre suf, es = (pre ++ suf)%list -> suf <> [] -> is_dir (os.get r pre))
  /\ forall t, os.get r es <> Some (os.Symlink t).

(** No directory of the tree lists a name twice. *)
Fixpoint distinct (n : os.node) : Prop :=
  match n with
  | os.Dir _ es =>
      NoDup (map fst es)
      /\ (fix all (es : list (string * os.node)) : Prop :=
            match es with
            | [] => True
            | (_, m) :: es' => distinct m /\ all es'
            end) es
  | _ => True
  end.

(** The member of an archive that describes the entry [x] of a location
    whose base name is [b]: its name below [b], type, size, permission bits,
    and the content of a file or the target of a link. *)
Definition member_of (b : string) (x : list string * os.node) : tar.entry :=
  let name := strings.Join (b :: fst x) in
  match snd x with
  | os.File perm data =>
      {| tar.hdr := {| tar.Typeflag := tar.TypeReg; tar.Name := name; tar.Linkname := "";
                       tar.Size := Z.of_nat (String.length data); tar.Mode := perm;
                       tar.Fmt := tar.FormatPAX |};
         tar.payload := data |}
  | os.Dir perm _ =>
      {| tar.hdr := {| tar.Typeflag := tar.TypeDir; tar.Name := name; tar.Linkname := "";
                       tar.Size := 0; tar.Mode := perm; tar.Fmt := tar.FormatPAX |};
         tar.payload := "" |}
  | os.Symlink t =>
      {| tar.hdr := {| tar.Typeflag := tar.TypeSymlink; tar.Name := name; tar.Linkname := t;
                       tar.Size := 0; tar.Mode := 511; tar.Fmt := tar.FormatPAX |};
         tar.payload := "" |}
  end.

(** No entry of the list is a link. *)
Definition nolinks (l : list (list string * os.node)) : Prop :=
  Forall (fun x => forall t, snd x <> os.Symlink t) l.

(** An archive writer between two members, on the open file at [q]. *)
Definition fresh (q : list string) : part_003.ArchiveWriter :=
  {| part_003.tar_ := {| archive_tar.err := None; archive_tar.nb := 0 |};
     part_003.gzip := {| pgzip.err := None; pgzip.closed := false |};
     part_003.file := {| os.fd_path := q; os.fd_closed := false |} |}.

(** What [scan] found at the end of a straight path can be written. *)
Definition writable (r : os.node) (t : list string) (x : list string * os.node) : Prop :=
  names (fst x) /\ fst x <> []
  /\ straight r (t ++ fst x)%list
  /\ os.get r (t ++ fst x)%list = Some (snd x)
  /\ forall y, snd x <> os.Symlink y.

(** A tree [r'] that has all of [r]: every file with its bits and bytes,
    every link, and every directory with its bits. *)
Definition extends (r r' : os.node) : Prop :=
  forall y,
    match os.get r y with
    | Some (os.File perm data) => os.get r' y = Some (os.File perm data)
    | Some (os.Symlink l) => os.get r' y = Some (os.Symlink l)
    | Some (os.Dir perm _) => exists es', os.get r' y = Some (os.Dir perm es')
    | None => True
    end.

(** The entry [m] as a restore into the world [w] leaves it at the resolved
    path [p] of the tree [r]: a file with its bytes and a directory, each
    with its permission bits less the umask, or a link with its target. *)
Definition restored (w : os.World) (r : os.node) (p : list string) (m : os.node) : Prop :=
  match m with
  | os.File perm data => os.get r p = Some (os.File (os.masked w perm) data)
  | os.Dir perm _ => exists es, os.get r p = Some (os.Dir (os.masked w perm) es)
  | os.Symlink l => os.get r p = Some (os.Symlink l)
  end.

(** The order of a walk below the directory [top]: the parent of an entry
    is [top], or a directory that came before it; [seen] are the entries
    that came before the list. *)
Fixpoint parent_first (top : list string) (seen ks : list (list string * os.node)) : Prop :=
  match ks with
  | [] => True
  | x :: ks' =>
      (exists rel' c, fst x = (rel' ++ [c])%list
                      /\ (rel' = top \/ exists perm es, In (rel', os.Dir perm es) seen))
      /\ parent_first top (seen ++ [x])%list ks'
  end.

(** Bits 0300: the owner of a directory with these bits may pass through it
    and make entries in it. *)
Definition owner_wx (perm : Z) : Prop := Z.land perm 192 = 192%Z.

(** What a restore into the world [w] makes of the entries [l] can be
    written below: a directory made with mode 0755 and every directory of
    [l], made with its own bits, has the bits 0300 once the umask is
    taken off. The process that restores owns what it makes, and the system
    refuses it an entry below a directory of its own without these bits. *)
Definition dirs_writable (w : os.World) (l : list (list string * os.node)) : Prop :=
  owner_wx (os.masked w 493)
  /\ Forall (fun x => forall perm es, snd x = os.Dir perm es -> owner_wx (os.masked w perm)) l.





(** ** A location without links, and the world after its backup and
    deletion *)

Module sample.

Definition loc : part_000.Location :=
  {| part_000.Path := "~/project"; part_000.Ignore := ["node_modules"; ".git"; "l"];
     part_000.index := []; part_000.totalSize := 0 |}.

Definition config : part_000.Config :=
  {| part_000.Output := "/backup"; part_000.Data_ := {| part_000.Locations := [loc] |} |}.

Definition backed_up : os.World := fst (part_000.BackupData fixture.world config).

Definition cleared : os.World := fst (clear_go.ClearLocations backed_up config).

End sample.

(** The bits of a concrete list of entries, checked one by one. *)
Ltac dirs_writable_by_computation :=
  split; [vm_compute; reflexivity|];
  apply Forall_forall;
  let Hin := fresh "Hin" in
  let Hdir := fresh "Hdir" in
  intros [? ?] Hin; vm_compute in Hin;
  intros ? ? Hdir; cbn [snd] in Hdir; subst;
  repeat (destruct Hin as [Hin|Hin]; [inversion Hin; subst; vm_compute; reflexivity|]);
  contradiction.

(** * Properties *)

Arguments filepath.Join : simpl never.
Arguments filepath.Clean : simpl never.
Arguments path_of : simpl never.
Arguments os.resolve : simpl never.
Arguments os.namei : simpl never.
Opaque os.MAXSYMLINKS.

(** *** Strings and their elements *)

Lemma HasPrefix_app (s p : string) :
  strings.HasPrefix s p = true <-> exists r, s = p ++ r.
Proof.
  revert s. induction p as [|c p IH]; intros s; simpl.
  - split; [intros _; now exists s | reflexivity].
  - destruct s as [|d s].
    + split; [discriminate | intros [r H]; discriminate].
    + rewrite andb_true_iff, IH. split.
      * intros [E [r ->]]. apply Ascii.eqb_eq in E. subst. now exists r.
      * intros [r [= -> ->]]. split; [apply Ascii.eqb_refl | now exists r].
Qed.

Lemma Split_not_nil (s : string) : strings.Split s <> [].
Proof.
  destruct s as [|c s]; simpl; [discriminate|].
  destruct (Ascii.eqb c strings.slash); [discriminate|].
  destruct (strings.Split s); discriminate.
Qed.

Lemma Split_app_slash (a b : string) :
  strings.Split (a ++ String strings.slash b) = (strings.Split a ++ strings.Split b)%list.
Proof.
  induction a as [|c a IH]; simpl.
  - reflexivity.
  - destruct (Ascii.eqb c strings.slash); [now rewrite IH|].
    rewrite IH. destruct (strings.Split a) eqn:E; [now destruct (Split_not_nil a)|reflexivity].
Qed.

Lemma Split_noslash (s : string) : noslash s = true -> strings.Split s = [s].
Proof.
  induction s as [|c s IH]; simpl; [reflexivity|].
  rewrite andb_true_iff, negb_true_iff. intros [-> H]. now rewrite IH.
Qed.

Lemma Split_all_noslash (s : string) : Forall (fun c => noslash c = true) (strings.Split s).
Proof.
  induction s as [|c s IH]; simpl.
  - repeat constructor.
  - destruct (Ascii.eqb c strings.slash) eqn:E.
    + constructor; [reflexivity | exact IH].
    + destruct (strings.Split s) as [|x xs]; [repeat constructor; simpl; now rewrite E|].
      inversion IH; subst. constructor; [simpl; rewrite E; assumption | assumption].
Qed.

Lemma Join_cons (x : string) (xs : list string) :
  xs <> [] -> strings.Join (x :: xs) = x ++ String strings.slash (strings.Join xs).
Proof. destruct xs; [congruence | reflexivity]. Qed.

Lemma append_assoc (a b c : string) : (a ++ b) ++ c = a ++ (b ++ c).
Proof. induction a; simpl; [reflexivity | now rewrite IHa]. Qed.

Lemma append_nil_r (a : string) : a ++ "" = a.
Proof. induction a; simpl; [reflexivity | now rewrite IHa]. Qed.

Lemma Join_app (xs ys : list string) :
  xs <> [] -> ys <> [] ->
  strings.Join (xs ++ ys)%list = strings.Join xs ++ String strings.slash (strings.Join ys).
Proof.
  induction xs as [|x xs IH]; intros Hx Hy; [congruence|].
  destruct xs as [|x' xs].
  - simpl app. now rewrite Join_cons.
  - change ((x :: x' :: xs) ++ ys)%list with (x :: ((x' :: xs) ++ ys)%list).
    rewrite Join_cons by (simpl; discriminate).
    rewrite IH by (assumption || discriminate).
    rewrite (Join_cons x (x' :: xs)) by discriminate.
    now rewrite append_assoc.
Qed.

Lemma Split_Join (es : list string) :
  es <> [] -> Forall (fun c => noslash c = true) es -> strings.Split (strings.Join es) = es.
Proof.
  induction es as [|x xs IH]; intros Hne H; [congruence|].
  inversion H; subst. destruct xs as [|x' xs].
  - simpl. now apply Split_noslash.
  - rewrite Join_cons by discriminate. rewrite Split_app_slash.
    rewrite IH by (assumption || discriminate). now rewrite Split_noslash.
Qed.

Lemma Split_rooted (es : list string) :
  es <> [] -> Forall (fun c => noslash c = true) es ->
  strings.Split ("/" ++ strings.Join es) = "" :: es.
Proof. intros Hne H. simpl. now rewrite Split_Join. Qed.

(** *** Clean *)

Lemma plain_cases (c : string) :
  filepath.plain c = true ->
  String.eqb c "" = false /\ String.eqb c "." = false /\ String.eqb c ".." = false.
Proof.
  unfold filepath.plain. rewrite !andb_true_iff, !negb_true_iff. tauto.
Qed.

(** Without "..", [Clean] keeps exactly the plain elements. *)
Lemma clean_elems_no_dotdot (rooted : bool) (es out : list string) :
  Forall (fun c => String.eqb c ".." = false) es ->
  filepath.clean_elems rooted es out = (rev out ++ filter filepath.plain es)%list.
Proof.
  revert out. induction es as [|c es IH]; intros out H; simpl.
  - now rewrite app_nil_r.
  - inversion H as [|? ? Hc Hes]; subst. unfold filepath.plain at 1.
    destruct (String.eqb c "") eqn:E1; simpl; [now apply IH|].
    destruct (String.eqb c ".") eqn:E2; simpl; [now apply IH|].
    rewrite Hc. simpl. rewrite IH by assumption. simpl. now rewrite <- app_assoc.
Qed.

Lemma filter_plain_id (es : list string) :
  Forall (fun c => filepath.plain c = true) es -> filter filepath.plain es = es.
Proof.
  induction 1 as [|c es Hc _ IH]; simpl; [reflexivity|]. now rewrite Hc, IH.
Qed.

Lemma plain_no_dotdot (es : list string) :
  Forall (fun c => filepath.plain c = true) es ->
  Forall (fun c => String.eqb c ".." = false) es.
Proof.
  apply Forall_impl. intros c H. now apply plain_cases in H.
Qed.

(** In a rooted path every element of the result is plain. *)
Lemma clean_elems_rooted_plain (es out : list string) :
  Forall (fun c => filepath.plain c = true) out ->
  Forall (fun c => filepath.plain c = true) (filepath.clean_elems true es out).
Proof.
  revert out. induction es as [|c es IH]; intros out H; simpl.
  - now apply Forall_rev.
  - destruct (String.eqb c "") eqn:E1; simpl; [now apply IH|].
    destruct (String.eqb c ".") eqn:E2; simpl; [now apply IH|].
    destruct (String.eqb c "..") eqn:E3.
    + destruct out as [|top out']; [now apply IH|].
      inversion H as [|? ? Htop Hout]; subst.
      apply plain_cases in Htop. destruct Htop as (_ & _ & ->). now apply IH.
    + apply IH. constructor; [|assumption].
      unfold filepath.plain. now rewrite E1, E2, E3.
Qed.

Lemma clean_elems_noslash (rooted : bool) (es out : list string) :
  Forall (fun c => noslash c = true) es ->
  Forall (fun c => noslash c = true) out ->
  Forall (fun c => noslash c = true) (filepath.clean_elems rooted es out).
Proof.
  revert out. induction es as [|c es IH]; intros out He Ho; simpl.
  - now apply Forall_rev.
  - inversion He; subst.
    destruct (String.eqb c "" || String.eqb c "."); [now apply IH|].
    destruct (String.eqb c "..").
    + destruct out as [|top out'].
      * destruct rooted; apply IH; auto.
      * inversion Ho; subst. destruct (String.eqb top ".."); apply IH; auto.
    + apply IH; auto.
Qed.

Lemma names_app (xs ys : list string) : names (xs ++ ys)%list <-> names xs /\ names ys.
Proof. unfold names. rewrite !Forall_app. tauto. Qed.

Lemma normal_elems (path : string) :
  normal path -> exists es, path = "/" ++ strings.Join es /\ names es.
Proof.
  intros [Habs Hclean]. unfold filepath.Clean in Hclean.
  destruct (String.eqb path "") eqn:E.
  - apply String.eqb_eq in E. subst. discriminate.
  - rewrite Habs in Hclean.
    exists (filepath.clean_elems true (strings.Split path) []). split; [now symmetry|].
    split; [now apply clean_elems_rooted_plain | apply clean_elems_noslash; auto].
    apply Split_all_noslash.
Qed.

Lemma Clean_rooted (es : list string) :
  Forall (fun c => noslash c = true) es ->
  Forall (fun c => String.eqb c ".." = false) es ->
  filepath.Clean ("/" ++ strings.Join es) = "/" ++ strings.Join (filter filepath.plain es).
Proof.
  intros Hs Hd. unfold filepath.Clean. simpl String.eqb. cbv iota.
  change (filepath.IsAbs ("/" ++ strings.Join es)) with true. cbv iota zeta.
  destruct es as [|e es'].
  - reflexivity.
  - rewrite Split_rooted by (assumption || discriminate).
    rewrite clean_elems_no_dotdot by (constructor; [reflexivity | assumption]).
    reflexivity.
Qed.

Lemma names_normal (es : list string) : names es -> normal ("/" ++ strings.Join es).
Proof.
  intros [Hp Hs]. split; [reflexivity|].
  rewrite Clean_rooted by (auto using plain_no_dotdot). now rewrite filter_plain_id.
Qed.

(** *** Dir, Base and Join on paths in normal form *)

Lemma removelast_snoc {A : Type} (l : list A) (x : A) : removelast (l ++ [x])%list = l.
Proof. now rewrite removelast_app, app_nil_r by discriminate. Qed.

Lemma Split_dirs (es : list string) :
  Forall (fun c => noslash c = true) es ->
  strings.Split (String.concat "" (map (fun c => c ++ "/") es)) = (es ++ [""])%list.
Proof.
  induction 1 as [|c es Hc _ IH]; [reflexivity|].
  cbn [map]. destruct es as [|c' es'].
  - simpl. rewrite Split_app_slash. now rewrite Split_noslash.
  - assert (E : String.concat "" ((c ++ "/") :: map (fun c => c ++ "/") (c' :: es'))
                = c ++ String strings.slash (String.concat "" (map (fun c => c ++ "/") (c' :: es')))).
    { cbn [map String.concat]. simpl "++". now rewrite append_assoc. }
    rewrite E, Split_app_slash, IH, Split_noslash by assumption. reflexivity.
Qed.

Lemma through_last_slash_rooted (ps : list string) (b : string) :
  names (ps ++ [b])%list ->
  filepath.through_last_slash ("/" ++ strings.Join (ps ++ [b])%list)
  = "/" ++ String.concat "" (map (fun c => c ++ "/") ps).
Proof.
  intros [_ Hs]. unfold filepath.through_last_slash.
  rewrite Split_rooted by (assumption || now destruct ps).
  change ("" :: ps ++ [b])%list with (("" :: ps) ++ [b])%list.
  rewrite removelast_snoc. cbn [map]. destruct ps; reflexivity.
Qed.

Lemma Dir_rooted (ps : list string) (b : string) :
  names (ps ++ [b])%list ->
  filepath.Dir ("/" ++ strings.Join (ps ++ [b])%list) = "/" ++ strings.Join ps.
Proof.
  intros H. unfold filepath.Dir. rewrite through_last_slash_rooted by assumption.
  apply names_app in H. destruct H as [[Hp Hs] _].
  unfold filepath.Clean. simpl String.eqb. cbv iota.
  change (filepath.IsAbs ("/" ++ _)) with true. cbv iota zeta.
  simpl strings.Split. rewrite Split_dirs by assumption.
  rewrite clean_elems_no_dotdot.
  - simpl. rewrite filter_app. simpl. now rewrite app_nil_r, filter_plain_id.
  - constructor; [reflexivity|]. apply Forall_app. split; [now apply plain_no_dotdot|].
    now constructor.
Qed.

Lemma strip_empty_plain (c : string) (l : list string) :
  filepath.plain c = true -> filepath.strip_empty (c :: l) = c :: l.
Proof. intros H. apply plain_cases in H. simpl. now destruct H as (-> & _). Qed.

Lemma Base_rooted (ps : list string) (b : string) :
  names (ps ++ [b])%list ->
  filepath.Base ("/" ++ strings.Join (ps ++ [b])%list) = b.
Proof.
  intros H. unfold filepath.Base. simpl String.eqb. cbv iota.
  destruct H as [Hp Hs].
  rewrite Split_rooted by (assumption || now destruct ps).
  change ("" :: ps ++ [b])%list with (("" :: ps) ++ [b])%list.
  rewrite rev_app_distr. simpl rev at 1. cbn [app].
  rewrite strip_empty_plain; [reflexivity|].
  apply Forall_app in Hp. destruct Hp as [_ Hb]. now inversion Hb.
Qed.

(** Joining a header name to a parent directory in normal form. *)
Lemma Join_parent (ps : list string) (name : string) :
  names ps ->
  Forall (fun c => String.eqb c ".." = false) (strings.Split name) ->
  filepath.Join ["/" ++ strings.Join ps; name]
  = "/" ++ strings.Join (ps ++ filter filepath.plain (strings.Split name))%list.
Proof.
  intros [Hp Hs] Hn. unfold filepath.Join. simpl String.eqb. cbv iota.
  assert (E : strings.Join ["/" ++ strings.Join ps; name]
              = "/" ++ strings.Join (ps ++ strings.Split name)%list
              \/ (ps = [] /\ strings.Join ["/" ++ strings.Join ps; name]
                             = "/" ++ strings.Join ("" :: strings.Split name))).
  { assert (Hj : strings.Join (strings.Split name) = name).
    { clear. induction name as [|c s IH]; [reflexivity|]. simpl.
      destruct (Ascii.eqb_spec c strings.slash) as [->|Hc].
      - rewrite Join_cons by apply Split_not_nil. simpl. now rewrite IH.
      - destruct (strings.Split s) as [|x xs] eqn:E; [now destruct (Split_not_nil s)|].
        destruct xs; simpl in *; now rewrite <- IH. }
    destruct ps as [|p ps'].
    - right. split; [reflexivity|].
      rewrite (Join_cons "" (strings.Split name)) by apply Split_not_nil.
      now rewrite Hj.
    - left. rewrite Join_app by (discriminate || apply Split_not_nil).
      rewrite Hj. reflexivity. }
  destruct E as [-> | [-> ->]].
  - rewrite Clean_rooted.
    + now rewrite filter_app, filter_plain_id.
    + apply Forall_app; split; [assumption | apply Split_all_noslash].
    + apply Forall_app; split; [now apply plain_no_dotdot | assumption].
  - rewrite Clean_rooted.
    + reflexivity.
    + constructor; [reflexivity | apply Split_all_noslash].
    + constructor; [reflexivity | assumption].
Qed.

Lemma elems_rooted (es : list string) :
  names es -> os.elems ("/" ++ strings.Join es) = es.
Proof.
  intros [Hp Hs]. unfold os.elems.
  assert (F : filter (fun c => negb (String.eqb c "") && negb (String.eqb c ".")) es = es).
  { clear Hs. induction Hp as [|c l Hc _ IH]; [reflexivity|].
    simpl. apply plain_cases in Hc. destruct Hc as (-> & -> & _). simpl. now rewrite IH. }
  destruct es as [|e es'].
  - reflexivity.
  - rewrite Split_rooted by (assumption || discriminate).
    cbn [filter String.eqb negb andb]. exact F.
Qed.

(** *** Lexical containment *)

Lemma elems_app_slash (a b : string) :
  os.elems (a ++ String strings.slash b) = (os.elems a ++ os.elems b)%list.
Proof. unfold os.elems. now rewrite Split_app_slash, filter_app. Qed.

(** What the check of [extractArchive] lets through is inside the parent
    directory. *)
Lemma legal_inside (parentDir name : string) :
  part_000.illegal_path parentDir name = false ->
  inside (filepath.Clean parentDir) (filepath.Clean (filepath.Join [parentDir; name])).
Proof.
  unfold part_000.illegal_path. rewrite andb_false_iff, !negb_false_iff.
  intros [H | H].
  - apply HasPrefix_app in H. destruct H as [r ->].
    exists (os.elems r). unfold filepath.Separator.
    change (filepath.Clean parentDir ++ "/")
      with (filepath.Clean parentDir ++ String strings.slash "").
    rewrite append_assoc. simpl "++" at 2. apply elems_app_slash.
  - apply String.eqb_eq in H. rewrite H. exists []. now rewrite app_nil_r.
Qed.

(** *** The directory tree *)

Lemma lookup_set_child_eq (c : string) (n : os.node) (es : list (string * os.node)) :
  os.lookup c (os.set_child c n es) = Some n.
Proof.
  induction es as [|[k v] es IH]; simpl.
  - now rewrite String.eqb_refl.
  - destruct (String.eqb k c) eqn:E; simpl.
    + now rewrite String.eqb_refl.
    + destruct (String.ltb c k); simpl.
      * now rewrite String.eqb_refl.
      * now rewrite E.
Qed.

Lemma lookup_set_child_ne (c c' : string) (n : os.node) (es : list (string * os.node)) :
  c' <> c -> os.lookup c' (os.set_child c n es) = os.lookup c' es.
Proof.
  intros Hne. assert (Hc : String.eqb c c' = false) by (apply String.eqb_neq; congruence).
  induction es as [|[k v] es IH]; simpl.
  - now rewrite Hc.
  - destruct (String.eqb k c) eqn:E; simpl.
    + rewrite Hc. apply String.eqb_eq in E. subst k. now rewrite Hc.
    + destruct (String.ltb c k); simpl.
      * now rewrite Hc.
      * now rewrite IH.
Qed.

Lemma get_app (r : os.node) (p q : list string) :
  os.get r (p ++ q)%list
  = match os.get r p with Some n => os.get n q | None => None end.
Proof.
  revert r. induction p as [|c p IH]; intros r; simpl; [reflexivity|].
  destruct r as [| |perm es]; try reflexivity.
  destruct (os.lookup c es); [apply IH | reflexivity].
Qed.

Lemma get_leaf (n : os.node) (q : list string) : leaf n -> q <> [] -> os.get n q = None.
Proof.
  intros Hl Hq. destruct q as [|c q]; [congruence|].
  destruct n as [| |perm [|e es]]; simpl; try reflexivity. contradiction.
Qed.

Lemma put_get_eq (r r' n : os.node) (p : list string) :
  os.put r p n = Some r' -> os.get r' p = Some n.
Proof.
  revert r r'. induction p as [|c p IH]; intros r r'; simpl.
  - now intros [= ->].
  - destruct r as [| |perm es]; try discriminate.
    destruct (os.lookup c es) as [child|] eqn:El.
    + destruct (os.put child p n) as [child'|] eqn:Ep; [|discriminate].
      intros [= <-]. simpl. rewrite lookup_set_child_eq. now apply IH with child.
    + destruct p; [|discriminate]. intros [= <-]. simpl.
      now rewrite lookup_set_child_eq.
Qed.

(** Storing a leaf where nothing lay below changes the shape of no other
    path. *)
Lemma put_shape_other (r r' n : os.node) (p : list string) :
  os.put r p n = Some r' -> leaf n ->
  (forall q', q' <> [] -> os.get r (p ++ q')%list = None) ->
  forall q, q <> p -> shape_of (os.get r' q) = shape_of (os.get r q).
Proof.
  revert r r'. induction p as [|c p IH]; intros r r' Hput Hl Hbelow q Hq.
  - simpl in Hput. injection Hput as <-.
    rewrite get_leaf by assumption. specialize (Hbelow q Hq). simpl in Hbelow.
    now rewrite Hbelow.
  - simpl in Hput. destruct r as [| |perm es]; try discriminate.
    assert (Hsub : exists ch', r' = os.Dir perm (os.set_child c ch' es)
              /\ match os.lookup c es with
                 | Some child => os.put child p n = Some ch'
                 | None => p = [] /\ ch' = n
                 end).
    { destruct (os.lookup c es) as [child|].
      - destruct (os.put child p n) as [ch'|]; [|discriminate].
        injection Hput as <-. now exists ch'.
      - destruct p; [|discriminate]. injection Hput as <-. now exists n. }
    destruct Hsub as (ch' & -> & Hch). clear Hput.
    destruct q as [|c' q]; [reflexivity|].
    destruct (String.eqb_spec c' c) as [->|Hne].
    + simpl. rewrite lookup_set_child_eq.
      destruct (os.lookup c es) as [child|] eqn:El.
      * apply IH with (r := child); auto.
        -- intros q' Hq'. specialize (Hbelow q' Hq'). simpl in Hbelow. now rewrite El in Hbelow.
        -- congruence.
      * destruct Hch as [-> ->]. rewrite get_leaf; [reflexivity | assumption | congruence].
    + simpl. now rewrite lookup_set_child_ne.
Qed.

(** *** Path resolution *)

Lemma resolve_nil (fuel : nat) (r : os.node) (follow : bool) (cur : list string) :
  os.resolve fuel r follow cur [] = Ok cur.
Proof. destruct fuel; reflexivity. Qed.

Lemma resolve_cons (fuel : nat) (r : os.node) (follow : bool) (cur : list string)
  (c : string) (rest : list string) :
  os.resolve fuel r follow cur (c :: rest)
  = match os.get r cur with
    | Some (os.Dir _ _) =>
        if String.eqb c ".." then os.resolve fuel r follow (removelast cur) rest
        else
          match os.get r (cur ++ [c])%list with
          | Some (os.Symlink t) =>
              match rest, follow with
              | [], false => Ok (cur ++ [c])%list
              | _, _ =>
                  match fuel with
                  | O => Err ELOOP
                  | S fuel' =>
                      os.resolve fuel' r follow
                        (if strings.HasPrefix t "/" then [] else cur)
                        (os.elems t ++ rest)%list
                  end
              end
          | Some _ => os.resolve fuel r follow (cur ++ [c])%list rest
          | None => match rest with [] => Ok (cur ++ [c])%list | _ => Err ENOENT end
          end
    | Some _ => Err ENOTDIR
    | None => Err ENOENT
    end.
Proof. destruct fuel; reflexivity. Qed.

Lemma resolve_stable (r r' : os.node) (follow : bool) (p : list string) :
  (forall q, q <> p -> shape_of (os.get r' q) = shape_of (os.get r q)) ->
  shape_of (os.get r' p) = shape_of (os.get r p)
  \/ (shape_of (os.get r p) = SNone /\ harmless follow (shape_of (os.get r' p))) ->
  forall fuel cur rest x,
    os.resolve fuel r follow cur rest = Ok x -> os.resolve fuel r' follow cur rest = Ok x.
Proof.
  intros Hother Hat.
  assert (Hdir : forall q perm es, os.get r q = Some (os.Dir perm es) ->
                 exists perm' es', os.get r' q = Some (os.Dir perm' es')).
  { intros q perm es Hq.
    assert (E : shape_of (os.get r' q) = SDir).
    { destruct (list_eq_dec string_dec q p) as [->|Hne].
      - destruct Hat as [-> | [Hn _]]; [now rewrite Hq|]. now rewrite Hq in Hn.
      - rewrite Hother by assumption. now rewrite Hq. }
    destruct (os.get r' q) as [[| |perm' es']|]; try discriminate. eauto. }
  induction fuel as [|fuel IHf]; intros cur rest; revert cur;
    (induction rest as [|c rest IHr]; intros cur x;
     [rewrite !resolve_nil; auto|]);
    rewrite !resolve_cons;
    (destruct (os.get r cur) as [[| |perm es]|] eqn:Ecur; try discriminate);
    (destruct (Hdir _ _ _ Ecur) as (perm' & es' & ->));
    (destruct (String.eqb c ".."); [apply IHr|]);
    (destruct (list_eq_dec string_dec (cur ++ [c])%list p) as [Ep|Hne];
     [ rewrite Ep; destruct Hat as [Hs | [Hn Hh]];
       [ destruct (os.get r p) as [[| |? ?]|], (os.get r' p) as [[| |? ?]|];
         simpl in Hs; try discriminate; try injection Hs as ->;
         try rewrite <- Ep; auto;
         destruct rest, follow; auto
       | destruct (os.get r p) as [[| |? ?]|]; simpl in Hn; try discriminate;
         destruct rest; [|discriminate]; intros [= <-];
         destruct (os.get r' p) as [[| |? ?]|]; simpl in Hh;
         rewrite <- ?Ep, ?resolve_nil; subst; auto ]
     | specialize (Hother _ Hne);
       destruct (os.get r (cur ++ [c])%list) as [[| |? ?]|],
                (os.get r' (cur ++ [c])%list) as [[| |? ?]|];
       simpl in Hother; try discriminate; try injection Hother as ->; auto;
       destruct rest, follow; auto ]).
Qed.

(** When the last element is no link, following it changes nothing. *)
Lemma resolve_follow (r : os.node) :
  forall fuel cur rest p,
    os.resolve fuel r false cur rest = Ok p ->
    (forall t, os.get r p <> Some (os.Symlink t)) ->
    os.resolve fuel r true cur rest = Ok p.
Proof.
  induction fuel as [|fuel IHf]; intros cur rest; revert cur;
    (induction rest as [|c rest IHr]; intros cur p;
     [rewrite !resolve_nil; auto|]);
    rewrite !resolve_cons;
    (destruct (os.get r cur) as [[| |perm es]|]; try discriminate);
    (destruct (String.eqb c ".."); [apply IHr|]);
    (destruct (os.get r (cur ++ [c])%list) as [[|t|? ?]|] eqn:E; auto);
    destruct rest; auto; intros [= <-] Hn; now destruct (Hn t).
Qed.

(** The resolved path of a path string in a world whose tree was replaced. *)
Lemma namei_with_root (w : os.World) (r' : os.node) (follow : bool) (path : string)
  (p x : list string) :
  (forall q, q <> p -> shape_of (os.get r' q) = shape_of (os.get (os.root w) q)) ->
  shape_of (os.get r' p) = shape_of (os.get (os.root w) p)
  \/ (shape_of (os.get (os.root w) p) = SNone /\ harmless follow (shape_of (os.get r' p))) ->
  os.namei w follow path = Ok x ->
  os.namei (os.with_root w r') follow path = Ok x.
Proof.
  intros Ho Ha. unfold os.namei. cbn [os.root os.wd os.with_root].
  destruct (String.eqb path ""); [discriminate|].
  destruct (strings.HasPrefix path "/"); [now apply resolve_stable with p|].
  destruct (os.wd w); [now apply resolve_stable with p | discriminate].
Qed.

Lemma store_ok (w w' : os.World) (p : list string) (n : os.node) :
  os.store w p n = (w', None) ->
  exists r', os.put (os.root w) p n = Some r' /\ w' = os.with_root w r'.
Proof.
  unfold os.store. destruct (os.put (os.root w) p n) as [r'|]; [|discriminate].
  intros [= <-]. now exists r'.
Qed.

Lemma stat_at_err (w : os.World) (path : string) (p : list string) (e : error) :
  os.stat_at w path p = Err e -> os.get (os.root w) p = None.
Proof.
  unfold os.stat_at. destruct (os.get (os.root w) p); [discriminate | reflexivity].
Qed.

Lemma get_none_below (r : os.node) (p q : list string) :
  os.get r p = None -> os.get r (p ++ q)%list = None.
Proof. intros H. now rewrite get_app, H. Qed.

(** A new leaf stored where nothing was: every path that resolved before
    resolves to the same place, and the leaf is found at its path. *)
Lemma store_new (w w' : os.World) (p : list string) (n : os.node) :
  os.get (os.root w) p = None -> leaf n ->
  os.store w p n = (w', None) ->
  os.get (os.root w') p = Some n
  /\ forall follow path x, harmless follow (shape_of (Some n)) ->
       os.namei w follow path = Ok x -> os.namei w' follow path = Ok x.
Proof.
  intros Hnone Hl Hst. apply store_ok in Hst. destruct Hst as (r' & Hput & ->).
  split; [now apply put_get_eq with (os.root w)|].
  intros follow path x Hh. apply namei_with_root with p.
  - apply put_shape_other with n; auto. intros q' _. now apply get_none_below.
  - right. rewrite Hnone. split; [reflexivity|].
    now rewrite (put_get_eq _ _ _ _ Hput).
Qed.

(** A file stored over a file. *)
Lemma store_over_file (w w' : os.World) (p : list string) (perm perm' : Z) (old data : string) :
  os.get (os.root w) p = Some (os.File perm old) ->
  os.store w p (os.File perm' data) = (w', None) ->
  os.get (os.root w') p = Some (os.File perm' data)
  /\ forall follow path x,
       os.namei w follow path = Ok x -> os.namei w' follow path = Ok x.
Proof.
  intros Hold Hst. apply store_ok in Hst. destruct Hst as (r' & Hput & ->).
  split; [now apply put_get_eq with (os.root w)|].
  intros follow path x. apply namei_with_root with p.
  - apply put_shape_other with (os.File perm' data); simpl; auto.
    intros q' Hq'. rewrite get_app, Hold. now apply get_leaf.
  - left. now rewrite (put_get_eq _ _ _ _ Hput), Hold.
Qed.

Lemma stat_at_dir (w : os.World) (path path' : string) (p : list string) (fi : os.FileInfo) :
  os.stat_at w path p = Ok fi -> os.IsDir fi = true ->
  exists perm es, os.get (os.root w) p = Some (os.Dir perm es).
Proof.
  unfold os.stat_at. destruct (os.get (os.root w) p) as [[| |perm es]|].
  - intros [= <-]; discriminate.
  - intros [= <-]; discriminate.
  - eauto.
  - destruct (os.find_archive p (os.archives w)); [intros [= <-]|]; discriminate.
Qed.

(** [os.Mkdir] that succeeds leaves a directory at the path. *)
Lemma Mkdir_ok (w w' : os.World) (path : string) (perm : Z) :
  os.Mkdir w path perm = (w', None) ->
  exists fi, os.Stat w' path = Ok fi /\ os.IsDir fi = true.
Proof.
  unfold os.Mkdir. destruct (os.namei w false path) as [p|] eqn:En; [|discriminate].
  destruct (os.stat_at w path p) as [|e] eqn:Es; [discriminate|].
  apply stat_at_err in Es. intros Hst.
  destruct (store_new w w' p (os.Dir (os.masked w perm) []) Es I Hst) as [Hget Hn].
  assert (Ef : os.namei w true path = Ok p).
  { revert En. unfold os.namei. destruct (String.eqb path ""); [discriminate|].
    destruct (strings.HasPrefix path "/"); [|destruct (os.wd w); [|discriminate]];
      intros H; apply resolve_follow; auto; intros t; rewrite Es; discriminate. }
  apply (Hn true) in Ef; [|exact I].
  unfold os.Stat. rewrite Ef. simpl. unfold os.stat_at. rewrite Hget. simpl. eauto.
Qed.

Lemma Lstat_dir_Stat (w : os.World) (path : string) (fi : os.FileInfo) :
  os.Lstat w path = Ok fi -> os.IsDir fi = true ->
  exists fi', os.Stat w path = Ok fi' /\ os.IsDir fi' = true.
Proof.
  unfold os.Lstat, os.Stat. destruct (os.namei w false path) as [p|] eqn:En; [|discriminate].
  simpl. intros Hs Hd. destruct (stat_at_dir _ _ path _ _ Hs Hd) as (perm & es & Hg).
  assert (Ef : os.namei w true path = Ok p).
  { revert En. unfold os.namei. destruct (String.eqb path ""); [discriminate|].
    destruct (strings.HasPrefix path "/"); [|destruct (os.wd w); [|discriminate]];
      intros H; apply resolve_follow; auto; intros t; rewrite Hg; discriminate. }
  rewrite Ef. simpl. eauto.
Qed.

Lemma mkdirAll_eq (w : os.World) (abs : bool) (rev_elems : list string) (perm : Z) :
  os.mkdirAll w abs rev_elems perm
  = let path := os.render abs (rev rev_elems) in
    match os.Stat w path with
    | Ok dir => if os.IsDir dir then (w, None) else (w, Some ENOTDIR)
    | Err _ =>
        let '(w1, err) :=
          match rev_elems with
          | _ :: parent =>
              if abs || negb (Nat.eqb (List.length parent) 0)
              then os.mkdirAll w abs parent perm
              else (w, None)
          | [] => (w, None)
          end in
        match err with
        | Some e => (w1, Some e)
        | None =>
            let '(w2, err2) := os.Mkdir w1 path perm in
            match err2 with
            | None => (w2, None)
            | Some e =>
                match os.Lstat w2 path with
                | Ok dir => if os.IsDir dir then (w2, None) else (w2, Some e)
                | Err _ => (w2, Some e)
                end
            end
        end
    end.
Proof. destruct rev_elems; reflexivity. Qed.

(** [os.MkdirAll] that succeeds leaves a directory at the path. *)
Lemma mkdirAll_ok (w w' : os.World) (abs : bool) (rev_elems : list string) (perm : Z) :
  os.mkdirAll w abs rev_elems perm = (w', None) ->
  exists fi, os.Stat w' (os.render abs (rev rev_elems)) = Ok fi /\ os.IsDir fi = true.
Proof.
  rewrite mkdirAll_eq. cbv zeta.
  destruct (os.Stat w (os.render abs (rev rev_elems))) as [dir|] eqn:Es.
  - destruct (os.IsDir dir) eqn:Ed; intros [= <-]. eauto.
  - destruct (match rev_elems with _ :: _ => _ | [] => _ end) as [w1 [e1|]];
      [discriminate|].
    destruct (os.Mkdir w1 (os.render abs (rev rev_elems)) perm) as [w2 [e2|]] eqn:Em.
    + destruct (os.Lstat w2 _) as [dir|] eqn:El; [|discriminate].
      destruct (os.IsDir dir) eqn:Ed; intros [= <-]. now apply Lstat_dir_Stat with dir.
    + intros [= <-]. now apply Mkdir_ok with w1 perm.
Qed.

(** [extractFile] that succeeds leaves the content at the path. *)
Lemma extractFile_ok (w w' : os.World) (content path : string) (mode : Z) :
  part_000.extractFile w content path mode = (w', None) ->
  os.ReadFile w' path = Ok content.
Proof.
  unfold part_000.extractFile, os.OpenFile_create_trunc.
  destruct (os.namei w true path) as [p|] eqn:En; [|discriminate].
  assert (Hfin : forall w1 fperm,
             os.get (os.root w1) p = Some (os.File fperm "") ->
             os.namei w1 true path = Ok p ->
             match os.Write w1 {| os.fd_path := p; os.fd_closed := false |} content with
             | (w2, Some err) => (w2, Some err)
             | (w2, None) => (w2, None)
             end = (w', None) ->
             os.ReadFile w' path = Ok content).
  { intros w1 fperm Hg Hn. unfold os.Write. simpl. rewrite Hg.
    destruct (os.store w1 p (os.File fperm ("" ++ content))) as [w2 [e|]] eqn:Est;
      [discriminate|]. intros [= <-].
    destruct (store_over_file _ _ _ _ _ _ _ Hg Est) as [Hg2 Hn2].
    unfold os.ReadFile. rewrite (Hn2 _ _ _ Hn). simpl. now rewrite Hg2. }
  destruct (os.get (os.root w) p) as [[fperm old|t|perm es]|] eqn:Eg; try discriminate.
  - destruct (os.store w p (os.File fperm "")) as [w1 [e|]] eqn:Est; [discriminate|].
    destruct (store_over_file _ _ _ _ _ _ _ Eg Est) as [Hg1 Hn1].
    intros H. exact (Hfin w1 fperm Hg1 (Hn1 _ _ _ En) H).
  - destruct (os.store w p (os.File (os.masked w mode) "")) as [w1 [e|]] eqn:Est;
      [discriminate|].
    destruct (store_new w w1 p (os.File (os.masked w mode) "") Eg I Est) as [Hg1 Hn1].
    intros H. exact (Hfin w1 (os.masked w mode) Hg1 (Hn1 true path p I En) H).
Qed.

(** [os.Symlink] that succeeds leaves the link at the path. *)
Lemma Symlink_ok (w w' : os.World) (target path : string) :
  os.Symlink_ w target path = (w', None) ->
  exists p, os.namei w' false path = Ok p
            /\ os.get (os.root w') p = Some (os.Symlink target).
Proof.
  unfold os.Symlink_. destruct (String.eqb target ""); [discriminate|].
  destruct (os.namei w false path) as [p|] eqn:En; [|discriminate].
  destruct (os.stat_at w path p) as [|e] eqn:Es; [discriminate|].
  apply stat_at_err in Es. intros Hst.
  destruct (store_new w w' p (os.Symlink target) Es I Hst) as [Hget Hn].
  exists p. split; [|assumption]. apply Hn; [reflexivity | assumption].
Qed.

Lemma filter_nonempty_names (es : list string) :
  names es -> filter (fun c => negb (String.eqb c "")) es = es.
Proof.
  intros [Hp _]. induction Hp as [|c l Hc _ IH]; [reflexivity|].
  simpl. apply plain_cases in Hc. destruct Hc as (-> & _). simpl. now rewrite IH.
Qed.

Lemma MkdirAll_ok (w w' : os.World) (es : list string) (perm : Z) :
  names es ->
  os.MkdirAll w ("/" ++ strings.Join es) perm = (w', None) ->
  exists fi, os.Stat w' ("/" ++ strings.Join es) = Ok fi /\ os.IsDir fi = true.
Proof.
  intros Hn. unfold os.MkdirAll. intros H. apply mkdirAll_ok in H.
  rewrite rev_involutive in H.
  assert (E : filter (fun c => negb (String.eqb c ""))
                (strings.Split ("/" ++ strings.Join es)) = es).
  { destruct es as [|e es']; [reflexivity|].
    destruct Hn as [Hp Hs]. rewrite Split_rooted by (assumption || discriminate).
    apply (filter_nonempty_names (e :: es')). now split. }
  rewrite E in H. exact H.
Qed.


Lemma normal_split (targetPath : string) :
  normal targetPath -> filepath.Dir targetPath <> "/" ->
  exists ps b, ps <> [] /\ names (ps ++ [b])%list
               /\ targetPath = "/" ++ strings.Join (ps ++ [b])%list.
Proof.
  intros Hn Hd. destruct (normal_elems _ Hn) as (es & -> & Hes).
  destruct (rev es) as [|b rps] eqn:E.
  - apply (f_equal (@rev string)) in E. rewrite rev_involutive in E. subst es.
    now destruct Hd.
  - apply (f_equal (@rev string)) in E. rewrite rev_involutive in E. simpl in E. subst es.
    exists (rev rps), b. split; [|split; auto].
    intros Hnil. rewrite Hnil in Hd, Hes. apply Hd.
    rewrite (Dir_rooted [] b) by assumption. reflexivity.
Qed.

(** C4, amended. The boundary of the check is the parent directory of the
    normalized location path. When that parent is not the root, a header
    name without ".." whose first element differs from the base name of the
    location passes the check; the path it is extracted to lies in the
    parent directory and outside the location; and when the operations of
    the file system succeed, the entry is there afterwards: the file with
    its content, the directory, or the link with its target. *)
Theorem extractArchive_sibling
  (w : os.World) (targetPath : string) (e : tar.entry) (c : string) :
  normal targetPath ->
  filepath.Dir targetPath <> "/" ->
  Forall (fun x => String.eqb x ".." = false) (strings.Split (tar.Name (tar.hdr e))) ->
  hd_error (filter filepath.plain (strings.Split (tar.Name (tar.hdr e)))) = Some c ->
  c <> filepath.Base targetPath ->
  let parentDir := filepath.Dir targetPath in
  let extractPath := filepath.Join [parentDir; tar.Name (tar.hdr e)] in
  part_000.illegal_path parentDir (tar.Name (tar.hdr e)) = false
  /\ inside parentDir extractPath
  /\ ~ inside targetPath extractPath
  /\ forall w',
       part_000.extract_loop w parentDir [e] None = (w', None) ->
       match tar.Typeflag (tar.hdr e) with
       | tar.TypeReg => os.ReadFile w' extractPath = Ok (tar.payload e)
       | tar.TypeDir => exists fi, os.Stat w' extractPath = Ok fi /\ os.IsDir fi = true
       | tar.TypeSymlink =>
           exists p, os.namei w' false extractPath = Ok p
                     /\ os.get (os.root w') p = Some (os.Symlink (tar.Linkname (tar.hdr e)))
       | tar.TypeOther _ => w' = w
       end.
Proof.
  intros Hn Hd Hdd Hc Hne parentDir extractPath.
  destruct (normal_split _ Hn Hd) as (ps & b & Hps & Hnames & ->).
  assert (Hp : names ps /\ names [b]) by now apply names_app.
  destruct Hp as [Hp Hb].
  rewrite Base_rooted in Hne by assumption.
  assert (Ep : parentDir = "/" ++ strings.Join ps) by now apply Dir_rooted.
  set (ns := filter filepath.plain (strings.Split (tar.Name (tar.hdr e)))) in *.
  assert (Ex : extractPath = "/" ++ strings.Join (ps ++ ns)%list).
  { unfold extractPath. rewrite Ep. now apply Join_parent. }
  assert (Hns : names ns).
  { split.
    - unfold ns. apply Forall_forall. intros x Hx. now apply filter_In in Hx.
    - unfold ns. apply Forall_forall. intros x Hx. apply filter_In in Hx.
      destruct Hx as [Hx _]. revert x Hx. apply Forall_forall, Split_all_noslash. }
  assert (Hall : names (ps ++ ns)%list) by now apply names_app.
  assert (Hnn : ns <> []) by (intros E; rewrite E in Hc; discriminate).
  split; [|split; [|split]].
  - unfold part_000.illegal_path. fold parentDir. fold extractPath.
    rewrite Ex, Ep.
    destruct (names_normal _ Hall) as [_ ->]. destruct (names_normal _ Hp) as [_ ->].
    replace (strings.HasPrefix _ _) with true; [reflexivity|].
    symmetry. apply HasPrefix_app. exists (strings.Join ns).
    rewrite Join_app by assumption. unfold filepath.Separator. simpl.
    now rewrite append_assoc.
  - rewrite Ex, Ep. exists ns. now rewrite !elems_rooted.
  - rewrite Ex. intros [rest Hr]. rewrite !elems_rooted in Hr by assumption.
    rewrite <- app_assoc in Hr. apply app_inv_head in Hr.
    rewrite Hr in Hc. simpl in Hc. congruence.
  - intros w'. simpl part_000.extract_loop.
    destruct (part_000.illegal_path parentDir (tar.Name (tar.hdr e))); [discriminate|].
    unfold part_000.extractEntry. fold extractPath.
    destruct (tar.Typeflag (tar.hdr e)).
    + destruct (os.MkdirAll w (filepath.Dir extractPath) 493) as [w1 [err|]]; [discriminate|].
      destruct (part_000.extractFile w1 _ _ _) as [w2 [err|]] eqn:Ef; [discriminate|].
      intros [= <-]. now apply extractFile_ok in Ef.
    + destruct (os.MkdirAll w extractPath _) as [w1 [err|]] eqn:Em; [discriminate|].
      intros [= <-]. rewrite Ex in *. now apply MkdirAll_ok in Em.
    + destruct (os.MkdirAll w (filepath.Dir extractPath) 493) as [w1 [err|]]; [discriminate|].
      destruct (os.Symlink_ w1 _ _) as [w2 [err|]] eqn:Es; [discriminate|].
      intros [= <-]. now apply Symlink_ok in Es.
    + now intros [= <-].
Qed.

(** *** Directory trees and the entries a scan keeps *)

(** Induction over a tree: a directory's property may use that of the
    nodes it lists. *)
Lemma node_induction (P : os.node -> Prop) :
  (forall perm data, P (os.File perm data)) ->
  (forall t, P (os.Symlink t)) ->
  (forall perm es, Forall (fun e => P (snd e)) es -> P (os.Dir perm es)) ->
  forall n, P n.
Proof.
  intros HF HS HD. fix IH 1. intros [perm data|t|perm es].
  - apply HF.
  - apply HS.
  - apply HD. induction es as [|[c m] es IHes]; constructor; [apply IH | exact IHes].
Qed.

Lemma wf_Dir (perm : Z) (es : list (string * os.node)) :
  wf (os.Dir perm es)
  <-> Forall (fun e => (filepath.plain (fst e) = true /\ noslash (fst e) = true)
                       /\ wf (snd e)) es.
Proof.
  simpl. induction es as [|[c m] es IH].
  - split; constructor.
  - split.
    + intros (Hc & Hm & Hes). constructor; [now split | now apply IH].
    + intros H. inversion H as [|? ? [Hc Hm] Hes]; subst. simpl in *.
      split; [assumption | split; [assumption | now apply IH]].
Qed.

Lemma ignored_In (ignore : list string) (c : string) :
  ignored ignore c = true <-> In c ignore.
Proof.
  unfold ignored. rewrite existsb_exists. split.
  - intros (x & Hx & E). apply String.eqb_eq in E. now subst.
  - intros H. exists c. split; [assumption | apply String.eqb_refl].
Qed.

Lemma kept_spec (ignore : list string) (n : os.node) :
  forall cs x m,
    In (x, m) (kept ignore cs n)
    <-> exists rel, rel <> [] /\ x = (cs ++ rel)%list /\ reach n rel m
                    /\ Forall (fun c => ~ In c ignore) rel.
Proof.
  induction n as [perm data|t|perm es IH] using node_induction; intros cs x m.
  - simpl. split; [contradiction|]. intros (rel & Hne & _ & Hr & _).
    inversion Hr; subst; congruence.
  - simpl. split; [contradiction|]. intros (rel & Hne & _ & Hr & _).
    inversion Hr; subst; congruence.
  - simpl. rewrite in_flat_map. split.
    + intros ([c k] & Hin & Hx). simpl in Hx.
      destruct (ignored ignore c) eqn:Ei; [contradiction|].
      assert (Hc : ~ In c ignore) by (rewrite <- ignored_In, Ei; discriminate).
      destruct Hx as [Hx | Hx].
      * injection Hx as <- <-. exists [c]. repeat split; try discriminate; auto.
        -- econstructor; [eassumption | constructor].
      * rewrite Forall_forall in IH. apply (IH _ Hin) in Hx.
        destruct Hx as (rel & Hne & -> & Hr & Hf).
        exists (c :: rel). repeat split; try discriminate.
        -- now rewrite <- app_assoc.
        -- econstructor; eassumption.
        -- now constructor.
    + intros (rel & Hne & -> & Hr & Hf).
      inversion Hr as [|? ? c k ? rel' Hin Hr']; subst; [congruence|].
      exists (c, k). split; [assumption|]. simpl.
      inversion Hf as [|? ? Hc Hf']; subst.
      destruct (ignored ignore c) eqn:Ei; [now apply ignored_In in Ei|].
      destruct rel' as [|c' rel''].
      * inversion Hr'; subst. now left.
      * right. rewrite Forall_forall in IH. apply (IH _ Hin).
        exists (c' :: rel''). repeat split; try discriminate; auto.
        now rewrite <- app_assoc.
Qed.

Lemma reach_names (n : os.node) (rel : list string) (m : os.node) :
  wf n -> reach n rel m -> names rel /\ wf m.
Proof.
  intros Hwf Hr. induction Hr as [n|perm es c m m' rel Hin Hr IH].
  - split; [split; constructor | assumption].
  - apply wf_Dir in Hwf. rewrite Forall_forall in Hwf.
    destruct (Hwf _ Hin) as [[Hp Hs] Hm]. simpl in *.
    destruct (IH Hm) as [[Hp' Hs'] Hm']. split; [|assumption].
    split; constructor; assumption.
Qed.

(** *** Paths below a root in normal form *)

Lemma Join_name (ps : list string) (c : string) :
  names ps -> names [c] ->
  filepath.Join ["/" ++ strings.Join ps; c] = "/" ++ strings.Join (ps ++ [c])%list.
Proof.
  intros Hps [Hp Hs]. inversion Hp; inversion Hs; subst.
  rewrite Join_parent; auto.
  - rewrite Split_noslash by assumption. simpl. now replace (filepath.plain c) with true.
  - rewrite Split_noslash by assumption. constructor; [|constructor].
    now apply plain_cases.
Qed.

Lemma path_of_cons (root c : string) (rel : list string) :
  path_of root (c :: rel) = path_of (filepath.Join [root; c]) rel.
Proof. reflexivity. Qed.

Lemma path_of_names (ps rel : list string) :
  names ps -> names rel ->
  path_of ("/" ++ strings.Join ps) rel = "/" ++ strings.Join (ps ++ rel)%list.
Proof.
  revert ps. induction rel as [|c rel IH]; intros ps Hps Hrel.
  - now rewrite app_nil_r.
  - change (c :: rel) with ([c] ++ rel)%list in Hrel. apply names_app in Hrel.
    destruct Hrel as [Hc Hrel]. rewrite path_of_cons.
    rewrite Join_name by assumption. rewrite IH; [|now apply names_app|assumption].
    now rewrite <- app_assoc.
Qed.

Lemma Join_names_inj (xs ys : list string) :
  names xs -> names ys -> strings.Join xs = strings.Join ys -> xs = ys.
Proof.
  intros [Hpx Hx] [Hpy Hy] E.
  destruct xs as [|x xs'], ys as [|y ys']; auto.
  - exfalso. apply (f_equal strings.Split) in E.
    rewrite (Split_Join (y :: ys')) in E by (assumption || discriminate). simpl in E.
    injection E as <- _. inversion Hpy; subst. discriminate.
  - exfalso. apply (f_equal strings.Split) in E.
    rewrite (Split_Join (x :: xs')) in E by (assumption || discriminate). simpl in E.
    injection E as -> _. inversion Hpx; subst. discriminate.
  - apply (f_equal strings.Split) in E.
    now rewrite !Split_Join in E by (assumption || discriminate).
Qed.

Lemma path_of_inj (root : string) (rel rel' : list string) :
  normal root -> names rel -> names rel' ->
  path_of root rel = path_of root rel' -> rel = rel'.
Proof.
  intros Hn Hr Hr' E. destruct (normal_elems _ Hn) as (ps & -> & Hps).
  rewrite !path_of_names in E by assumption. injection E as E.
  apply Join_names_inj in E; [|now apply names_app..]. now apply app_inv_head in E.
Qed.

Lemma path_of_Base (root : string) (rel : list string) (c : string) :
  normal root -> names (rel ++ [c])%list ->
  filepath.Base (path_of root (rel ++ [c])%list) = c.
Proof.
  intros Hn Hr. destruct (normal_elems _ Hn) as (ps & -> & Hps).
  rewrite path_of_names by assumption. rewrite app_assoc. apply Base_rooted.
  rewrite <- app_assoc. now apply names_app.
Qed.

Lemma path_of_not_root (root : string) (rel : list string) :
  normal root -> names rel -> rel <> [] -> String.eqb (path_of root rel) root = false.
Proof.
  intros Hn Hr Hne. apply String.eqb_neq. intros E.
  apply Hne. apply (path_of_inj root rel []); auto. split; constructor.
Qed.

Lemma walkDir_eq {S : Type} (w : os.World) (fn : filepath.WalkDirFunc S)
  (path name : string) (n : os.node) (s : S) :
  filepath.walkDir w fn path name n s
  = let d := filepath.entry_of w name n in
    let '(s1, err) := fn path (Some d) None s in
    match err with
    | Some SkipDir => (s1, if filepath.IsDir d then None else Some SkipDir)
    | Some e => (s1, Some e)
    | None =>
        match n with
        | os.Dir _ es => walk_each w fn path es s1
        | _ => (s1, None)
        end
    end.
Proof.
  destruct n as [| |perm es]; try reflexivity.
  simpl. destruct (fn path _ None s) as [s1 [e|]]; [reflexivity|].
  generalize s1. clear. induction es as [|[c m] es IH]; intros s1; [reflexivity|].
  simpl. destruct (filepath.walkDir w fn _ c m s1) as [s' [e|]]; [reflexivity|]. apply IH.
Qed.

Section Collector.

Variable S : Type.
Variable w : os.World.
Variable fn : filepath.WalkDirFunc S.
Variable root : string.
Variable ignore : list string.
Variable add : S -> string -> filepath.DirEntry -> S.
Variable inv : S -> Prop.

Hypothesis Hroot : normal root.
Hypothesis Hfn : forall s path name n,
  inv s ->
  fn path (Some (filepath.entry_of w name n)) None s
  = if String.eqb path root then (s, None)
    else if ignored ignore name
         then (s, if filepath.IsDir (filepath.entry_of w name n) then Some SkipDir else None)
         else (add s path (filepath.entry_of w name n), None).
Hypothesis Hadd : forall s p d, inv s -> inv (add s p d).

Local Abbreviation coll := (collect S w root add).

Lemma collect_inv (l : list (list string * os.node)) (s : S) : inv s -> inv (coll s l).
Proof.
  revert s. induction l as [|x l IH]; intros s Hs; [assumption|].
  simpl. apply IH. now apply Hadd.
Qed.

Lemma collect_app (l1 l2 : list (list string * os.node)) (s : S) :
  coll s (l1 ++ l2)%list = coll (coll s l1) l2.
Proof. unfold collect. now rewrite fold_left_app. Qed.

Lemma collect_entry (cs : list string) (c : string) (m : os.node)
  (l : list (list string * os.node)) (s : S) :
  coll s (((cs ++ [c])%list, m) :: l)
  = coll (add s (path_of root (cs ++ [c])%list) (filepath.entry_of w c m)) l.
Proof. unfold collect. cbn [fold_left fst snd]. now rewrite last_last. Qed.

Lemma path_of_snoc (cs : list string) (c : string) :
  filepath.Join [path_of root cs; c] = path_of root (cs ++ [c])%list.
Proof. unfold path_of. now rewrite fold_left_app. Qed.

(** What the walk of one entry does to the state. *)
Definition entry_result (cs : list string) (c : string) (n : os.node) (s : S)
  : S * option error :=
  if ignored ignore c then (s, None)
  else (coll (add s (path_of root (cs ++ [c])%list) (filepath.entry_of w c n))
          (kept ignore (cs ++ [c])%list n), None).

Lemma walk_each_collect (cs : list string) (es : list (string * os.node)) :
  names cs ->
  Forall (fun e => (filepath.plain (fst e) = true /\ noslash (fst e) = true)
                   /\ wf (snd e)) es ->
  Forall (fun e => forall cs c s, names (cs ++ [c])%list -> wf (snd e) -> inv s ->
            filepath.walkDir w fn (path_of root (cs ++ [c])%list) c (snd e) s
            = entry_result cs c (snd e) s) es ->
  forall s, inv s ->
    walk_each w fn (path_of root cs) es s
    = (coll s (flat_map (fun e =>
                   if ignored ignore (fst e) then []
                   else ((cs ++ [fst e])%list, snd e)
                        :: kept ignore (cs ++ [fst e])%list (snd e)) es), None).
Proof.
  intros Hcs Hwf HIH. induction es as [|[c m] es IH]; intros s Hs; [reflexivity|].
  inversion Hwf as [|? ? [Hc Hm] Hwf']; subst. inversion HIH as [|? ? Hm' HIH']; subst.
  simpl in *. rewrite path_of_snoc.
  assert (Hn : names (cs ++ [c])%list).
  { apply names_app. split; [assumption|]. destruct Hc. split; now constructor. }
  rewrite Hm' by assumption. unfold entry_result.
  destruct (ignored ignore c).
  - now apply IH.
  - rewrite IH; auto.
    + rewrite collect_app. now rewrite collect_entry.
    + apply collect_inv. now apply Hadd.
Qed.

Lemma walkDir_entry (n : os.node) :
  forall cs c s, names (cs ++ [c])%list -> wf n -> inv s ->
    filepath.walkDir w fn (path_of root (cs ++ [c])%list) c n s = entry_result cs c n s.
Proof.
  induction n as [perm data|t|perm es IH] using node_induction;
    intros cs c s Hn Hwf Hs; rewrite walkDir_eq; cbv zeta; rewrite Hfn by assumption;
    (rewrite path_of_not_root;
     [|assumption|assumption|now destruct cs]);
    unfold entry_result; destruct (ignored ignore c); try reflexivity.
  rewrite walk_each_collect; auto.
  exact (proj1 (wf_Dir perm es) Hwf).
Qed.

(** The walk from the root: the root itself is passed over, and the kept
    entries below it are added in order. *)
Lemma WalkDir_collect (p : list string) (n : os.node) (s : S) :
  os.namei w false root = Ok p -> os.get (os.root w) p = Some n -> wf n -> inv s ->
  filepath.WalkDir w root fn s = (coll s (kept ignore [] n), None).
Proof.
  intros Hp Hg Hwf Hs. unfold filepath.WalkDir, os.Lstat. rewrite Hp. simpl bind.
  unfold os.stat_at. rewrite Hg. rewrite walkDir_eq. cbv zeta.
  rewrite Hfn by assumption. rewrite String.eqb_refl.
  destruct n as [perm data|t|perm es]; try reflexivity.
  change root with (path_of root []) at 1.
  rewrite walk_each_collect; auto;
    [ split; constructor
    | exact (proj1 (wf_Dir perm es) Hwf)
    | apply Forall_forall; intros e _; apply walkDir_entry ].
Qed.

End Collector.

Lemma kept_index_spec (root : string) (ignore : list string) (n : os.node) :
  normal root -> wf n ->
  index_spec root ignore n (map (fun x => path_of root (fst x)) (kept ignore [] n)).
Proof.
  intros Hroot Hwf. split; [reflexivity|]. split.
  - intros rel m Hne Hr. rewrite in_map_iff. split.
    + intros ([x m'] & E & Hin). simpl in E. apply kept_spec in Hin.
      destruct Hin as (rel' & _ & -> & Hr' & Hf). simpl in E.
      apply path_of_inj in E; auto.
      * now subst.
      * now apply (reach_names n rel' m').
      * now apply (reach_names n rel m).
    + intros Hf. exists (rel, m). split; [reflexivity|].
      apply kept_spec. exists rel. auto.
  - intros q Hq. apply in_map_iff in Hq. destruct Hq as ([x m] & <- & Hin).
    apply kept_spec in Hin. destruct Hin as (rel & Hne & -> & Hr & Hf). simpl.
    destruct (exists_last Hne) as (rel' & c & ->).
    rewrite path_of_Base; auto.
    + apply Forall_app in Hf. destruct Hf as [_ Hc]. now inversion Hc.
    + now apply (reach_names n _ m).
Qed.

(** **** part_003 *)

Lemma part_003_collect_index (w : os.World) (root : string)
  (l : list (list string * os.node)) (s : part_003.Location) :
  part_003.index
    (collect part_003.Location w root
       (fun s path _ => part_003.set_index s (part_003.index s ++ [path])%list) s l)
  = (part_003.index s ++ map (fun x => path_of root (fst x)) l)%list
  /\ part_003.Path (collect part_003.Location w root
       (fun s path _ => part_003.set_index s (part_003.index s ++ [path])%list) s l)
     = part_003.Path s.
Proof.
  revert s. induction l as [|x l IH]; intros s.
  - simpl. now rewrite app_nil_r.
  - unfold collect in *. cbn [fold_left map]. destruct (IH (part_003.set_index s
      (part_003.index s ++ [path_of root (fst x)])%list)) as [-> ->].
    simpl. now rewrite <- app_assoc.
Qed.

Lemma part_003_scan_collect (w : os.World) (l : part_003.Location)
  (p : list string) (n : os.node) :
  normal (part_003.Path l) ->
  os.namei w false (part_003.Path l) = Ok p -> os.get (os.root w) p = Some n -> wf n ->
  exists l', part_003.scan w l = (l', None)
             /\ part_003.Path l' = part_003.Path l
             /\ part_003.index l'
                = map (fun x => path_of (part_003.Path l) (fst x))
                      (kept (part_003.Ignore l) [] n).
Proof.
  intros Hn Hp Hg Hwf. unfold part_003.scan. cbv zeta.
  change (part_003.Path (part_003.set_index l [])) with (part_003.Path l).
  set (add := fun (s : part_003.Location) (path : string) (_ : filepath.DirEntry) =>
                part_003.set_index s (part_003.index s ++ [path])%list).
  set (inv := fun s => part_003.Path s = part_003.Path l
                       /\ part_003.Ignore s = part_003.Ignore l).
  assert (Hfn : forall s path name m, inv s ->
            part_003.scan_fn path (Some (filepath.entry_of w name m)) None s
            = if String.eqb path (part_003.Path l) then (s, None)
              else if ignored (part_003.Ignore l) name
                   then (s, if filepath.IsDir (filepath.entry_of w name m)
                            then Some SkipDir else None)
                   else (add s path (filepath.entry_of w name m), None)).
  { intros s path name m [HP HI]. unfold part_003.scan_fn. rewrite HP, HI.
    destruct (String.eqb path _); [reflexivity|]. unfold ignored.
    cbn [filepath.Name filepath.entry_of filepath.IsDir filepath.Info].
    destruct (existsb _ _); [destruct m; reflexivity|]. destruct m; reflexivity. }
  assert (Hadd : forall s q d, inv s -> inv (add s q d)).
  { intros s q d [HP HI]. split; assumption. }
  rewrite (WalkDir_collect _ w _ _ _ add inv Hn Hfn Hadd p n) by (auto; now split).
  eexists. split; [reflexivity|]. subst add.
  destruct (part_003_collect_index w (part_003.Path l) (kept (part_003.Ignore l) [] n)
              (part_003.set_index l [])) as [-> ->]. auto.
Qed.

(** **** part_000 *)

Lemma part_000_collect (w : os.World) (root : string)
  (l : list (list string * os.node)) (s : part_000.Location) :
  let s' := collect part_000.Location w root part_000_add s l in
  part_000.index s' = (part_000.index s ++ map (fun x => path_of root (fst x)) l)%list
  /\ part_000.totalSize s' = (part_000.totalSize s + sum (map (entry_size w) l))%Z
  /\ part_000.Path s' = part_000.Path s.
Proof.
  revert s. induction l as [|[x m] l IH]; intros s.
  - simpl. rewrite app_nil_r. repeat split. unfold sum. simpl. lia.
  - unfold collect in *. cbv zeta in IH |- *. cbn [fold_left map fst snd].
    destruct (IH (part_000_add s (path_of root x) (filepath.entry_of w (last x "") m)))
      as (-> & -> & ->).
    unfold part_000_add, entry_size, sum. destruct m; simpl; rewrite <- app_assoc;
      repeat split; simpl; lia.
Qed.

Lemma part_000_scan_collect (w : os.World) (l : part_000.Location)
  (p : list string) (n : os.node) :
  normal (part_000.Path l) ->
  os.namei w false (part_000.Path l) = Ok p -> os.get (os.root w) p = Some n -> wf n ->
  exists l', part_000.scan w l = (l', None)
             /\ part_000.Path l' = part_000.Path l
             /\ part_000.index l'
                = map (fun x => path_of (part_000.Path l) (fst x))
                      (kept (part_000.Ignore l) [] n)
             /\ part_000.totalSize l'
                = sum (map (entry_size w) (kept (part_000.Ignore l) [] n)).
Proof.
  intros Hn Hp Hg Hwf. unfold part_000.scan. cbv zeta.
  change (part_000.Path (part_000.with_scan l [] 0)) with (part_000.Path l).
  set (inv := fun s => part_000.Path s = part_000.Path l
                       /\ part_000.Ignore s = part_000.Ignore l).
  assert (Hfn : forall s path name m, inv s ->
            part_000.scan_fn path (Some (filepath.entry_of w name m)) None s
            = if String.eqb path (part_000.Path l) then (s, None)
              else if ignored (part_000.Ignore l) name
                   then (s, if filepath.IsDir (filepath.entry_of w name m)
                            then Some SkipDir else None)
                   else (part_000_add s path (filepath.entry_of w name m), None)).
  { intros s path name m [HP HI]. unfold part_000.scan_fn, part_000_add. rewrite HP, HI.
    destruct (String.eqb path _); [reflexivity|]. unfold ignored.
    cbn [filepath.Name filepath.entry_of filepath.IsDir filepath.Info].
    destruct (existsb _ _); [destruct m; reflexivity|]. destruct m; reflexivity. }
  assert (Hadd : forall s q d, inv s -> inv (part_000_add s q d)).
  { intros s q d [HP HI]. unfold part_000_add.
    destruct (negb (filepath.IsDir d)); [destruct (filepath.Info d)|]; split; assumption. }
  rewrite (WalkDir_collect _ w _ _ _ part_000_add inv Hn Hfn Hadd p n) by (auto; now split).
  eexists. split; [reflexivity|].
  destruct (part_000_collect w (part_000.Path l) (kept (part_000.Ignore l) [] n)
              (part_000.with_scan l [] 0)) as (-> & -> & ->). auto.
Qed.

(** **** data.go *)

Lemma data_go_collect (w : os.World) (root : string)
  (l : list (list string * os.node)) (s : data_go.Location) :
  let s' := collect data_go.Location w root data_go_add s l in
  map data_go.Path_ (data_go.index s')
  = (map data_go.Path_ (data_go.index s) ++ map (fun x => path_of root (fst x)) l)%list
  /\ data_go.size s' = (data_go.size s + sum (map (lstat_size w) l))%Z
  /\ data_go.Path s' = data_go.Path s.
Proof.
  revert s. induction l as [|[x m] l IH]; intros s.
  - simpl. rewrite app_nil_r. repeat split. unfold sum. simpl. lia.
  - unfold collect in *. cbv zeta in IH |- *. cbn [fold_left map fst snd].
    destruct (IH (data_go_add s (path_of root x) (filepath.entry_of w (last x "") m)))
      as (-> & -> & ->).
    unfold data_go_add, lstat_size, sum. simpl. rewrite map_app, <- app_assoc.
    repeat split; simpl; lia.
Qed.

Lemma data_go_scan_collect (w : os.World) (l : data_go.Location)
  (p : list string) (n : os.node) :
  normal (data_go.Path l) ->
  os.namei w false (data_go.Path l) = Ok p -> os.get (os.root w) p = Some n -> wf n ->
  exists l', data_go.scan w l = (l', None)
             /\ data_go.Path l' = data_go.Path l
             /\ map data_go.Path_ (data_go.index l')
                = map (fun x => path_of (data_go.Path l) (fst x))
                      (kept (data_go.Ignore l) [] n)
             /\ data_go.size l'
                = (data_go.size l + sum (map (lstat_size w) (kept (data_go.Ignore l) [] n)))%Z.
Proof.
  intros Hn Hp Hg Hwf. unfold data_go.scan. cbv zeta.
  change (data_go.Path (data_go.with_scan l (data_go.size l) [])) with (data_go.Path l).
  set (inv := fun s => data_go.Path s = data_go.Path l
                       /\ data_go.Ignore s = data_go.Ignore l).
  assert (Hfn : forall s path name m, inv s ->
            data_go.scan_fn path (Some (filepath.entry_of w name m)) None s
            = if String.eqb path (data_go.Path l) then (s, None)
              else if ignored (data_go.Ignore l) name
                   then (s, if filepath.IsDir (filepath.entry_of w name m)
                            then Some SkipDir else None)
                   else (data_go_add s path (filepath.entry_of w name m), None)).
  { intros s path name m [HP HI]. unfold data_go.scan_fn, data_go_add. rewrite HP, HI.
    destruct (String.eqb path _); [reflexivity|]. unfold ignored.
    cbn [filepath.Name filepath.entry_of filepath.IsDir filepath.Info].
    replace (os.Name (os.info_of w name m)) with name by now destruct m.
    destruct (existsb _ _); [destruct m; reflexivity|]. reflexivity. }
  assert (Hadd : forall s q d, inv s -> inv (data_go_add s q d)).
  { intros s q d [HP HI]. unfold data_go_add. destruct (filepath.Info d); split; assumption. }
  rewrite (WalkDir_collect _ w _ _ _ data_go_add inv Hn Hfn Hadd p n) by (auto; now split).
  eexists. split; [reflexivity|].
  destruct (data_go_collect w (data_go.Path l) (kept (data_go.Ignore l) [] n)
              (data_go.with_scan l (data_go.size l) [])) as (-> & -> & ->). auto.
Qed.


(** C6. A scan of the directory [n] at the normalized path [root] returns
    without error, in data.go as in part_003. An entry below the root is in
    the index exactly when neither its own name nor the name of a directory
    above it is an ignore pattern: an ignored directory takes all below it
    out of the index, an ignored file only itself, and no path of the index
    has an ignored base name. *)
Theorem scan_prunes_ignored (w : os.World) (root : string) (ignore : list string)
  (p : list string) (n : os.node) :
  normal root ->
  os.namei w false root = Ok p -> os.get (os.root w) p = Some n -> wf n ->
  (forall idx, exists l',
      part_003.scan w {| part_003.Path := root; part_003.Ignore := ignore;
                         part_003.index := idx |} = (l', None)
      /\ index_spec root ignore n (part_003.index l'))
  /\ (forall sz idx, exists l',
      data_go.scan w {| data_go.Path := root; data_go.Ignore := ignore;
                        data_go.size := sz; data_go.index := idx |} = (l', None)
      /\ index_spec root ignore n (map data_go.Path_ (data_go.index l')))
  /\ (forall idx sz, exists l',
      part_000.scan w {| part_000.Path := root; part_000.Ignore := ignore;
                         part_000.index := idx; part_000.totalSize := sz |} = (l', None)
      /\ index_spec root ignore n (part_000.index l')).
Proof.
  intros Hn Hp Hg Hwf. split; [|split].
  - intros idx.
    destruct (part_003_scan_collect w {| part_003.Path := root; part_003.Ignore := ignore;
                part_003.index := idx |} p n Hn Hp Hg Hwf) as (l' & Hs & _ & Hi).
    exists l'. split; [assumption|]. rewrite Hi. now apply kept_index_spec.
  - intros sz idx.
    destruct (data_go_scan_collect w {| data_go.Path := root; data_go.Ignore := ignore;
                data_go.size := sz; data_go.index := idx |} p n Hn Hp Hg Hwf)
      as (l' & Hs & _ & Hi & _).
    exists l'. split; [assumption|]. rewrite Hi. now apply kept_index_spec.
  - intros idx sz.
    destruct (part_000_scan_collect w {| part_000.Path := root; part_000.Ignore := ignore;
                part_000.index := idx; part_000.totalSize := sz |} p n Hn Hp Hg Hwf)
      as (l' & Hs & _ & Hi & _).
    exists l'. split; [assumption|]. rewrite Hi. now apply kept_index_spec.
Qed.

(** *** Closing an archive writer *)

(** An error among those [errors.Join] was given is one of the errors the
    result wraps. *)
Lemma Join_surfaces (errs : list (option error)) (e : error) :
  In (Some e) errs -> exists es, errors.Join errs = Some (joinError es) /\ In e es.
Proof.
  intros Hin. unfold errors.Join.
  assert (H : In e (flat_map (fun e => match e with Some x => [x] | None => [] end) errs)).
  { apply in_flat_map. exists (Some e). split; [assumption | now left]. }
  destruct (flat_map _ errs) as [|x xs]; [contradiction|]. now exists (x :: xs).
Qed.

Lemma closes_archive_tar_Close tw z f w :
  let '(_, _, w', e) := archive_tar.Close tw z f w in
  os.closes w' = (os.closes w ++ [(os.TarLayer, e)])%list.
Proof.
  unfold archive_tar.Close.
  destruct (archive_tar.err tw) as [[]|]; try reflexivity.
  destruct (archive_tar.Flush tw); [reflexivity|].
  unfold pgzip.Write. destruct (pgzip.err z); [reflexivity|].
  destruct (pgzip.closed z); [reflexivity|].
  unfold os.WriteArchive. destruct (os.fd_closed f); [reflexivity|].
  destruct (os.find_archive _ _); reflexivity.
Qed.

Lemma closes_pgzip_Close z f w :
  let '(_, w', e) := pgzip.Close z f w in
  os.closes w' = (os.closes w ++ [(os.GzipLayer, e)])%list.
Proof.
  unfold pgzip.Close. destruct (pgzip.err z); [reflexivity|].
  destruct (pgzip.closed z); [reflexivity|].
  unfold os.WriteArchive. destruct (os.fd_closed f); [reflexivity|].
  destruct (os.find_archive _ _); reflexivity.
Qed.

Lemma closes_os_Close f w :
  let '(_, w', e) := os.Close f w in
  os.closes w' = (os.closes w ++ [(os.FileLayer, e)])%list.
Proof. unfold os.Close. destruct (os.fd_closed f); reflexivity. Qed.

(** X1. [Close] of part_003 closes the tar layer, then the gzip layer, then
    the file, and returns [errors.Join] of what the three returned: every
    layer that failed to close has its error among those the result
    wraps. *)
Theorem Close_joins_every_layer (aw : part_003.ArchiveWriter) (w : os.World) :
  exists aw' w' e1 e2 e3,
    part_003.Close aw w = (aw', w', errors.Join [e1; e2; e3])
    /\ os.closes w' = (os.closes w
                       ++ [(os.TarLayer, e1); (os.GzipLayer, e2); (os.FileLayer, e3)])%list
    /\ forall e, In (Some e) [e1; e2; e3] ->
         exists es, errors.Join [e1; e2; e3] = Some (joinError es) /\ In e es.
Proof.
  unfold part_003.Close.
  pose proof (closes_archive_tar_Close (part_003.tar_ aw) (part_003.gzip aw)
                (part_003.file aw) w) as H1.
  destruct (archive_tar.Close _ _ _ w) as [[[t1 z1] w1] e1].
  pose proof (closes_pgzip_Close z1 (part_003.file aw) w1) as H2.
  destruct (pgzip.Close z1 _ w1) as [[z2 w2] e2].
  pose proof (closes_os_Close (part_003.file aw) w2) as H3.
  destruct (os.Close _ w2) as [[f3 w3] e3].
  eexists _, w3, e1, e2, e3. split; [reflexivity|]. split.
  - rewrite H3, H2, H1. now rewrite <- !app_assoc.
  - intros e. apply Join_surfaces.
Qed.

(** *** Opening an archive writer *)

Lemma find_set_archive (p : list string) (a : tar.archive)
  (l : list (list string * tar.archive)) :
  os.find_archive p (os.set_archive p a l) = Some a.
Proof.
  induction l as [|[k b] l IH]; simpl.
  - now destruct (list_eq_dec string_dec p p).
  - destruct (list_eq_dec string_dec k p) as [->|Hne]; simpl.
    + now destruct (list_eq_dec string_dec p p).
    + now destruct (list_eq_dec string_dec k p).
Qed.

Lemma Create_truncates (w : os.World) (path : string) (p : list string) :
  os.namei w true path = Ok p ->
  (forall perm es, os.get (os.root w) p <> Some (os.Dir perm es)) ->
  exists w', os.Create w path = (w', Ok {| os.fd_path := p; os.fd_closed := false |})
             /\ os.find_archive p (os.archives w') = Some tar.empty
             /\ os.root w' = os.root w /\ os.wd w' = os.wd w /\ os.HOME w' = os.HOME w
             /\ os.closes w' = os.closes w.
Proof.
  intros Hn Hd. unfold os.Create. rewrite Hn.
  destruct (os.get (os.root w) p) as [[| |perm es]|] eqn:E;
    try (eexists; split; [reflexivity|]; simpl; rewrite find_set_archive; now auto).
  now destruct (Hd perm es).
Qed.

(** C9, amended. Opening the archive writer on the path of an archive that
    is there already, whatever location it was written for, does not fail:
    [newArchiveWriter] and [openArchiveWriter] return a writer on that file,
    and the archive is emptied. *)
Theorem newArchiveWriter_truncates (w : os.World) (path : string) (p : list string)
  (a : tar.archive) :
  os.namei w true path = Ok p ->
  os.find_archive p (os.archives w) = Some a ->
  (forall perm es, os.get (os.root w) p <> Some (os.Dir perm es)) ->
  (exists w' aw, part_003.newArchiveWriter w path = (w', Ok aw)
                 /\ os.fd_path (part_003.file aw) = p
                 /\ os.find_archive p (os.archives w') = Some tar.empty)
  /\ (exists w' aw, data_go.openArchiveWriter w path = (w', Ok aw)
                    /\ os.fd_path (data_go.file aw) = p
                    /\ os.find_archive p (os.archives w') = Some tar.empty).
Proof.
  intros Hn _ Hd. destruct (Create_truncates w path p Hn Hd) as (w' & Hc & Hf & _).
  split.
  - unfold part_003.newArchiveWriter. rewrite Hc. simpl. eauto.
  - unfold data_go.openArchiveWriter. rewrite Hc. simpl. eauto.
Qed.

(** *** Normalized paths *)

Lemma Clean_normal (path : string) : filepath.IsAbs path = true -> normal (filepath.Clean path).
Proof.
  intros Habs. unfold filepath.Clean.
  destruct (String.eqb path "") eqn:E.
  - apply String.eqb_eq in E. subst. discriminate.
  - rewrite Habs. apply names_normal. split.
    + now apply clean_elems_rooted_plain.
    + apply clean_elems_noslash; [apply Split_all_noslash | constructor].
Qed.

Lemma IsAbs_app (a b : string) : filepath.IsAbs a = true -> filepath.IsAbs (a ++ b) = true.
Proof. destruct a; [discriminate | exact (fun H => H)]. Qed.

Lemma Abs_normal (w : os.World) (path p : string) :
  (forall d, os.wd w = Some d -> filepath.IsAbs d = true) ->
  filepath.Abs w path = Ok p -> normal p.
Proof.
  intros Hwd. unfold filepath.Abs. destruct (filepath.IsAbs path) eqn:Ea.
  - intros [= <-]. now apply Clean_normal.
  - unfold os.Getwd. destruct (os.wd w) as [d|] eqn:Ed; [|discriminate].
    simpl. intros [= <-]. specialize (Hwd d eq_refl).
    unfold filepath.Join. destruct (String.eqb d "") eqn:E.
    + apply String.eqb_eq in E. subst. discriminate.
    + apply Clean_normal. cbn [strings.Join]. now apply IsAbs_app.
Qed.

Lemma normalizePath_normal (w : os.World) (path p : string) :
  (forall d, os.wd w = Some d -> filepath.IsAbs d = true) ->
  part_003.normalizePath w path = Ok p -> normal p.
Proof.
  intros Hwd. unfold part_003.normalizePath.
  destruct (_ && _).
  - destruct (os.UserHomeDir w); [|discriminate]. simpl.
    destruct (filepath.Abs w _) eqn:E; [|discriminate]. intros [= <-].
    now apply Abs_normal in E.
  - simpl. destruct (filepath.Abs w _) eqn:E; [|discriminate]. intros [= <-].
    now apply Abs_normal in E.
Qed.

(** *** An empty index *)

Lemma kept_all_ignored (ignore cs : list string) (perm : Z) (es : list (string * os.node)) :
  (forall c m, In (c, m) es -> In c ignore) ->
  kept ignore cs (os.Dir perm es) = [].
Proof.
  intros H. simpl. induction es as [|[c m] es IH]; [reflexivity|].
  simpl. replace (ignored ignore c) with true.
  - simpl. apply IH. intros c' m' Hin. apply (H c' m'). now right.
  - symmetry. apply ignored_In. apply (H c m). now left.
Qed.

Lemma kept_leaf (ignore cs : list string) (n : os.node) :
  (forall perm es, n <> os.Dir perm es) -> kept ignore cs n = [].
Proof. destruct n as [| |perm es]; try reflexivity. intros H. now destruct (H perm es). Qed.

(** Closing a writer that wrote nothing: the archive is complete and has no
    member. *)
Lemma Close_fresh (w : os.World) (p : list string) :
  os.find_archive p (os.archives w) = Some tar.empty ->
  exists aw' w',
    part_003.Close {| part_003.tar_ := archive_tar.NewWriter;
                      part_003.gzip := {| pgzip.err := None; pgzip.closed := false |};
                      part_003.file := {| os.fd_path := p; os.fd_closed := false |} |} w
    = (aw', w', None)
    /\ os.find_archive p (os.archives w') = Some {| tar.entries := []; tar.trailer := None |}
    /\ os.root w' = os.root w.
Proof.
  intros Hf. unfold part_003.Close, archive_tar.Close, archive_tar.Flush, pgzip.Write,
    pgzip.Close, os.WriteArchive, os.Close. simpl. rewrite Hf. simpl.
  rewrite find_set_archive. simpl. eexists _, _. split; [reflexivity|]. simpl.
  rewrite find_set_archive. auto.
Qed.

(** C7, amended. When every entry of the location directory is ignored, or
    there is none, [scan] returns an index without entries, and
    [backupLocation] succeeds and leaves an archive without members, closed by the end-of-archive marker; and restoring such an
    archive, in whatever world it is found later, returns without error and
    leaves that world as it is: a target directory that is missing is not
    made. *)
Theorem empty_location_roundtrip
  (w : os.World) (loc : part_000.Location) (outputDir target : string)
  (p q : list string) (n : os.node) :
  (forall d, os.wd w = Some d -> filepath.IsAbs d = true) ->
  part_003.normalizePath w (part_000.Path loc) = Ok target ->
  os.namei w false target = Ok p -> os.get (os.root w) p = Some n -> wf n ->
  (forall c m, reach n [c] m -> In c (part_000.Ignore loc)) ->
  os.namei w true (part_000.archivePath_of_backup loc outputDir) = Ok q ->
  (forall perm es, os.get (os.root w) q <> Some (os.Dir perm es)) ->
  (forall idx, exists l',
     part_003.scan w {| part_003.Path := target; part_003.Ignore := part_000.Ignore loc;
                        part_003.index := idx |} = (l', None)
     /\ part_003.index l' = [])
  /\ exists w1,
    part_000.backupLocation w loc outputDir = (w1, None)
    /\ os.find_archive q (os.archives w1) = Some {| tar.entries := []; tar.trailer := None |}
    /\ forall w2 target2,
         part_003.normalizePath w2 (part_000.Path loc) = Ok target2 ->
         os.OpenArchive w2 (part_000.archivePath_of_backup loc outputDir)
         = Ok (Ok {| tar.entries := []; tar.trailer := None |}) ->
         part_000.restoreLocation w2 loc outputDir = (w2, None).
Proof.
  intros Hwd Hnorm Hp Hg Hwf Hign Hq Hnd.
  assert (Hk : kept (part_000.Ignore loc) [] n = []).
  { destruct n as [| |perm es]; try reflexivity. apply kept_all_ignored.
    intros c m Hin. apply (Hign c m). econstructor; [eassumption | constructor]. }
  assert (Hnt : normal target) by now apply normalizePath_normal with w (part_000.Path loc).
  split.
  { intros idx.
    destruct (part_003_scan_collect w {| part_003.Path := target;
                part_003.Ignore := part_000.Ignore loc; part_003.index := idx |} p n)
      as (l' & Hs3 & _ & Hi3); auto.
    exists l'. split; [assumption|]. simpl in Hi3. now rewrite Hk in Hi3. }
  set (loc1 := {| part_000.Path := target; part_000.Ignore := part_000.Ignore loc;
                  part_000.index := part_000.index loc;
                  part_000.totalSize := part_000.totalSize loc |}).
  destruct (part_000_scan_collect w loc1 p n) as (l' & Hs & HP & Hi & Hsz); auto.
  simpl in Hi. rewrite Hk in Hi. simpl in Hi.
  destruct (Create_truncates w _ q Hq Hnd) as (wc & Hc & Hfc & Hrc & _).
  destruct (Close_fresh wc q Hfc) as (aw' & w1 & Hcl & Hf1 & Hr1).
  exists w1. split; [|split].
  - unfold part_000.backupLocation. rewrite Hnorm. fold loc1. rewrite Hs.
    unfold part_003.newArchiveWriter. unfold part_000.archivePath_of_backup in Hc.
    rewrite Hc.
    change (pgzip.NewWriterLevel pgzip.DefaultCompression)
      with (Ok {| pgzip.err := None; pgzip.closed := false |}). cbv iota.
    unfold part_000.writeToArchive. rewrite Hi. simpl part_000.writeToArchive_loop.
    unfold archive_tar.NewWriter in *. now rewrite Hcl.
  - assumption.
  - intros w2 target2 Hn2 Ho. unfold part_000.restoreLocation.
    rewrite Hn2. unfold part_000.archivePath_of_backup in Ho.
    assert (Hst : os.IsNotExist (os.Stat w2 (filepath.Join
              [outputDir; part_003.generateFilename (part_000.Path loc)])) = false).
    { revert Ho. unfold os.OpenArchive, os.Stat.
      destruct (os.namei w2 true _) as [q2|]; [|discriminate]. simpl.
      unfold os.stat_at. destruct (os.find_archive q2 (os.archives w2)).
      - destruct (os.get (os.root w2) q2); reflexivity.
      - destruct (os.get (os.root w2) q2) as [[| |]|]; discriminate. }
    rewrite Hst. unfold part_000.extractArchive. rewrite Ho. reflexivity.
Qed.

Lemma expands_iff (path : string) :
  ((1 <? String.length path)%nat && String.eqb (strings.take 2 path) "~/" = true)
  <-> exists rest, path = "~/" ++ rest.
Proof.
  split.
  - destruct path as [|a [|b rest]]; simpl; try discriminate.
    destruct (Ascii.eqb_spec a "~"%char) as [->|]; [|discriminate].
    destruct (Ascii.eqb_spec b "/"%char) as [->|]; [|discriminate].
    intros _. now exists rest.
  - intros [rest ->]. reflexivity.
Qed.

(** C10. [normalizePath] expands the home directory exactly for a path
    that starts with "~/"; every other path, "~" alone and "~" followed by
    another character among them, goes to [filepath.Abs] as it is, which
    joins a relative path to the working directory. The only errors are the
    failed lookup of the home directory for a path with "~/" and the failure
    of [filepath.Abs], which is that of [os.Getwd] on a relative path. *)
Theorem normalizePath_home_shorthand (w : os.World) (path : string) :
  (forall rest, path = "~/" ++ rest ->
     part_003.normalizePath w path =
       match os.UserHomeDir w with
       | Err err => Err (wrapError "failed to get home dir" err)
       | Ok home =>
           match filepath.Abs w (filepath.Join [home; rest]) with
           | Err err => Err (wrapError "failed to get absolute path" err)
           | Ok p => Ok p
           end
       end)
  /\ ((forall rest, path <> "~/" ++ rest) ->
      part_003.normalizePath w path =
        match filepath.Abs w path with
        | Err err => Err (wrapError "failed to get absolute path" err)
        | Ok p => Ok p
        end)
  /\ (path = "~" \/ (exists c rest, path = String "~" (String c rest) /\ c <> "/"%char) ->
      part_003.normalizePath w path =
        match os.Getwd w with
        | Err err => Err (wrapError "failed to get absolute path" err)
        | Ok d => Ok (filepath.Join [d; path])
        end)
  /\ (forall e, part_003.normalizePath w path = Err e ->
      (exists rest err, path = "~/" ++ rest /\ os.UserHomeDir w = Err err
                        /\ e = wrapError "failed to get home dir" err)
      \/ (exists p err,
            (p = path \/ exists rest home, path = "~/" ++ rest /\ os.UserHomeDir w = Ok home
                                           /\ p = filepath.Join [home; rest])
            /\ filepath.IsAbs p = false /\ os.Getwd w = Err err
            /\ filepath.Abs w p = Err err
            /\ e = wrapError "failed to get absolute path" err)).
Proof.
  assert (Hno : (forall rest, path <> "~/" ++ rest) ->
                (1 <? String.length path)%nat && String.eqb (strings.take 2 path) "~/" = false).
  { intros Hn. destruct (_ && _) eqn:E; [|reflexivity].
    apply expands_iff in E. destruct E as [rest ->]. now destruct (Hn rest). }
  assert (Habs : forall p e, match filepath.Abs w p with
                      | Err err => Err (wrapError "failed to get absolute path" err)
                      | Ok q => Ok q end = Err e ->
                 exists err, filepath.IsAbs p = false /\ os.Getwd w = Err err
                        /\ filepath.Abs w p = Err err
                        /\ e = wrapError "failed to get absolute path" err).
  { intros p e. unfold filepath.Abs. destruct (filepath.IsAbs p); [discriminate|].
    destruct (os.Getwd w) as [d|err]; simpl; [discriminate|].
    intros [= <-]. now exists err. }
  repeat split.
  - intros rest ->. unfold part_003.normalizePath. simpl.
    destruct (os.UserHomeDir w); reflexivity.
  - intros Hn. unfold part_003.normalizePath. rewrite (Hno Hn). reflexivity.
  - intros Hp. unfold part_003.normalizePath.
    assert (E : (1 <? String.length path)%nat && String.eqb (strings.take 2 path) "~/" = false
                /\ filepath.IsAbs path = false).
    { destruct Hp as [-> | (c & rest & -> & Hc)]; [split; reflexivity|].
      split; [|reflexivity]. simpl.
      destruct (Ascii.eqb_spec c "/"%char) as [->|Hne]; [now destruct Hc|].
      reflexivity. }
    destruct E as [-> E2]. simpl. unfold filepath.Abs. rewrite E2.
    destruct (os.Getwd w); reflexivity.
  - intros e. unfold part_003.normalizePath.
    destruct (_ && _) eqn:E.
    + apply expands_iff in E. destruct E as [rest ->].
      destruct (os.UserHomeDir w) as [home|err] eqn:Eh; simpl.
      * intros H. right. apply Habs in H. destruct H as (err & ? & ? & ? & ?).
        exists (filepath.Join [home; rest]), err. repeat split; auto.
        right. now exists rest, home.
      * intros [= <-]. left. exists rest, err. auto.
    + simpl. intros H. right. apply Habs in H. destruct H as (err & ? & ? & ? & ?).
      exists path, err. repeat split; auto.
Qed.

(** ** The claims at concrete inputs *)

(** The digest of FIPS 180-4, B.1, and the words at the ends of the tables. *)
Example generateFilename_abc :
  part_003.generateFilename "/tmp/abc"
  = "abc-" ++ sha256.hex (sha256.Sum256 "/tmp/abc") ++ ".tar.gz"
  /\ sha256.hex (sha256.Sum256 "abc")
     = "ba7816bf8f01cfea414140de5dae2223b00361a396177a9cb410ff61f20015ad"
  /\ (hd 0 sha256.K, last sha256.K 0, hd 0 sha256.init, last sha256.init 0)%Z
     = (0x428a2f98, 0xc67178f2, 0x6a09e667, 0x5be0cd19)%Z.
Proof. vm_compute. repeat split. Qed.

(** C2 (the code departs from the claim). The tree of [fixture.world] holds
    the link /home/u/project/l to "a.txt". Backup, clear and restore all
    succeed, and the restored /home/u/project/l is a regular file with the
    content of a.txt, no link: [writeEntryNoMessage] asks [os.Stat], which
    follows the link, and passes no link target to [tar.FileInfoHeader]. *)
Theorem roundtrip_loses_symlink :
  let cfg := fixture.config "~/project" in
  let '(w1, e1) := part_000.BackupData fixture.world cfg in
  let '(w2, e2) := clear_go.ClearLocations w1 cfg in
  let '(w3, e3) := part_000.Restore w2 cfg "/backup" in
  (e1, e2, e3) = (None, None, None)
  /\ os.get (os.root fixture.world) ["home"; "u"; "project"; "l"] = Some (os.Symlink "a.txt")
  /\ os.get (os.root w2) ["home"; "u"; "project"] = None
  /\ os.get (os.root w3) ["home"; "u"; "project"; "a.txt"] = Some (os.File 420 "0123456789")
  /\ os.get (os.root w3) ["home"; "u"; "project"; "l"] = Some (os.File 420 "0123456789").
Proof. vm_compute. repeat split. Qed.

(** C3 (the code departs from the claim). [backupLocation] of part_003
    names the archive of the location "~/project" after the normalized path
    /home/u/project, [restoreLocation] looks for the name of the path as
    written: after a successful backup the restore finds no archive. *)
Theorem backup_restore_filename_mismatch :
  let loc := {| part_003.Path := "~/project"; part_003.Ignore := fixture.ignore;
                part_003.index := [] |} in
  let '(w1, e1) := part_003.backupLocation fixture.world loc "/backup" in
  e1 = None
  /\ part_003.archivePath_of fixture.world loc "/backup"
     = Ok "/backup/project-4eb6cd28fb98b739efcd7ddb5e401ef23a081dfaba1de4274469f8e5bd495854.tar.gz"
  /\ map fst (os.archives w1)
     = [["backup";
         "project-4eb6cd28fb98b739efcd7ddb5e401ef23a081dfaba1de4274469f8e5bd495854.tar.gz"]]
  /\ part_000.archivePath_of_restore (fixture.location "~/project") "/backup"
     = "/backup/project-9813181dafdf4f70e0e269033886d7e0b284bfd514a3d664625ae15ed4238974.tar.gz"
  /\ part_000.restoreLocation w1 (fixture.location "~/project") "/backup"
     = (w1, Some (errorString
          "archive not found: /backup/project-9813181dafdf4f70e0e269033886d7e0b284bfd514a3d664625ae15ed4238974.tar.gz")).
Proof. vm_compute. repeat split. Qed.

(** C5 (the code departs from the claim). A writer whose current member
    still lacks 3 bytes and whose gzip layer holds a write error: the tar
    layer and the gzip layer both fail to close, and [Close] of data.go
    returns the error of the gzip layer alone. *)
Theorem data_go_Close_keeps_last_error :
  let aw := {| data_go.tar_ := {| archive_tar.err := None; archive_tar.nb := 3 |};
               data_go.gzip := {| pgzip.err := Some (EIO "no space left on device");
                                  pgzip.closed := false |};
               data_go.file := {| os.fd_path := ["backup"; "a.tar.gz"];
                                  os.fd_closed := false |} |} in
  let '(_, w', e) := data_go.Close aw fixture.world in
  os.closes w' = [ (os.TarLayer, Some (ErrMissedWriting 3));
                   (os.GzipLayer, Some (EIO "no space left on device"));
                   (os.FileLayer, None) ]
  /\ e = Some (EIO "no space left on device").
Proof. vm_compute. repeat split. Qed.

(** C8 (the code departs from the claim). [scan] of data.go on
    /home/u/project keeps a.txt (10 bytes), the link l (5), the directory
    sub and sub/b (2); the size it accumulates is 4113, the 4096 bytes the
    system reports for the directory included, where the sizes of the kept
    entries that are no directories sum to 17. *)
Theorem data_go_scan_counts_directories :
  let l := {| data_go.Path := "/home/u/project"; data_go.Ignore := fixture.ignore;
              data_go.size := 0; data_go.index := [] |} in
  let '(l', e) := data_go.scan fixture.world l in
  e = None
  /\ map data_go.Path_ (data_go.index l')
     = ["/home/u/project/a.txt"; "/home/u/project/l"; "/home/u/project/sub";
        "/home/u/project/sub/b"]
  /\ data_go.size l' = 4113%Z
  /\ sum (map (entry_size fixture.world) (kept fixture.ignore [] fixture.project)) = 17%Z.
Proof. vm_compute. repeat split. Qed.

(** C4, as stated, fails: for the location /data the parent directory is
    the root, and the header "sibling/file", which has no traversal
    component and does not begin with "data", is refused. And for the
    location /home/u/project/sub the header "a.txt/file" passes the check,
    but /home/u/project/a.txt is a regular file: the entry is not created
    and the restore returns the error of the file system. *)
Lemma sibling_refused_below_root :
  let w := fixture.with_archive "/data" [fixture.member "sibling/file" "x"] in
  part_000.illegal_path (filepath.Dir "/data") "sibling/file" = true
  /\ part_000.restoreLocation w (fixture.location "/data") "/backup"
     = (w, Some (wrapError "extraction failed"
                   (errorString "illegal file path in archive: sibling/file")))
  /\ let w' := fixture.with_archive "/home/u/project/sub"
                 [fixture.member "a.txt/file" "x"] in
     part_000.illegal_path (filepath.Dir "/home/u/project/sub") "a.txt/file" = false
     /\ part_000.restoreLocation w' (fixture.location "/home/u/project/sub") "/backup"
        = (w', Some (wrapError "extraction failed"
                       (wrapError "failed to create parent directory" ENOTDIR))).
Proof. vm_compute. repeat split. Qed.

(** C7, as stated, fails: the empty location /home/u/empty is backed up
    into an archive without members, deleted, and restored without error,
    and after the restore there is still no /home/u/empty. *)
Lemma empty_location_not_recreated :
  let cfg := fixture.config "~/empty" in
  let '(w1, e1) := part_000.BackupData fixture.world cfg in
  let '(w2, e2) := clear_go.ClearLocations w1 cfg in
  let '(w3, e3) := part_000.Restore w2 cfg "/backup" in
  (e1, e2, e3) = (None, None, None)
  /\ map snd (os.archives w1) = [{| tar.entries := []; tar.trailer := None |}]
  /\ os.Lstat w2 "/home/u/empty" = Err ENOENT
  /\ w3 = w2
  /\ os.Lstat w3 "/home/u/empty" = Err ENOENT.
Proof. vm_compute. repeat split. Qed.

(** C9, as stated, fails: the locations "~/project" and "/home/u/project"
    are distinct paths with the same archive file name in part_003. The run
    over both returns no error, and the archive holds the members of the
    second location only: those of the first were overwritten. *)
Lemma second_location_overwrites_archive :
  let first := {| part_003.Path := "~/project"; part_003.Ignore := fixture.ignore;
                  part_003.index := [] |} in
  let second := {| part_003.Path := "/home/u/project";
                   part_003.Ignore := ["a.txt"; "l"; "sub"; "node_modules"];
                   part_003.index := [] |} in
  let run locs := part_003.BackupData fixture.world
                    {| part_003.Output := "/backup";
                       part_003.Data_ := {| part_003.Locations := locs |} |} in
  let name := "project-4eb6cd28fb98b739efcd7ddb5e401ef23a081dfaba1de4274469f8e5bd495854.tar.gz" in
  snd (run [first]) = None
  /\ member_names (fst (run [first]))
     = [(["backup"; name],
         ["project/a.txt"; "project/l"; "project/sub"; "project/sub/b"])]
  /\ snd (run [first; second]) = None
  /\ member_names (fst (run [first; second]))
     = [(["backup"; name], ["project/.git"; "project/.git/HEAD"])].
Proof. vm_compute. repeat split. Qed.

(** ** The theorems at concrete inputs *)

Lemma extractArchive_sibling_witness :
  part_000.illegal_path (filepath.Dir "/home/u/project") "sibling/file" = false
  /\ ~ inside "/home/u/project" (filepath.Join [filepath.Dir "/home/u/project"; "sibling/file"]).
Proof.
  assert (H := extractArchive_sibling fixture.world "/home/u/project"
                 (fixture.member "sibling/file" "x") "sibling").
  cbv zeta in H. destruct H as (H1 & _ & H3 & _).
  - split; vm_compute; reflexivity.
  - vm_compute. discriminate.
  - vm_compute. repeat constructor.
  - vm_compute. reflexivity.
  - vm_compute. discriminate.
  - split; assumption.
Defined.

Lemma scan_prunes_ignored_witness :
  exists l',
    part_003.scan fixture.world
      {| part_003.Path := "/home/u/project"; part_003.Ignore := fixture.ignore;
         part_003.index := [] |} = (l', None)
    /\ index_spec "/home/u/project" fixture.ignore fixture.project (part_003.index l').
Proof.
  refine (proj1 (scan_prunes_ignored fixture.world "/home/u/project" fixture.ignore
                   ["home"; "u"; "project"] fixture.project _ _ _ _) []).
  - split; vm_compute; reflexivity.
  - vm_compute. reflexivity.
  - vm_compute. reflexivity.
  - vm_compute. repeat split.
Defined.

Lemma empty_location_roundtrip_witness :
  exists w1,
    part_000.backupLocation fixture.world (fixture.location "~/empty") "/backup" = (w1, None)
    /\ os.find_archive
         ["backup"; "empty-312d36a9629b54859c673f64fadd3fc4bfeebe0b66eb8e636a7595684b33131a.tar.gz"]
         (os.archives w1)
       = Some {| tar.entries := []; tar.trailer := None |}.
Proof.
  destruct (empty_location_roundtrip fixture.world (fixture.location "~/empty") "/backup"
              "/home/u/empty" ["home"; "u"; "empty"]
              ["backup"; "empty-312d36a9629b54859c673f64fadd3fc4bfeebe0b66eb8e636a7595684b33131a.tar.gz"]
              (os.Dir 493 []))
    as (_ & w1 & H1 & H2 & _).
  - intros d [= <-]. reflexivity.
  - vm_compute. reflexivity.
  - vm_compute. reflexivity.
  - vm_compute. reflexivity.
  - exact I.
  - intros c m H. inversion H as [|? ? ? ? ? ? Hin]; subst. destruct Hin.
  - vm_compute. reflexivity.
  - intros perm es. vm_compute. discriminate.
  - exists w1. split; assumption.
Defined.

Lemma newArchiveWriter_truncates_witness :
  let w := fixture.with_archive "/data" [fixture.member "data/x" "x"] in
  let p := ["backup"; part_003.generateFilename "/data"] in
  exists w' aw,
    part_003.newArchiveWriter w (filepath.Join ["/backup"; part_003.generateFilename "/data"])
    = (w', Ok aw)
    /\ os.fd_path (part_003.file aw) = p
    /\ os.find_archive p (os.archives w') = Some tar.empty.
Proof.
  cbv zeta.
  refine (proj1 (newArchiveWriter_truncates _ _ _
                   {| tar.entries := [fixture.member "data/x" "x"]; tar.trailer := None |}
                   _ _ _)).
  - vm_compute. reflexivity.
  - vm_compute. reflexivity.
  - intros perm es. vm_compute. discriminate.
Defined.


(** ** Further properties of the engine *)

(** *** normalizePath *)

(** X3. A path that [normalizePath] returned is absolute and clean, and
    [normalizePath] returns it unchanged in every world, whatever home and
    working directory are there: normalizing twice is normalizing once. *)
Theorem normalizePath_idempotent (w w' : os.World) (path p : string) :
  (forall d, os.wd w = Some d -> filepath.IsAbs d = true) ->
  part_003.normalizePath w path = Ok p ->
  filepath.IsAbs p = true /\ filepath.Clean p = p
  /\ part_003.normalizePath w' p = Ok p.
Proof.
  intros Hwd Hn. destruct (normalizePath_normal w path p Hwd Hn) as [Habs Hclean].
  split; [assumption | split; [assumption|]].
  unfold part_003.normalizePath.
  destruct p as [|c p']; [discriminate|].
  unfold filepath.IsAbs in Habs. simpl in Habs.
  destruct (Ascii.eqb c "/") eqn:Ec; [|discriminate].
  apply Ascii.eqb_eq in Ec. subst c.
  replace ((1 <? String.length (String "/" p'))%nat
           && String.eqb (strings.take 2 (String "/" p')) "~/") with false
    by (destruct p'; simpl; now rewrite ?andb_false_r).
  simpl bind. unfold filepath.Abs.
  change (filepath.IsAbs (String "/" p')) with true. cbv iota.
  now rewrite Hclean.
Qed.

Lemma normalizePath_idempotent_witness :
  part_003.normalizePath fixture.world "/home/u/project" = Ok "/home/u/project".
Proof.
  apply (normalizePath_idempotent fixture.world fixture.world "~/project" "/home/u/project").
  - intros d [= <-]. reflexivity.
  - vm_compute. reflexivity.
Defined.

(** *** extractArchive *)

Lemma normal_no_double_slash (p : string) : normal p -> strings.HasPrefix p "//" = false.
Proof.
  intros Hn. destruct (normal_elems p Hn) as (es & -> & Hp & Hs).
  destruct es as [|e es']; [reflexivity|].
  inversion Hp as [|? ? He _]; subst. inversion Hs as [|? ? Hse _]; subst.
  destruct e as [|c e']; [discriminate|].
  simpl in Hse. apply andb_prop in Hse. destruct Hse as [Hc _].
  apply negb_true_iff in Hc.
  destruct es'; simpl; unfold strings.slash in Hc; now rewrite Hc.
Qed.

Lemma Join_root_normal (name : string) : normal (filepath.Join ["/"; name]).
Proof.
  unfold filepath.Join. cbn [String.eqb Ascii.eqb Bool.eqb]. cbv iota.
  apply Clean_normal. reflexivity.
Qed.

(** X4. For a target directly below the root (and for the root), the
    prefix the check of [extractArchive] looks for is "//", which no cleaned
    path has: the first member is refused, whatever its name, unless the
    name comes down to the root itself. Nothing is extracted. *)
Theorem extractArchive_refuses_below_root
  (w : os.World) (archivePath targetPath : string) (a : tar.archive)
  (e : tar.entry) (rest : list tar.entry) :
  filepath.Dir targetPath = "/" ->
  os.OpenArchive w archivePath = Ok (Ok a) ->
  tar.entries a = e :: rest ->
  filepath.Join ["/"; tar.Name (tar.hdr e)] <> "/" ->
  part_000.extractArchive w archivePath targetPath
  = (w, Some (errorString ("illegal file path in archive: " ++ tar.Name (tar.hdr e)))).
Proof.
  intros Hd Ho He Hne. unfold part_000.extractArchive. rewrite Ho, He, Hd.
  cbn [part_000.extract_loop].
  replace (part_000.illegal_path "/" (tar.Name (tar.hdr e))) with true; [reflexivity|].
  symmetry. unfold part_000.illegal_path.
  assert (Hn := Join_root_normal (tar.Name (tar.hdr e))).
  destruct Hn as [Ha Hc]. rewrite Hc.
  change (filepath.Clean "/") with "/".
  change ("/" ++ filepath.Separator) with "//".
  rewrite normal_no_double_slash by (split; assumption).
  destruct (String.eqb _ "/") eqn:E; [|reflexivity].
  apply String.eqb_eq in E. contradiction.
Qed.

Lemma extractArchive_refuses_below_root_witness :
  let w := fixture.with_archive "/data" [fixture.member "data/x" "x"] in
  part_000.extractArchive w
    (filepath.Join ["/backup"; part_003.generateFilename "/data"]) "/data"
  = (w, Some (errorString "illegal file path in archive: data/x")).
Proof.
  cbv zeta.
  apply (extractArchive_refuses_below_root _ _ _
           {| tar.entries := [fixture.member "data/x" "x"]; tar.trailer := None |}
           (fixture.member "data/x" "x") []).
  - vm_compute. reflexivity.
  - vm_compute. reflexivity.
  - reflexivity.
  - vm_compute. discriminate.
Defined.

Lemma extract_loop_success (parentDir : string) (trailer : option error)
  (es : list tar.entry) :
  forall w w', part_000.extract_loop w parentDir es trailer = (w', None) ->
    Forall (fun e => part_000.illegal_path parentDir (tar.Name (tar.hdr e)) = false) es.
Proof.
  induction es as [|e es IH]; intros w w' H; simpl in H.
  - constructor.
  - destruct (part_000.illegal_path parentDir (tar.Name (tar.hdr e))) eqn:E; [discriminate|].
    destruct (part_000.extractEntry w parentDir e) as [w1 [err|]]; [discriminate|].
    constructor; [assumption | now apply (IH _ _ H)].
Qed.

(** X5. When [extractArchive] returns no error, the archive file was opened
    and read as a gzip stream, and every member of it passed the check: its
    name, joined to the parent directory of the target and cleaned, lies in
    that directory. An archive with one member whose name leads out of the
    parent directory is never restored without an error. The check is one
    of names: it does not say where a member was written when a link lies on
    its way. *)
Theorem extractArchive_success
  (w w' : os.World) (archivePath targetPath : string) :
  part_000.extractArchive w archivePath targetPath = (w', None) ->
  exists a, os.OpenArchive w archivePath = Ok (Ok a)
    /\ Forall (fun e => inside (filepath.Clean (filepath.Dir targetPath))
                          (filepath.Clean
                             (filepath.Join [filepath.Dir targetPath; tar.Name (tar.hdr e)])))
              (tar.entries a).
Proof.
  unfold part_000.extractArchive.
  destruct (os.OpenArchive w archivePath) as [[a|err]|err]; try discriminate.
  intros H. exists a. split; [reflexivity|].
  eapply Forall_impl; [|exact (extract_loop_success _ _ _ _ _ H)].
  intros e He. now apply legal_inside.
Qed.

Lemma extractArchive_success_witness :
  exists a,
    os.OpenArchive (fixture.with_archive "/home/u/project" [fixture.member "project/x" "1"])
      (filepath.Join ["/backup"; part_003.generateFilename "/home/u/project"]) = Ok (Ok a)
    /\ Forall (fun e => inside "/home/u"
                          (filepath.Clean (filepath.Join ["/home/u"; tar.Name (tar.hdr e)])))
              (tar.entries a).
Proof.
  destruct (extractArchive_success
              (fixture.with_archive "/home/u/project" [fixture.member "project/x" "1"])
              (fst (part_000.extractArchive
                      (fixture.with_archive "/home/u/project" [fixture.member "project/x" "1"])
                      (filepath.Join ["/backup"; part_003.generateFilename "/home/u/project"])
                      "/home/u/project"))
              (filepath.Join ["/backup"; part_003.generateFilename "/home/u/project"])
              "/home/u/project") as (a & H1 & H2).
  - vm_compute. reflexivity.
  - exists a. split; [assumption|]. exact H2.
Defined.

(** *** data.go: scan and write *)



Lemma append_last_snoc (data : string) (xs : list tar.entry) (x : tar.entry) :
  archive_tar.append_last data (xs ++ [x])%list
  = (xs ++ [{| tar.hdr := tar.hdr x; tar.payload := tar.payload x ++ data |}])%list.
Proof.
  induction xs as [|y ys IH]; [reflexivity|].
  cbn [app archive_tar.append_last]. rewrite IH.
  destruct (ys ++ [x])%list eqn:E; [now destruct ys | reflexivity].
Qed.

(** X7. [write] of data.go takes the header of an entry from the [Lstat]
    of the scan and its content from [os.Open], which follows links. When it
    comes to a link to a regular file that is not empty, the header is that
    of a link, with no content to come, and the copy fails with
    "archive/tar: write too long", the error of the TODO above [write]; the
    entries after it are not written. *)
Theorem data_go_write_link_too_long
  (l : data_go.Location) (tw : data_go.ArchiveWriter) (w : os.World)
  (e : data_go.IndexEntry) (rest : list data_go.IndexEntry)
  (relPath data : string) :
  ready tw w ->
  os.Type_ (data_go.Info e) = os.TLink ->
  filepath.Rel (data_go.Path l) (data_go.Path_ e) = Ok relPath ->
  os.ReadFile w (data_go.Path_ e) = Ok data -> data <> "" ->
  exists tw' w',
    data_go.write_loop l tw w (e :: rest) = (tw', w', Some ErrWriteTooLong)
    /\ os.root w' = os.root w
    /\ exists a,
         os.find_archive (os.fd_path (data_go.file tw)) (os.archives w) = Some a
         /\ os.find_archive (os.fd_path (data_go.file tw)) (os.archives w')
            = Some {| tar.entries :=
                        (tar.entries a ++
                         [{| tar.hdr := {| tar.Typeflag := tar.TypeSymlink;
                                           tar.Name := relPath; tar.Linkname := "";
                                           tar.Size := 0; tar.Mode := os.Perm (data_go.Info e);
                                           tar.Fmt := tar.FormatUnknown |};
                             tar.payload := "" |}])%list;
                      tar.trailer := tar.trailer a |}.
Proof.
  intros (Herr & Hnb & Hzerr & Hzc & Hfc & a & Ha) Hlink Hrel Hread Hdata.
  destruct tw as [[terr tnb] [zerr zc] [fp fc]]. simpl in *. subst.
  cbn [data_go.write_loop]. rewrite Hrel.
  unfold archive_tar.FileInfoHeader. rewrite Hlink.
  cbn [tar.Typeflag tar.Linkname tar.Size tar.Mode tar.Fmt].
  unfold data_go.WriteHeader, archive_tar.WriteHeader, archive_tar.Flush, pgzip.Write,
    os.WriteArchive.
  cbn [data_go.tar_ data_go.gzip data_go.file archive_tar.err archive_tar.nb pgzip.err
       pgzip.closed os.fd_closed os.fd_path Z.ltb Z.compare].
  rewrite Ha.
  cbn [archive_tar.body_size tar.Typeflag].
  unfold os.IsDir. rewrite Hlink. cbn [negb].
  replace (os.ReadFile (os.with_archives w _) (data_go.Path_ e)) with (Ok data)
    by (rewrite <- Hread; reflexivity).
  unfold data_go.Write, archive_tar.Write, pgzip.Write, os.WriteArchive.
  cbn [data_go.tar_ data_go.gzip data_go.file archive_tar.err archive_tar.nb pgzip.err
       pgzip.closed os.fd_closed os.fd_path os.archives os.with_archives].
  rewrite find_set_archive.
  assert (Hlen : (0 <? Z.of_nat (String.length data))%Z = true).
  { destruct data; [congruence|]. simpl String.length. apply Z.ltb_lt. lia. }
  rewrite Hlen. cbn [Z.to_nat strings.take].
  eexists. eexists. split; [reflexivity|]. split; [reflexivity|].
  exists a. split; [reflexivity|].
  cbn [os.archives os.with_archives]. rewrite find_set_archive.
  unfold archive_tar.push_data, archive_tar.push_entry. cbn [tar.entries tar.trailer].
  now rewrite append_last_snoc.
Qed.

Lemma data_go_write_link_too_long_witness :
  let w := os.with_archives fixture.world [(["backup"; "a.tar.gz"], tar.empty)] in
  let tw := {| data_go.tar_ := archive_tar.NewWriter;
               data_go.gzip := {| pgzip.err := None; pgzip.closed := false |};
               data_go.file := {| os.fd_path := ["backup"; "a.tar.gz"];
                                  os.fd_closed := false |} |} in
  let l := {| data_go.Path := "/home/u/project"; data_go.Ignore := fixture.ignore;
              data_go.size := 0; data_go.index := [] |} in
  let e := {| data_go.Path_ := "/home/u/project/l";
              data_go.Info := {| os.Name := "l"; os.Size := 5; os.Perm := 511;
                                 os.Type_ := os.TLink |} |} in
  exists tw' w', data_go.write_loop l tw w [e] = (tw', w', Some ErrWriteTooLong).
Proof.
  cbv zeta.
  destruct (data_go_write_link_too_long
              {| data_go.Path := "/home/u/project"; data_go.Ignore := fixture.ignore;
                 data_go.size := 0; data_go.index := [] |}
              {| data_go.tar_ := archive_tar.NewWriter;
                 data_go.gzip := {| pgzip.err := None; pgzip.closed := false |};
                 data_go.file := {| os.fd_path := ["backup"; "a.tar.gz"];
                                    os.fd_closed := false |} |}
              (os.with_archives fixture.world [(["backup"; "a.tar.gz"], tar.empty)])
              {| data_go.Path_ := "/home/u/project/l";
                 data_go.Info := {| os.Name := "l"; os.Size := 5; os.Perm := 511;
                                    os.Type_ := os.TLink |} |}
              [] "l" "0123456789") as (tw' & w' & H & _).
  - repeat split. exists tar.empty. vm_compute. reflexivity.
  - reflexivity.
  - vm_compute. reflexivity.
  - vm_compute. reflexivity.
  - discriminate.
  - exists tw', w'. exact H.
Defined.

(** *** clear.go *)

(** X8. [ClearSingleLocation] removes nothing unless every guard lets the
    path pass. Either it returns an error and the world is as it was; or the
    path it normalized is at least ten bytes long, is neither the root nor
    the string [os.UserHomeDir] returns, did not fail [os.Stat] for want of
    a file, and the outcome, world and error, is that of [os.RemoveAll] on
    that path. *)
Theorem ClearSingleLocation_guards (w w' : os.World) (path : string) (e : option error) :
  (forall d, os.wd w = Some d -> filepath.IsAbs d = true) ->
  clear_go.ClearSingleLocation w path = (w', e) ->
  (e <> None /\ w' = w)
  \/ exists np, part_003.normalizePath w path = Ok np
                /\ (10 <= String.length np)%nat
                /\ np <> "/"
                /\ os.UserHomeDir w <> Ok np
                /\ os.IsNotExist (os.Stat w np) = false
                /\ os.RemoveAll w np = (w', e).
Proof.
  intros Hwd. unfold clear_go.ClearSingleLocation.
  destruct (part_003.normalizePath w path) as [np|err] eqn:En;
    [|intros [= <- <-]; left; split; [discriminate | reflexivity]].
  destruct (os.IsNotExist (os.Stat w np)) eqn:Es;
    [intros [= <- <-]; left; split; [discriminate | reflexivity]|].
  destruct (String.eqb np "/") eqn:Er;
    [intros [= <- <-]; left; split; [discriminate | reflexivity]|].
  destruct (String.eqb np match os.UserHomeDir w with Ok h => h | Err _ => "" end) eqn:Eh;
    [intros [= <- <-]; left; split; [discriminate | reflexivity]|].
  cbn [orb].
  destruct (normalizePath_normal w path np Hwd En) as [Habs Hclean].
  unfold filepath.Abs. rewrite Habs, !Hclean.
  destruct (String.length np <? 10)%nat eqn:El;
    [intros [= <- <-]; left; split; [discriminate | reflexivity]|].
  intros H. right. exists np. repeat split; auto.
  - apply Nat.ltb_ge in El. exact El.
  - apply String.eqb_neq in Er. exact Er.
  - intros Hh. rewrite Hh in Eh. now rewrite String.eqb_refl in Eh.
Qed.

Lemma ClearSingleLocation_guards_witness :
  exists np, part_003.normalizePath fixture.world "~/project" = Ok np
             /\ (10 <= String.length np)%nat
             /\ np <> "/"
             /\ os.UserHomeDir fixture.world <> Ok np
             /\ os.IsNotExist (os.Stat fixture.world np) = false
             /\ os.RemoveAll fixture.world np
                = (fst (clear_go.ClearSingleLocation fixture.world "~/project"), None).
Proof.
  destruct (ClearSingleLocation_guards fixture.world
              (fst (clear_go.ClearSingleLocation fixture.world "~/project")) "~/project" None)
    as [[He _] | H].
  - intros d [= <-]. reflexivity.
  - vm_compute. reflexivity.
  - congruence.
  - exact H.
Defined.

(** *** Stores in the tree *)

Lemma put_exists (n : os.node) (p : list string) :
  forall r m, os.get r p = Some m -> exists r', os.put r p n = Some r'.
Proof.
  induction p as [|c p IH]; intros r m H; simpl in *.
  - eauto.
  - destruct r as [| |perm es]; try discriminate.
    destruct (os.lookup c es) as [child|]; [|discriminate].
    destruct (IH _ _ H) as (r' & ->). eauto.
Qed.

Lemma put_new (n : os.node) (c : string) (d : list string) :
  forall r perm es, os.get r d = Some (os.Dir perm es) ->
    exists r', os.put r (d ++ [c])%list n = Some r'.
Proof.
  induction d as [|x d IH]; intros r perm es H; simpl in *.
  - injection H as ->. destruct (os.lookup c es) as [child|]; eauto.
  - destruct r as [| |perm' es']; try discriminate.
    destruct (os.lookup x es') as [child|]; [|discriminate].
    destruct (IH _ _ _ H) as (r' & ->). eauto.
Qed.

(** A store at [p] leaves every path that is neither above nor below [p]
    as it was. *)
Lemma put_get_other (n : os.node) (p : list string) :
  forall r r' q, os.put r p n = Some r' ->
    ~ is_prefix q p -> ~ is_prefix p q -> os.get r' q = os.get r q.
Proof.
  induction p as [|c p IH]; intros r r' q Hput Hqp Hpq.
  - destruct Hpq. now exists q.
  - destruct q as [|c' q]; [destruct Hqp; now exists (c :: p)|].
    simpl in Hput. destruct r as [| |perm es]; try discriminate.
    destruct (String.eqb_spec c' c) as [->|Hne].
    + destruct (os.lookup c es) as [child|] eqn:El.
      * destruct (os.put child p n) as [ch'|] eqn:Ep; [|discriminate].
        injection Hput as <-. simpl. rewrite lookup_set_child_eq, El.
        apply IH with (r := child); auto.
        -- intros [t Ht]. apply Hqp. exists t. simpl. now rewrite Ht.
        -- intros [t Ht]. apply Hpq. exists t. simpl. now rewrite Ht.
      * destruct p; [|discriminate]. destruct Hpq. now exists q.
    + assert (exists ch', r' = os.Dir perm (os.set_child c ch' es)) as (ch' & ->).
      { destruct (os.lookup c es) as [child|].
        - destruct (os.put child p n); [|discriminate]. injection Hput as <-. eauto.
        - destruct p; [|discriminate]. injection Hput as <-. eauto. }
      simpl. now rewrite lookup_set_child_ne.
Qed.

(** *** copyConfigToBackup *)

(** The copy as two stores at the path of config.yaml: the file emptied or
    made, and the file filled. *)
Lemma copyConfigToBackup_writes
  (w : os.World) (configPath outputDir : string) (p d : list string) (c : string)
  (perm dperm : Z) (data : string) (des : list (string * os.node)) :
  os.namei w true configPath = Ok p ->
  os.get (os.root w) p = Some (os.File perm data) ->
  os.namei w true (filepath.Join [outputDir; "config.yaml"]) = Ok (d ++ [c])%list ->
  os.get (os.root w) d = Some (os.Dir dperm des) ->
  (d ++ [c])%list <> p ->
  (os.get (os.root w) (d ++ [c])%list = None
   \/ exists perm' old, os.get (os.root w) (d ++ [c])%list = Some (os.File perm' old)) ->
  exists r1 r2,
    os.put (os.root w) (d ++ [c])%list
      (os.File match os.get (os.root w) (d ++ [c])%list with
               | Some (os.File perm' _) => perm'
               | _ => os.masked w 438
               end "") = Some r1
    /\ os.put r1 (d ++ [c])%list
         (os.File match os.get (os.root w) (d ++ [c])%list with
                  | Some (os.File perm' _) => perm'
                  | _ => os.masked w 438
                  end data) = Some r2
    /\ part_000.copyConfigToBackup w configPath outputDir = (os.with_root w r2, None)
    /\ os.get r2 (d ++ [c])%list
       = Some (os.File match os.get (os.root w) (d ++ [c])%list with
                       | Some (os.File perm' _) => perm'
                       | _ => os.masked w 438
                       end data)
    /\ os.get r2 p = Some (os.File perm data).
Proof.
  intros Hp Hgp Hq Hd Hne Hdst. set (q := (d ++ [c])%list) in *.
  assert (Hpq : ~ is_prefix p q).
  { intros [t Ht]. destruct t as [|x t]; [rewrite app_nil_r in Ht; congruence|].
    destruct Hdst as [Hn | (perm' & old & Hf)].
    - assert (E : is_prefix p d).
      { unfold q in Ht. destruct (exists_last (l := x :: t)) as (t' & y & Et); [discriminate|].
        rewrite Et, app_assoc in Ht. apply app_inj_tail in Ht. destruct Ht as [-> _].
        now exists t'. }
      destruct E as [t' ->]. rewrite get_app, Hgp in Hd. destruct t'; discriminate.
    - rewrite Ht, get_app, Hgp in Hf. discriminate. }
  assert (Hqp : ~ is_prefix q p).
  { intros [t Ht]. destruct t as [|x t]; [rewrite app_nil_r in Ht; congruence|].
    rewrite Ht, get_app in Hgp.
    destruct Hdst as [Hn | (perm' & old & Hf)]; [now rewrite Hn in Hgp|].
    rewrite Hf in Hgp. discriminate. }
  unfold part_000.copyConfigToBackup, os.Open. rewrite Hp. simpl bind. rewrite Hgp.
  unfold os.OpenFile_create_trunc. rewrite Hq.
  set (fperm := match os.get (os.root w) q with
                | Some (os.File perm' _) => perm'
                | _ => os.masked w 438
                end).
  assert (Hst : exists r1, os.put (os.root w) q (os.File fperm "") = Some r1
                  /\ match os.get (os.root w) q with
                     | Some (os.Dir _ _) => (w, Err EISDIR)
                     | Some (os.Symlink _) => (w, Err ELOOP)
                     | Some (os.File fperm0 _) =>
                         match os.store w q (os.File fperm0 "") with
                         | (w', None) => (w', Ok {| os.fd_path := q; os.fd_closed := false |})
                         | (w', Some e) => (w', Err e)
                         end
                     | None =>
                         match os.store w q (os.File (os.masked w 438) "") with
                         | (w', None) => (w', Ok {| os.fd_path := q; os.fd_closed := false |})
                         | (w', Some e) => (w', Err e)
                         end
                     end = (os.with_root w r1, Ok {| os.fd_path := q; os.fd_closed := false |})).
  { unfold fperm, os.store. destruct Hdst as [Hn | (perm' & old & Hf)].
    - rewrite Hn. destruct (put_new (os.File (os.masked w 438) "") c d _ _ _ Hd) as (r1 & E).
      fold q in E. exists r1. now rewrite E.
    - rewrite Hf. destruct (put_exists (os.File perm' "") q _ _ Hf) as (r1 & E).
      exists r1. now rewrite E. }
  destruct Hst as (r1 & Hput1 & ->).
  unfold os.ReadAll. cbn [os.fd_closed os.fd_path os.root os.with_root].
  rewrite (put_get_other _ _ _ _ p Hput1 Hpq Hqp), Hgp.
  unfold os.Write. cbn [os.fd_closed os.fd_path os.root os.with_root].
  rewrite (put_get_eq _ _ _ _ Hput1).
  destruct (put_exists (os.File fperm ("" ++ data)) q r1 _ (put_get_eq _ _ _ _ Hput1))
    as (r2 & Hput2).
  unfold os.store. cbn [os.root os.with_root]. rewrite Hput2.
  exists r1, r2. split; [exact Hput1|]. split; [exact Hput2|]. split; [reflexivity|].
  split; [apply (put_get_eq _ _ _ _ Hput2)|].
  rewrite (put_get_other _ _ _ _ p Hput2 Hpq Hqp).
  now rewrite (put_get_other _ _ _ _ p Hput1 Hpq Hqp).
Qed.

(** X9. [copyConfigToBackup] of a regular file into an output directory
    that exists, where config.yaml is missing or a regular file other than
    the source, returns no error: config.yaml then holds the bytes of the
    source, with mode 0666 less the umask when it is new and its old mode
    otherwise, and the source is as it was. *)
Theorem copyConfigToBackup_copies
  (w : os.World) (configPath outputDir : string) (p d : list string) (c : string)
  (perm dperm : Z) (data : string) (des : list (string * os.node)) :
  os.namei w true configPath = Ok p ->
  os.get (os.root w) p = Some (os.File perm data) ->
  os.namei w true (filepath.Join [outputDir; "config.yaml"]) = Ok (d ++ [c])%list ->
  os.get (os.root w) d = Some (os.Dir dperm des) ->
  (d ++ [c])%list <> p ->
  (os.get (os.root w) (d ++ [c])%list = None
   \/ exists perm' old, os.get (os.root w) (d ++ [c])%list = Some (os.File perm' old)) ->
  exists w',
    part_000.copyConfigToBackup w configPath outputDir = (w', None)
    /\ os.get (os.root w') (d ++ [c])%list
       = Some (os.File match os.get (os.root w) (d ++ [c])%list with
                       | Some (os.File perm' _) => perm'
                       | _ => os.masked w 438
                       end data)
    /\ os.get (os.root w') p = Some (os.File perm data)
    /\ os.archives w' = os.archives w.
Proof.
  intros Hp Hgp Hq Hd Hne Hdst.
  destruct (copyConfigToBackup_writes w configPath outputDir p d c perm dperm data des
              Hp Hgp Hq Hd Hne Hdst) as (r1 & r2 & _ & _ & Hc & Hg1 & Hg2).
  exists (os.with_root w r2). now repeat split.
Qed.

(** X10. When the configuration file is the file config.yaml of the output
    directory itself, [copyConfigToBackup] truncates it before it reads it:
    it returns no error and leaves the file empty. *)
Theorem copyConfigToBackup_onto_itself
  (w : os.World) (configPath outputDir : string) (p : list string)
  (perm : Z) (data : string) :
  os.namei w true configPath = Ok p ->
  os.namei w true (filepath.Join [outputDir; "config.yaml"]) = Ok p ->
  os.get (os.root w) p = Some (os.File perm data) ->
  exists w',
    part_000.copyConfigToBackup w configPath outputDir = (w', None)
    /\ os.get (os.root w') p = Some (os.File perm "").
Proof.
  intros Hp Hq Hg.
  unfold part_000.copyConfigToBackup, os.Open. rewrite Hp. simpl bind. rewrite Hg.
  unfold os.OpenFile_create_trunc. rewrite Hq, Hg.
  destruct (put_exists (os.File perm "") p _ _ Hg) as (r1 & Hput1).
  unfold os.store at 1. rewrite Hput1.
  unfold os.ReadAll. cbn [os.fd_closed os.fd_path os.root os.with_root].
  rewrite (put_get_eq _ _ _ _ Hput1).
  unfold os.Write. cbn [os.fd_closed os.fd_path os.root os.with_root].
  rewrite (put_get_eq _ _ _ _ Hput1).
  destruct (put_exists (os.File perm ("" ++ "")) p r1 _ (put_get_eq _ _ _ _ Hput1))
    as (r2 & Hput2).
  unfold os.store. cbn [os.root os.with_root]. rewrite Hput2.
  eexists. split; [reflexivity|]. cbn [os.root os.with_root].
  apply (put_get_eq _ _ _ _ Hput2).
Qed.

Lemma copyConfigToBackup_copies_witness :
  exists w',
    part_000.copyConfigToBackup fixture.world "/home/u/project/a.txt" "/backup" = (w', None)
    /\ os.get (os.root w') ["backup"; "config.yaml"] = Some (os.File 420 "0123456789")
    /\ os.get (os.root w') ["home"; "u"; "project"; "a.txt"]
       = Some (os.File 420 "0123456789").
Proof.
  destruct (copyConfigToBackup_copies fixture.world "/home/u/project/a.txt" "/backup"
              ["home"; "u"; "project"; "a.txt"] ["backup"] "config.yaml"
              420 493 "0123456789" [])
    as (w' & H1 & H2 & H3 & _).
  - vm_compute. reflexivity.
  - vm_compute. reflexivity.
  - vm_compute. reflexivity.
  - vm_compute. reflexivity.
  - discriminate.
  - left. vm_compute. reflexivity.
  - exists w'. split; [assumption|]. split; [|assumption].
    cbn [app] in H2. rewrite H2. vm_compute. reflexivity.
Defined.

Lemma copyConfigToBackup_onto_itself_witness :
  let w := fst (part_000.copyConfigToBackup fixture.world "/home/u/project/a.txt" "/backup") in
  os.get (os.root w) ["backup"; "config.yaml"] = Some (os.File 420 "0123456789")
  /\ exists w',
       part_000.copyConfigToBackup w "/backup/config.yaml" "/backup" = (w', None)
       /\ os.get (os.root w') ["backup"; "config.yaml"] = Some (os.File 420 "").
Proof.
  cbv zeta. split; [vm_compute; reflexivity|].
  apply (copyConfigToBackup_onto_itself _ "/backup/config.yaml" "/backup"
           ["backup"; "config.yaml"] 420 "0123456789").
  - vm_compute. reflexivity.
  - vm_compute. reflexivity.
  - vm_compute. reflexivity.
Defined.

(** *** Paths that lead through directories *)

Lemma resolve_straight (r : os.node) (fuel : nat) (follow : bool) :
  forall rest cur,
    names rest ->
    (forall pre suf, rest = (pre ++ suf)%list -> suf <> [] ->
                     is_dir (os.get r (cur ++ pre)%list)) ->
    (forall t, os.get r (cur ++ rest)%list <> Some (os.Symlink t)) ->
    os.resolve fuel r follow cur rest = Ok (cur ++ rest)%list.
Proof.
  induction rest as [|c rest IH]; intros cur Hn Hd Hl.
  - now rewrite resolve_nil, app_nil_r.
  - rewrite resolve_cons.
    destruct (Hd [] (c :: rest) eq_refl) as (perm & es & E); [discriminate|].
    rewrite app_nil_r in E. rewrite E.
    change (c :: rest) with ([c] ++ rest)%list in Hn.
    apply names_app in Hn. destruct Hn as [[Hc _] Hrest].
    inversion Hc as [|? ? Hpc _]; subst. apply plain_cases in Hpc.
    destruct Hpc as (_ & _ & ->).
    destruct rest as [|c' rest'].
    + destruct (os.get r (cur ++ [c])%list) as [[| t |]|] eqn:Eg;
        rewrite ?resolve_nil; try reflexivity.
      now destruct (Hl t).
    + destruct (Hd [c] (c' :: rest') eq_refl) as (perm' & es' & E'); [discriminate|].
      rewrite E'. rewrite IH; [now rewrite <- app_assoc | assumption | |].
      * intros pre suf Hps Hsuf. rewrite <- app_assoc. apply (Hd ([c] ++ pre)%list suf);
          [|assumption]. simpl. now rewrite Hps.
      * intros t. rewrite <- app_assoc. apply Hl.
Qed.

Lemma namei_straight (w : os.World) (follow : bool) (es : list string) :
  names es -> straight (os.root w) es ->
  os.namei w follow ("/" ++ strings.Join es) = Ok es.
Proof.
  intros Hn [Hd Hl]. unfold os.namei. simpl String.eqb. cbv iota.
  change (strings.HasPrefix ("/" ++ strings.Join es) "/") with true. cbv iota.
  rewrite elems_rooted by assumption.
  now apply (resolve_straight (os.root w) os.MAXSYMLINKS follow es []).
Qed.

(** *** Rel and Join on names *)

Lemma strip_common_app (xs ys : list string) :
  filepath.strip_common xs (xs ++ ys)%list = ([], ys).
Proof.
  induction xs as [|x xs IH]; simpl; [now destruct ys|]. now rewrite String.eqb_refl.
Qed.

Lemma Rel_below (base rel : list string) :
  names base -> base <> [] -> names rel -> rel <> [] ->
  filepath.Rel ("/" ++ strings.Join base) ("/" ++ strings.Join (base ++ rel)%list)
  = Ok (strings.Join rel).
Proof.
  intros Hb Hbne Hr Hrne.
  assert (Hbr : names (base ++ rel)%list) by now apply names_app.
  unfold filepath.Rel.
  destruct (names_normal _ Hb) as [_ ->]. destruct (names_normal _ Hbr) as [_ ->].
  cbv zeta.
  assert (E : String.eqb ("/" ++ strings.Join (base ++ rel)%list) ("/" ++ strings.Join base)
              = false).
  { apply String.eqb_neq. intros H. injection H as H.
    apply Join_names_inj in H; auto.
    rewrite <- (app_nil_r base) in H at 2. now apply app_inv_head in H. }
  rewrite E.
  change (String.eqb ("/" ++ strings.Join base) ".") with false. cbv iota.
  change (String.eqb ("/" ++ strings.Join base) "") with false. cbv iota.
  change (filepath.IsAbs ("/" ++ strings.Join base)) with true.
  change (filepath.IsAbs ("/" ++ strings.Join (base ++ rel)%list)) with true.
  cbn [Bool.eqb negb].
  assert (Er : forall es, names es -> es <> [] ->
                 filepath.rel_elems ("/" ++ strings.Join es) = strings.Split ("/" ++ strings.Join es)).
  { intros es Hes Hne. unfold filepath.rel_elems.
    destruct (String.eqb_spec ("/" ++ strings.Join es) "/") as [H|_]; [|reflexivity].
    injection H as H. apply (Join_names_inj es []) in H; [congruence | assumption |].
    split; constructor. }
  rewrite !Er by (assumption || now destruct base).
  destruct Hb as [_ Hbs]. destruct Hbr as [_ Hbrs].
  rewrite !Split_rooted by (assumption || now destruct base).
  change ("" :: base ++ rel)%list with (("" :: base) ++ rel)%list.
  now rewrite strip_common_app.
Qed.

Lemma Clean_relative (es : list string) :
  names es -> es <> [] -> filepath.Clean (strings.Join es) = strings.Join es.
Proof.
  intros [Hp Hs] Hne. destruct es as [|e es']; [congruence|].
  inversion Hp as [|? ? He _]; subst. inversion Hs as [|? ? Hse _]; subst.
  destruct e as [|c e']; [discriminate|].
  simpl in Hse. apply andb_prop in Hse. destruct Hse as [Hc _].
  apply negb_true_iff in Hc. unfold strings.slash in Hc.
  assert (Hj : exists s, strings.Join (String c e' :: es') = String c s).
  { destruct es'; simpl; eauto. }
  destruct Hj as (s & Hj).
  unfold filepath.Clean, filepath.IsAbs. rewrite Hj. simpl String.eqb. cbv iota.
  simpl strings.HasPrefix. rewrite Hc. cbv iota zeta. rewrite <- Hj.
  rewrite Split_Join by (assumption || discriminate).
  rewrite clean_elems_no_dotdot by now apply plain_no_dotdot.
  simpl rev. cbn [app]. rewrite filter_plain_id by assumption. reflexivity.
Qed.

Lemma Join_base_rel (b : string) (rel : list string) :
  names (b :: rel) -> rel <> [] ->
  filepath.Join [b; strings.Join rel] = strings.Join (b :: rel).
Proof.
  intros Hn Hne. unfold filepath.Join.
  destruct Hn as [Hp Hs]. inversion Hp as [|? ? Hb _]; subst.
  destruct (plain_cases _ Hb) as (-> & _). cbv iota.
  replace (strings.Join [b; strings.Join rel]) with (strings.Join (b :: rel))
    by now rewrite Join_cons.
  apply Clean_relative; [now split | discriminate].
Qed.

(** *** Reaching and finding *)

Lemma distinct_Dir (perm : Z) (es : list (string * os.node)) :
  distinct (os.Dir perm es)
  <-> NoDup (map fst es) /\ Forall (fun e => distinct (snd e)) es.
Proof.
  simpl. apply and_iff_compat_l. induction es as [|[c m] es IH].
  - split; constructor.
  - split.
    + intros [Hm Hes]. constructor; [assumption | now apply IH].
    + intros H. inversion H; subst. split; [assumption | now apply IH].
Qed.

Lemma lookup_In (c : string) (m : os.node) (es : list (string * os.node)) :
  NoDup (map fst es) -> In (c, m) es -> os.lookup c es = Some m.
Proof.
  induction es as [|[k v] es IH]; intros Hnd Hin; [contradiction|].
  simpl in *. inversion Hnd as [|? ? Hk Hnd']; subst.
  destruct Hin as [[= -> ->] | Hin].
  - now rewrite String.eqb_refl.
  - destruct (String.eqb_spec k c) as [->|Hne]; [|now apply IH].
    destruct Hk. change c with (fst (c, m)). now apply in_map.
Qed.

Lemma lookup_Some_In (c : string) (m : os.node) (es : list (string * os.node)) :
  os.lookup c es = Some m -> In (c, m) es.
Proof.
  induction es as [|[k v] es IH]; simpl; [discriminate|].
  destruct (String.eqb_spec k c) as [->|Hne].
  - intros [= ->]. now left.
  - intros H. right. now apply IH.
Qed.

Lemma reach_get (n : os.node) (rel : list string) (m : os.node) :
  distinct n -> reach n rel m -> os.get n rel = Some m /\ distinct m.
Proof.
  intros Hd Hr. induction Hr as [n|perm es c m m' rel Hin Hr IH].
  - now split.
  - apply distinct_Dir in Hd. destruct Hd as [Hnd Hall].
    simpl. rewrite (lookup_In c m es Hnd Hin).
    apply IH. rewrite Forall_forall in Hall. exact (Hall _ Hin).
Qed.

Lemma get_reach (n : os.node) (rel : list string) (m : os.node) :
  os.get n rel = Some m -> reach n rel m.
Proof.
  revert n. induction rel as [|c rel IH]; intros n; simpl.
  - intros [= ->]. constructor.
  - destruct n as [| |perm es]; try discriminate.
    destruct (os.lookup c es) as [child|] eqn:El; [|discriminate].
    intros H. econstructor; [apply lookup_Some_In; eassumption | now apply IH].
Qed.

Lemma get_prefix_dir (n : os.node) (pre suf : list string) (m : os.node) :
  os.get n (pre ++ suf)%list = Some m -> suf <> [] -> is_dir (os.get n pre).
Proof.
  rewrite get_app. destruct (os.get n pre) as [[| |perm es]|]; try discriminate.
  - destruct suf; [congruence | discriminate].
  - destruct suf; [congruence | discriminate].
  - intros _ _. now exists perm, es.
Qed.

(** Below a location at the end of a straight path, the path of an entry
    that is no link is straight. *)
Lemma straight_below (r n : os.node) (t rel : list string) (m : os.node) :
  straight r t -> os.get r t = Some n -> os.get n rel = Some m ->
  (forall l, m <> os.Symlink l) -> straight r (t ++ rel)%list.
Proof.
  intros [Hd Hl] Ht Hrel Hm. split.
  - intros pre suf E Hsuf.
    destruct (Nat.le_gt_cases (List.length t) (List.length pre)) as [Hle|Hgt].
    + assert (Hp : exists x, pre = (t ++ x)%list /\ rel = (x ++ suf)%list).
      { exists (skipn (List.length t) pre).
        assert (E1 : firstn (List.length t) (t ++ rel) = firstn (List.length t) (pre ++ suf))
          by now rewrite E.
        rewrite firstn_app, Nat.sub_diag, firstn_all, firstn_O, app_nil_r in E1.
        rewrite firstn_app in E1.
        replace (List.length t - List.length pre)%nat with 0%nat in E1 by lia.
        rewrite firstn_O, app_nil_r in E1.
        assert (Ep : pre = (t ++ skipn (List.length t) pre)%list).
        { rewrite E1 at 1. apply eq_sym, firstn_skipn. }
        split; [exact Ep|]. rewrite Ep, <- app_assoc in E. now apply app_inv_head in E. }
      destruct Hp as (x & -> & ->). rewrite get_app, Ht.
      now apply (get_prefix_dir n x suf m).
    + apply (Hd pre (skipn (List.length pre) t)).
      * assert (E1 : firstn (List.length pre) (t ++ rel)
                     = firstn (List.length pre) (pre ++ suf)) by now rewrite E.
        rewrite !firstn_app, Nat.sub_diag, firstn_all, firstn_O, app_nil_r in E1.
        replace (List.length pre - List.length t)%nat with 0%nat in E1 by lia.
        rewrite firstn_O, app_nil_r in E1. rewrite <- E1 at 1. apply eq_sym, firstn_skipn.
      * intros E0. apply (f_equal (@List.length string)) in E0.
        rewrite length_skipn in E0. simpl in E0. lia.
  - intros l. rewrite get_app, Ht, Hrel. intros [= E]. now destruct (Hm l).
Qed.

(** *** What a backup writes *)

Lemma namei_with_archives (w : os.World) (A : list (list string * tar.archive))
  (follow : bool) (path : string) :
  os.namei (os.with_archives w A) follow path = os.namei w follow path.
Proof. reflexivity. Qed.

Lemma find_set_archive_other (p q : list string) (a : tar.archive)
  (l : list (list string * tar.archive)) :
  p <> q -> os.find_archive p (os.set_archive q a l) = os.find_archive p l.
Proof.
  intros Hne. induction l as [|[k b] l IH]; simpl.
  - destruct (list_eq_dec string_dec q p); [congruence | reflexivity].
  - destruct (list_eq_dec string_dec k q) as [->|Hk]; simpl.
    + destruct (list_eq_dec string_dec q p); [congruence | reflexivity].
    + destruct (list_eq_dec string_dec k p); [reflexivity | exact IH].
Qed.

Lemma basename_rooted (es : list string) (c : string) :
  names (es ++ [c])%list -> os.basename ("/" ++ strings.Join (es ++ [c])%list) = c.
Proof.
  intros Hn. unfold os.basename.
  rewrite Split_rooted by (apply Hn || now destruct es).
  cbn [filter String.eqb negb]. rewrite filter_nonempty_names by assumption.
  apply last_last.
Qed.

(** The entry of a location at its path, written by [writeEntryNoMessage]:
    the archive grows by the member that describes the entry. *)
Lemma writeEntry_member (w : os.World) (A : list (list string * tar.archive))
  (l : part_000.Location) (ps : list string) (b : string) (q : list string)
  (rel : list string) (m : os.node) (acc : list tar.entry) (tr : option error) :
  part_000.Path l = "/" ++ strings.Join (ps ++ [b])%list ->
  names (ps ++ [b])%list -> names rel -> rel <> [] ->
  straight (os.root w) ((ps ++ [b]) ++ rel)%list ->
  os.get (os.root w) ((ps ++ [b]) ++ rel)%list = Some m ->
  (forall x, m <> os.Symlink x) ->
  os.find_archive q A = Some {| tar.entries := acc; tar.trailer := tr |} ->
  exists A',
    part_000.writeEntryNoMessage l (fresh q) (os.with_archives w A)
      (path_of (part_000.Path l) rel)
    = (fresh q, os.with_archives w A', None)
    /\ os.find_archive q A'
       = Some {| tar.entries := (acc ++ [member_of b (rel, m)])%list; tar.trailer := tr |}
    /\ forall p, p <> q -> os.find_archive p A' = os.find_archive p A.
Proof.
  intros HP Ht Hrel Hne Hst Hg Hm Hf.
  assert (Hall : names ((ps ++ [b]) ++ rel)%list) by now apply names_app.
  assert (Hb : names (b :: rel)).
  { apply names_app in Ht. destruct Ht as [_ Hb].
    change (b :: rel) with ([b] ++ rel)%list. now apply names_app. }
  rewrite HP, path_of_names by assumption.
  unfold part_000.writeEntryNoMessage. rewrite HP.
  unfold os.Stat. rewrite namei_with_archives, namei_straight by assumption.
  simpl bind. unfold os.stat_at. cbn [os.root os.with_archives]. rewrite Hg.
  rewrite Rel_below by (assumption || now destruct ps).
  rewrite Base_rooted by assumption. rewrite Join_base_rel by assumption.
  destruct m as [perm data|x|perm es]; [| now destruct (Hm x) |].
  - (* a regular file *)
    unfold archive_tar.FileInfoHeader, os.info_of.
    cbn [os.Type_ os.Size os.Perm os.Name tar.Typeflag tar.Linkname tar.Size tar.Mode].
    unfold part_003.WriteHeader, archive_tar.WriteHeader, archive_tar.Flush, pgzip.Write,
      os.WriteArchive, fresh.
    cbn [part_003.tar_ part_003.gzip part_003.file archive_tar.err archive_tar.nb
         pgzip.err pgzip.closed os.fd_closed os.fd_path os.archives os.with_archives
         Z.ltb Z.compare].
    rewrite Hf.
    cbn [archive_tar.body_size tar.Typeflag tar.Size os.IsDir os.Type_ negb].
    unfold part_000.copyFileToArchive, os.ReadFile.
    rewrite namei_with_archives, namei_straight by assumption.
    simpl bind. cbn [os.root os.with_archives]. rewrite Hg.
    unfold part_003.Write, archive_tar.Write, pgzip.Write, os.WriteArchive.
    cbn [part_003.tar_ part_003.gzip part_003.file archive_tar.err archive_tar.nb
         pgzip.err pgzip.closed os.fd_closed os.fd_path os.archives os.with_archives].
    rewrite Z.ltb_irrefl, find_set_archive.
    cbn [archive_tar.err archive_tar.nb]. rewrite Z.sub_diag.
    eexists. split; [reflexivity|]. split.
    + rewrite find_set_archive.
      unfold archive_tar.push_data, archive_tar.push_entry, member_of.
      cbn [tar.entries tar.trailer fst snd]. now rewrite append_last_snoc.
    + intros p Hp. now rewrite !find_set_archive_other by assumption.
  - (* a directory *)
    unfold archive_tar.FileInfoHeader, os.info_of.
    cbn [os.Type_ os.Size os.Perm os.Name tar.Typeflag tar.Linkname tar.Size tar.Mode].
    unfold part_003.WriteHeader, archive_tar.WriteHeader, archive_tar.Flush, pgzip.Write,
      os.WriteArchive, fresh.
    cbn [part_003.tar_ part_003.gzip part_003.file archive_tar.err archive_tar.nb
         pgzip.err pgzip.closed os.fd_closed os.fd_path os.archives os.with_archives
         Z.ltb Z.compare].
    rewrite Hf.
    cbn [archive_tar.body_size tar.Typeflag tar.Size os.IsDir os.Type_ negb].
    eexists. split; [reflexivity|]. split.
    + rewrite find_set_archive.
      unfold archive_tar.push_entry, member_of. cbn [tar.entries tar.trailer fst snd].
      reflexivity.
    + intros p Hp. now rewrite find_set_archive_other by assumption.
Qed.

Lemma writeToArchive_members (w : os.World) (l : part_000.Location)
  (ps : list string) (b : string) (q : list string) (tr : option error) :
  part_000.Path l = "/" ++ strings.Join (ps ++ [b])%list ->
  names (ps ++ [b])%list ->
  forall xs, Forall (writable (os.root w) (ps ++ [b])%list) xs ->
  forall i A acc,
    os.find_archive q A = Some {| tar.entries := acc; tar.trailer := tr |} ->
    exists A',
      part_000.writeToArchive_loop l (fresh q) (os.with_archives w A) i
        (map (fun x => path_of (part_000.Path l) (fst x)) xs)
      = (fresh q, os.with_archives w A', None)
      /\ os.find_archive q A'
         = Some {| tar.entries := (acc ++ map (member_of b) xs)%list; tar.trailer := tr |}
      /\ forall p, p <> q -> os.find_archive p A' = os.find_archive p A.
Proof.
  intros HP Ht xs Hxs. induction Hxs as [|[rel m] xs Hx _ IH]; intros i A acc Hf.
  - exists A. split; [reflexivity|]. split; [now rewrite app_nil_r | reflexivity].
  - destruct Hx as (Hrel & Hne & Hst & Hg & Hm). cbn [fst snd] in *.
    destruct (writeEntry_member w A l ps b q rel m acc tr HP Ht Hrel Hne Hst Hg Hm Hf)
      as (A1 & Hw & Hf1 & Ho1).
    cbn [map part_000.writeToArchive_loop fst].
    replace (if Nat.eqb (i mod 50) 0
             then part_000.writeEntry l (fresh q) (os.with_archives w A)
                    (path_of (part_000.Path l) rel)
             else part_000.writeEntryNoMessage l (fresh q) (os.with_archives w A)
                    (path_of (part_000.Path l) rel))
      with (part_000.writeEntryNoMessage l (fresh q) (os.with_archives w A)
              (path_of (part_000.Path l) rel))
      by (destruct (Nat.eqb (i mod 50) 0); reflexivity).
    rewrite Hw. destruct (IH (S i) A1 _ Hf1) as (A' & Hl & Hf' & Ho').
    exists A'. split; [exact Hl|]. split.
    + rewrite Hf'. now rewrite <- app_assoc.
    + intros p Hp. now rewrite Ho', Ho1 by assumption.
Qed.

Lemma kept_writable (r n : os.node) (t : list string) (ignore : list string) :
  straight r t -> os.get r t = Some n -> wf n -> distinct n ->
  nolinks (kept ignore [] n) ->
  Forall (writable r t) (kept ignore [] n).
Proof.
  intros Hst Ht Hwf Hd Hnl. apply Forall_forall. intros [x m] Hin.
  unfold nolinks in Hnl. rewrite Forall_forall in Hnl. specialize (Hnl _ Hin).
  apply kept_spec in Hin. destruct Hin as (rel & Hne & -> & Hr & _).
  destruct (reach_names _ _ _ Hwf Hr) as [Hn _].
  destruct (reach_get _ _ _ Hd Hr) as [Hg _].
  unfold writable. cbn [fst snd app] in *.
  split; [assumption|]. split; [assumption|].
  split; [now apply straight_below with n m|].
  split; [now rewrite get_app, Ht | assumption].
Qed.

Lemma Close_ready (w : os.World) (q : list string) (a : tar.archive) :
  os.find_archive q (os.archives w) = Some a ->
  exists aw' w',
    part_003.Close (fresh q) w = (aw', w', None)
    /\ os.find_archive q (os.archives w')
       = Some {| tar.entries := tar.entries a; tar.trailer := None |}
    /\ os.root w' = os.root w
    /\ (os.HOME w' = os.HOME w /\ os.wd w' = os.wd w /\ os.umask w' = os.umask w)
    /\ forall p, p <> q -> os.find_archive p (os.archives w') = os.find_archive p (os.archives w).
Proof.
  intros Hf. unfold part_003.Close, archive_tar.Close, archive_tar.Flush, pgzip.Write,
    pgzip.Close, os.WriteArchive, os.Close, fresh. simpl. rewrite Hf. simpl.
  rewrite find_set_archive. simpl. eexists _, _. split; [reflexivity|]. simpl.
  rewrite find_set_archive. repeat split.
  intros p Hp. now rewrite !find_set_archive_other by assumption.
Qed.

(** The backup of a location, with all it leaves as it was: the tree, the
    home and working directory, the umask, and every archive but its own. *)
Lemma backupLocation_frame
  (w : os.World) (loc : part_000.Location) (outputDir : string)
  (ps : list string) (b : string) (q : list string) (n : os.node) :
  part_003.normalizePath w (part_000.Path loc) = Ok ("/" ++ strings.Join (ps ++ [b])%list) ->
  names (ps ++ [b])%list ->
  straight (os.root w) (ps ++ [b])%list ->
  os.get (os.root w) (ps ++ [b])%list = Some n -> wf n -> distinct n ->
  nolinks (kept (part_000.Ignore loc) [] n) ->
  os.namei w true (part_000.archivePath_of_backup loc outputDir) = Ok q ->
  (forall perm es, os.get (os.root w) q <> Some (os.Dir perm es)) ->
  exists w1,
    part_000.backupLocation w loc outputDir = (w1, None)
    /\ os.find_archive q (os.archives w1)
       = Some {| tar.entries := map (member_of b) (kept (part_000.Ignore loc) [] n);
                 tar.trailer := None |}
    /\ os.root w1 = os.root w
    /\ (os.HOME w1 = os.HOME w /\ os.wd w1 = os.wd w /\ os.umask w1 = os.umask w)
    /\ forall p, p <> q -> os.find_archive p (os.archives w1) = os.find_archive p (os.archives w).
Proof.
  intros Hnorm Ht Hst Hg Hwf Hd Hnl Hq Hnd.
  set (target := "/" ++ strings.Join (ps ++ [b])%list) in *.
  set (loc1 := {| part_000.Path := target; part_000.Ignore := part_000.Ignore loc;
                  part_000.index := part_000.index loc;
                  part_000.totalSize := part_000.totalSize loc |}).
  destruct (part_000_scan_collect w loc1 (ps ++ [b])%list n) as (l' & Hs & HP & Hi & _); auto.
  { now apply names_normal. }
  { now apply namei_straight. }
  unfold part_000.backupLocation. rewrite Hnorm. fold loc1. rewrite Hs.
  unfold part_003.newArchiveWriter, os.Create.
  unfold part_000.archivePath_of_backup in Hq. rewrite Hq.
  set (A0 := os.set_archive q tar.empty (os.archives w)).
  assert (Hc : match os.get (os.root w) q with
               | Some (os.Dir _ _) => (w, Err EISDIR)
               | _ => (os.with_archives w A0,
                       Ok {| os.fd_path := q; os.fd_closed := false |})
               end = (os.with_archives w A0,
                      Ok {| os.fd_path := q; os.fd_closed := false |})).
  { destruct (os.get (os.root w) q) as [[| |perm es]|]; try reflexivity.
    now destruct (Hnd perm es). }
  rewrite Hc.
  change (pgzip.NewWriterLevel pgzip.DefaultCompression)
    with (Ok {| pgzip.err := None; pgzip.closed := false |}). cbv iota.
  change {| part_003.tar_ := archive_tar.NewWriter;
            part_003.gzip := {| pgzip.err := None; pgzip.closed := false |};
            part_003.file := {| os.fd_path := q; os.fd_closed := false |} |}
    with (fresh q).
  unfold part_000.writeToArchive. rewrite Hi. simpl part_000.Path in HP.
  assert (HP' : part_000.Path l' = "/" ++ strings.Join (ps ++ [b])%list) by exact HP.
  cbn [part_000.Path part_000.Ignore loc1].
  replace target with (part_000.Path l') by exact HP.
  destruct (writeToArchive_members w l' ps b q (Some ErrUnexpectedEOF) HP' Ht
              (kept (part_000.Ignore loc) [] n)
              (kept_writable _ _ _ _ Hst Hg Hwf Hd Hnl) 0 A0 [])
    as (A' & Hw & Hf & Ho).
  { unfold A0. apply find_set_archive. }
  rewrite Hw.
  destruct (Close_ready (os.with_archives w A') q _ Hf)
    as (aw' & w3 & Hcl & Hf3 & Hr3 & Hsame & Ho3).
  rewrite Hcl. exists w3. split; [reflexivity|]. split; [exact Hf3|].
  split; [exact Hr3|]. split; [exact Hsame|].
  intros p Hp. rewrite Ho3, Ho by assumption. cbn [os.archives os.with_archives].
  unfold A0. now apply find_set_archive_other.
Qed.

Lemma backupLocation_writes
  (w : os.World) (loc : part_000.Location) (outputDir : string)
  (ps : list string) (b : string) (q : list string) (n : os.node) :
  part_003.normalizePath w (part_000.Path loc) = Ok ("/" ++ strings.Join (ps ++ [b])%list) ->
  names (ps ++ [b])%list ->
  straight (os.root w) (ps ++ [b])%list ->
  os.get (os.root w) (ps ++ [b])%list = Some n -> wf n -> distinct n ->
  nolinks (kept (part_000.Ignore loc) [] n) ->
  os.namei w true (part_000.archivePath_of_backup loc outputDir) = Ok q ->
  (forall perm es, os.get (os.root w) q <> Some (os.Dir perm es)) ->
  exists w1,
    part_000.backupLocation w loc outputDir = (w1, None)
    /\ os.find_archive q (os.archives w1)
       = Some {| tar.entries := map (member_of b) (kept (part_000.Ignore loc) [] n);
                 tar.trailer := None |}
    /\ os.root w1 = os.root w.
Proof.
  intros Hnorm Ht Hst Hg Hwf Hd Hnl Hq Hnd.
  destruct (backupLocation_frame w loc outputDir ps b q n Hnorm Ht Hst Hg Hwf Hd Hnl Hq Hnd)
    as (w1 & H1 & H2 & H3 & _).
  now exists w1.
Qed.


(** *** The effect of a store on the tree *)

Lemma is_prefix_dec (p q : list string) : {is_prefix p q} + {~ is_prefix p q}.
Proof.
  revert q. induction p as [|c p IH]; intros q.
  - left. now exists q.
  - destruct q as [|c' q]; [right; intros [t H]; discriminate|].
    destruct (string_dec c c') as [->|Hne].
    + destruct (IH q) as [H|H].
      * left. destruct H as [t ->]. now exists t.
      * right. intros [t Ht]. injection Ht as ->. apply H. now exists t.
    + right. intros [t Ht]. injection Ht as <- _. congruence.
Defined.

Lemma is_prefix_refl (p : list string) : is_prefix p p.
Proof. exists []. now rewrite app_nil_r. Qed.

Lemma is_prefix_cons (c : string) (p q : list string) :
  is_prefix (c :: p) (c :: q) <-> is_prefix p q.
Proof.
  split; intros [t Ht]; exists t; [now injection Ht | simpl; now rewrite Ht].
Qed.

(** What a store at [p] that succeeds needs above [p]. *)
Lemma put_above_dir (n : os.node) (p : list string) :
  forall r r' y z, os.put r p n = Some r' -> p = (y ++ z)%list -> z <> [] ->
    exists perm es es', os.get r y = Some (os.Dir perm es)
                        /\ os.get r' y = Some (os.Dir perm es').
Proof.
  induction p as [|c p IH]; intros r r' y z Hput E Hz.
  - destruct y; [|discriminate]. simpl in E. congruence.
  - simpl in Hput. destruct r as [| |perm es]; try discriminate.
    assert (Hsub : exists ch', r' = os.Dir perm (os.set_child c ch' es)
              /\ match os.lookup c es with
                 | Some child => os.put child p n = Some ch'
                 | None => p = [] /\ ch' = n
                 end).
    { destruct (os.lookup c es) as [child|].
      - destruct (os.put child p n) as [ch'|]; [|discriminate].
        injection Hput as <-. now exists ch'.
      - destruct p; [|discriminate]. injection Hput as <-. now exists n. }
    destruct Hsub as (ch' & -> & Hch).
    destruct y as [|c' y]; [simpl; eauto|].
    simpl in E. injection E as <- E. simpl. rewrite lookup_set_child_eq.
    destruct (os.lookup c es) as [child|].
    + now apply IH with z.
    + destruct Hch as [-> _]. destruct y; [|discriminate]. simpl in E. congruence.
Qed.

(** Below a leaf that was stored there is nothing. *)
Lemma put_below_none (n : os.node) (p x : list string) (r r' : os.node) :
  os.put r p n = Some r' -> leaf n -> x <> [] -> os.get r' (p ++ x)%list = None.
Proof.
  intros Hput Hl Hx. rewrite get_app, (put_get_eq _ _ _ _ Hput). now apply get_leaf.
Qed.

Lemma extends_refl (r : os.node) : extends r r.
Proof. intros y. destruct (os.get r y) as [[| |perm es]|]; eauto. Qed.

Lemma extends_trans (r1 r2 r3 : os.node) : extends r1 r2 -> extends r2 r3 -> extends r1 r3.
Proof.
  intros H12 H23 y. specialize (H12 y).
  destruct (os.get r1 y) as [[perm data|l|perm es]|]; auto.
  - specialize (H23 y). now rewrite H12 in H23.
  - specialize (H23 y). now rewrite H12 in H23.
  - destruct H12 as (es' & E). specialize (H23 y). now rewrite E in H23.
Qed.

Lemma put_new_extends (n : os.node) (p : list string) (r r' : os.node) :
  os.put r p n = Some r' -> os.get r p = None -> extends r r'.
Proof.
  intros Hput Hnone y.
  destruct (is_prefix_dec y p) as [[z Hz]|Hyp].
  - destruct z as [|c z].
    + rewrite app_nil_r in Hz. subst y. now rewrite Hnone.
    + destruct (put_above_dir n p r r' y (c :: z) Hput Hz) as (perm & es & es' & E1 & E2);
        [discriminate|].
      rewrite E1. eauto.
  - destruct (is_prefix_dec p y) as [[z Hz]|Hpy].
    + subst y. rewrite get_app, Hnone. exact I.
    + rewrite <- (put_get_other n p r r' y Hput Hyp Hpy).
      destruct (os.get r' y) as [[| |perm es]|]; eauto.
Qed.

(** Storing a leaf where nothing was brings nothing but the leaf. *)
Lemma put_new_only (n : os.node) (p : list string) (r r' : os.node) :
  os.put r p n = Some r' -> leaf n ->
  forall y, os.get r' y <> None -> y = p \/ os.get r y <> None.
Proof.
  intros Hput Hl y Hy.
  destruct (is_prefix_dec y p) as [[z Hz]|Hyp].
  - destruct z as [|c z]; [rewrite app_nil_r in Hz; now left|].
    destruct (put_above_dir n p r r' y (c :: z) Hput Hz) as (perm & es & es' & E1 & E2);
      [discriminate|].
    right. now rewrite E1.
  - destruct (is_prefix_dec p y) as [[z Hz]|Hpy].
    + destruct z as [|c z]; [rewrite app_nil_r in Hz; now left|].
      subst y. rewrite (put_below_none n p (c :: z) r r' Hput Hl) in Hy by discriminate.
      congruence.
    + right. now rewrite <- (put_get_other n p r r' y Hput Hyp Hpy).
Qed.

(** Content written to the file at [p] changes that file only. *)
Lemma put_file_other (p : list string) (perm perm' : Z) (old data : string) (r r' : os.node) :
  os.get r p = Some (os.File perm old) ->
  os.put r p (os.File perm' data) = Some r' ->
  forall y, y <> p ->
    match os.get r y with
    | Some (os.Dir dperm _) => exists es', os.get r' y = Some (os.Dir dperm es')
    | o => os.get r' y = o
    end.
Proof.
  intros Hold Hput y Hy.
  destruct (is_prefix_dec y p) as [[z Hz]|Hyp].
  - destruct z as [|c z]; [rewrite app_nil_r in Hz; congruence|].
    destruct (put_above_dir _ p r r' y (c :: z) Hput Hz) as (dperm & es & es' & E1 & E2);
      [discriminate|].
    rewrite E1. eauto.
  - destruct (is_prefix_dec p y) as [[z Hz]|Hpy].
    + destruct z as [|c z]; [rewrite app_nil_r in Hz; congruence|].
      subst y. rewrite !get_app, Hold, (put_get_eq _ _ _ _ Hput). reflexivity.
    + rewrite (put_get_other _ p r r' y Hput Hyp Hpy).
      destruct (os.get r y) as [[| |dperm es]|]; eauto.
Qed.

(** *** Operations on paths that lead through directories *)

Lemma straight_of_get (r : os.node) (es : list string) (m : os.node) :
  os.get r es = Some m -> (forall l, m <> os.Symlink l) -> straight r es.
Proof.
  intros Hg Hm. split.
  - intros pre suf -> Hsuf. now apply get_prefix_dir with suf m.
  - intros l. rewrite Hg. intros [= E]. now destruct (Hm l).
Qed.

Lemma straight_child (r : os.node) (d : list string) (c : string) :
  is_dir (os.get r d) ->
  (forall l, os.get r (d ++ [c])%list <> Some (os.Symlink l)) ->
  straight r (d ++ [c])%list.
Proof.
  intros (perm & es & Hd) Hl. split; [|exact Hl].
  intros pre suf E Hsuf.
  destruct (exists_last Hsuf) as (suf' & x & ->).
  rewrite app_assoc in E. apply app_inj_tail in E. destruct E as [-> _].
  destruct suf' as [|y suf'].
  - rewrite app_nil_r in Hd. now exists perm, es.
  - apply get_prefix_dir with (y :: suf') (os.Dir perm es); [assumption | discriminate].
Qed.

Lemma get_prefix_dir_or_self (n : os.node) (pre suf : list string) (m : os.node) :
  os.get n (pre ++ suf)%list = Some m -> is_dir (Some m) -> is_dir (os.get n pre).
Proof.
  intros Hg Hm. destruct suf as [|c suf].
  - rewrite app_nil_r in Hg. now rewrite Hg.
  - apply get_prefix_dir with (c :: suf) m; [assumption | discriminate].
Qed.

Lemma Stat_dir (w : os.World) (es : list string) (perm : Z) (l : list (string * os.node)) :
  names es -> os.get (os.root w) es = Some (os.Dir perm l) ->
  exists fi, os.Stat w ("/" ++ strings.Join es) = Ok fi /\ os.IsDir fi = true.
Proof.
  intros Hn Hg. unfold os.Stat.
  rewrite namei_straight; [|assumption | now apply straight_of_get with (os.Dir perm l)].
  simpl bind. unfold os.stat_at. rewrite Hg. eexists. split; reflexivity.
Qed.

Lemma Stat_missing (w : os.World) (es : list string) :
  names es -> straight (os.root w) es ->
  os.get (os.root w) es = None -> os.find_archive es (os.archives w) = None ->
  os.Stat w ("/" ++ strings.Join es) = Err ENOENT.
Proof.
  intros Hn Hs Hg Hf. unfold os.Stat. rewrite namei_straight by assumption.
  simpl bind. unfold os.stat_at. now rewrite Hg, Hf.
Qed.

Lemma child_straight_missing (r : os.node) (d : list string) (c : string) :
  is_dir (os.get r d) -> os.get r (d ++ [c])%list = None -> straight r (d ++ [c])%list.
Proof. intros Hd Hn. apply straight_child; [assumption|]. intros l. now rewrite Hn. Qed.

Lemma Mkdir_new (w : os.World) (d : list string) (c : string) (perm : Z) :
  names (d ++ [c])%list -> is_dir (os.get (os.root w) d) ->
  os.get (os.root w) (d ++ [c])%list = None ->
  os.find_archive (d ++ [c])%list (os.archives w) = None ->
  exists r', os.put (os.root w) (d ++ [c])%list (os.Dir (os.masked w perm) []) = Some r'
             /\ os.Mkdir w ("/" ++ strings.Join (d ++ [c])%list) perm
                = (os.with_root w r', None).
Proof.
  intros Hn Hd Hg Hf. unfold os.Mkdir.
  rewrite namei_straight by (assumption || now apply child_straight_missing).
  unfold os.stat_at. rewrite Hg, Hf.
  destruct Hd as (dperm & es & Hd).
  destruct (put_new (os.Dir (os.masked w perm) []) c d _ _ _ Hd) as (r' & Hput).
  exists r'. split; [assumption|]. unfold os.store. now rewrite Hput.
Qed.

Lemma render_rooted (es : list string) : os.render true es = "/" ++ strings.Join es.
Proof. reflexivity. Qed.

Lemma mkdirAll_existing (w : os.World) (es : list string) (perm dperm : Z)
  (l : list (string * os.node)) :
  names es -> os.get (os.root w) es = Some (os.Dir dperm l) ->
  os.mkdirAll w true (rev es) perm = (w, None).
Proof.
  intros Hn Hg. rewrite mkdirAll_eq. cbv zeta. rewrite rev_involutive, render_rooted.
  destruct (Stat_dir w es dperm l Hn Hg) as (fi & -> & ->). reflexivity.
Qed.

Lemma mkdirAll_new (w : os.World) (d : list string) (c : string) (perm : Z) :
  names (d ++ [c])%list -> is_dir (os.get (os.root w) d) ->
  os.get (os.root w) (d ++ [c])%list = None ->
  os.find_archive (d ++ [c])%list (os.archives w) = None ->
  exists r', os.put (os.root w) (d ++ [c])%list (os.Dir (os.masked w perm) []) = Some r'
             /\ os.mkdirAll w true (rev (d ++ [c])%list) perm = (os.with_root w r', None).
Proof.
  intros Hn Hd Hg Hf.
  destruct (Mkdir_new w d c perm Hn Hd Hg Hf) as (r' & Hput & Hmk).
  exists r'. split; [assumption|].
  rewrite mkdirAll_eq. cbv zeta. rewrite rev_involutive, render_rooted.
  rewrite Stat_missing by (assumption || now apply child_straight_missing).
  rewrite rev_app_distr. cbn [rev app orb].
  destruct Hd as (dperm & es & Hd).
  apply names_app in Hn. destruct Hn as [Hnd _].
  rewrite (mkdirAll_existing w d perm dperm es Hnd Hd). now rewrite Hmk.
Qed.

Lemma MkdirAll_rooted (w : os.World) (es : list string) (perm : Z) :
  names es ->
  os.MkdirAll w ("/" ++ strings.Join es) perm = os.mkdirAll w true (rev es) perm.
Proof.
  intros Hn. unfold os.MkdirAll.
  change (strings.HasPrefix ("/" ++ strings.Join es) "/") with true.
  replace (filter (fun c => negb (String.eqb c "")) (strings.Split ("/" ++ strings.Join es)))
    with es; [reflexivity|].
  destruct es as [|e es']; [reflexivity|].
  destruct Hn as [Hp Hs]. rewrite Split_rooted by (assumption || discriminate).
  symmetry. apply (filter_nonempty_names (e :: es')). now split.
Qed.

(** [extractFile] where no file is: the file is made with the bits of the
    header less the umask, and filled. *)
Lemma extractFile_new (w : os.World) (d : list string) (c : string)
  (content : string) (mode : Z) :
  names (d ++ [c])%list -> is_dir (os.get (os.root w) d) ->
  os.get (os.root w) (d ++ [c])%list = None ->
  exists r1 r2,
    os.put (os.root w) (d ++ [c])%list (os.File (os.masked w mode) "") = Some r1
    /\ os.put r1 (d ++ [c])%list (os.File (os.masked w mode) content) = Some r2
    /\ part_000.extractFile w content ("/" ++ strings.Join (d ++ [c])%list) mode
       = (os.with_root w r2, None).
Proof.
  intros Hn Hd Hg. unfold part_000.extractFile, os.OpenFile_create_trunc.
  rewrite namei_straight by (assumption || now apply child_straight_missing).
  rewrite Hg. destruct Hd as (dperm & es & Hd).
  destruct (put_new (os.File (os.masked w mode) "") c d _ _ _ Hd) as (r1 & Hput1).
  unfold os.store at 1. rewrite Hput1.
  unfold os.Write. cbn [os.fd_closed os.fd_path os.root os.with_root].
  rewrite (put_get_eq _ _ _ _ Hput1).
  destruct (put_exists (os.File (os.masked w mode) ("" ++ content)) (d ++ [c])%list r1 _
              (put_get_eq _ _ _ _ Hput1)) as (r2 & Hput2).
  unfold os.store. cbn [os.root os.with_root]. rewrite Hput2.
  exists r1, r2. repeat split; assumption.
Qed.

(** *** Extracting a member *)

Lemma member_path (ps : list string) (b : string) (rel : list string) :
  names (ps ++ [b])%list -> names rel ->
  filepath.Join ["/" ++ strings.Join ps; strings.Join (b :: rel)]
  = "/" ++ strings.Join ((ps ++ [b]) ++ rel)%list.
Proof.
  intros Ht Hrel. apply names_app in Ht. destruct Ht as [Hps Hb].
  assert (Hbr : names (b :: rel)).
  { change (b :: rel) with ([b] ++ rel)%list. now apply names_app. }
  rewrite Join_parent; [|assumption|].
  - rewrite Split_Join by (discriminate || apply Hbr).
    rewrite filter_plain_id by apply Hbr. now rewrite <- app_assoc.
  - rewrite Split_Join by (discriminate || apply Hbr).
    apply plain_no_dotdot, Hbr.
Qed.

Lemma member_legal (ps : list string) (b : string) (rel : list string) :
  names (ps ++ [b])%list -> ps <> [] -> names rel ->
  part_000.illegal_path ("/" ++ strings.Join ps) (strings.Join (b :: rel)) = false.
Proof.
  intros Ht Hne Hrel. unfold part_000.illegal_path.
  rewrite member_path by assumption.
  assert (Hall : names ((ps ++ [b]) ++ rel)%list) by now apply names_app.
  assert (Hps : names ps) by (apply names_app in Ht; apply Ht).
  destruct (names_normal _ Hall) as [_ ->]. destruct (names_normal _ Hps) as [_ ->].
  replace (strings.HasPrefix _ _) with true; [reflexivity|].
  symmetry. apply HasPrefix_app. exists (strings.Join (b :: rel)).
  rewrite <- app_assoc. cbn [app].
  rewrite Join_app by (assumption || discriminate).
  unfold filepath.Separator. simpl. now rewrite append_assoc.
Qed.

Lemma resolve_through (r : os.node) (fuel : nat) (follow : bool) (rest : list string) :
  forall pre cur,
    names pre ->
    (forall x y, pre = (x ++ y)%list -> is_dir (os.get r (cur ++ x)%list)) ->
    os.resolve fuel r follow cur (pre ++ rest)%list
    = os.resolve fuel r follow (cur ++ pre)%list rest.
Proof.
  induction pre as [|c pre IH]; intros cur Hn Hd.
  - now rewrite app_nil_r.
  - cbn [app]. rewrite resolve_cons.
    destruct (Hd [] (c :: pre) eq_refl) as (perm & es & E).
    rewrite app_nil_r in E. rewrite E.
    change (c :: pre) with ([c] ++ pre)%list in Hn.
    apply names_app in Hn. destruct Hn as [[Hc _] Hpre].
    inversion Hc as [|? ? Hpc _]; subst. apply plain_cases in Hpc.
    destruct Hpc as (_ & _ & ->).
    destruct (Hd [c] pre eq_refl) as (perm' & es' & E'). rewrite E'.
    rewrite IH; [now rewrite <- app_assoc | assumption |].
    intros x y Hxy. rewrite <- app_assoc. apply (Hd ([c] ++ x)%list y).
    simpl. now rewrite Hxy.
Qed.

(** A path below a directory that is missing names nothing. *)
Lemma Stat_below_missing (w : os.World) (d : list string) (b c : string) :
  names ((d ++ [b]) ++ [c])%list ->
  straight (os.root w) d ->
  is_dir (os.get (os.root w) d) ->
  os.get (os.root w) (d ++ [b])%list = None ->
  exists e, os.Stat w ("/" ++ strings.Join ((d ++ [b]) ++ [c])%list) = Err e.
Proof.
  intros Hn Hs Hd Hg. unfold os.Stat, os.namei. simpl String.eqb. cbv iota.
  change (strings.HasPrefix ("/" ++ strings.Join ((d ++ [b]) ++ [c])%list) "/") with true.
  cbv iota. rewrite elems_rooted by assumption.
  rewrite <- app_assoc.
  assert (Hnd : names d) by (apply names_app in Hn; destruct Hn as [Hn _];
                             apply names_app in Hn; apply Hn).
  rewrite (resolve_through (os.root w) os.MAXSYMLINKS true ([b] ++ [c])%list d []).
  - cbn [app]. rewrite resolve_cons. destruct Hd as (perm & es & ->).
    apply names_app in Hn. destruct Hn as [Hn _]. apply names_app in Hn.
    destruct Hn as [_ [Hb _]]. inversion Hb as [|? ? Hpb _]; subst.
    apply plain_cases in Hpb. destruct Hpb as (_ & _ & ->).
    rewrite Hg. eexists. reflexivity.
  - assumption.
  - intros x y Hxy. cbn [app]. destruct y as [|z y].
    + rewrite app_nil_r in Hxy. now subst.
    + destruct Hs as [Hs _]. apply (Hs x (z :: y)); [assumption | discriminate].
Qed.

Lemma put_dir_new (r r1 : os.node) (p : list string) (perm : Z) :
  os.get r p = None ->
  os.put r p (os.Dir perm []) = Some r1 ->
  extends r r1 /\ os.get r1 p = Some (os.Dir perm [])
  /\ forall y, os.get r1 y <> None -> y = p \/ os.get r y <> None.
Proof.
  intros Hn Hput. split; [now apply put_new_extends with (os.Dir perm []) p|].
  split; [now apply put_get_eq with r|].
  now apply put_new_only with (os.Dir perm []).
Qed.

Lemma put_file_new (r r1 r2 : os.node) (p : list string) (perm : Z) (data : string) :
  os.get r p = None ->
  os.put r p (os.File perm "") = Some r1 ->
  os.put r1 p (os.File perm data) = Some r2 ->
  extends r r2 /\ os.get r2 p = Some (os.File perm data)
  /\ forall y, os.get r2 y <> None -> y = p \/ os.get r y <> None.
Proof.
  intros Hn Hput1 Hput2.
  assert (H1 := put_get_eq _ _ _ _ Hput1).
  assert (Hother := put_file_other p perm perm "" data r1 r2 H1 Hput2).
  split; [|split; [now apply put_get_eq with r1|]].
  - intros y. destruct (list_eq_dec string_dec y p) as [->|Hne]; [now rewrite Hn|].
    assert (He := put_new_extends _ _ _ _ Hput1 Hn y). specialize (Hother y Hne).
    destruct (os.get r y) as [[fperm fdata|l|dperm es]|]; auto.
    + now rewrite He in Hother.
    + now rewrite He in Hother.
    + destruct He as (es' & He). now rewrite He in Hother.
  - intros y Hy. destruct (list_eq_dec string_dec y p) as [->|Hne]; [now left|].
    specialize (Hother y Hne).
    apply (put_new_only _ _ _ _ Hput1 I y).
    destruct (os.get r1 y) as [[| |dperm es]|]; try discriminate.
    now rewrite Hother in Hy.
Qed.

Lemma extends_dir (r r' : os.node) (p : list string) :
  extends r r' -> is_dir (os.get r p) -> is_dir (os.get r' p).
Proof.
  intros He (perm & es & Hg). specialize (He p). rewrite Hg in He.
  destruct He as (es' & He). now exists perm, es'.
Qed.

Lemma extends_restored (w : os.World) (r r' : os.node) (p : list string) (m : os.node) :
  extends r r' -> restored w r p m -> restored w r' p m.
Proof.
  intros He Hr. specialize (He p). destruct m as [perm data|l|perm es]; simpl in *.
  - now rewrite Hr in He.
  - now rewrite Hr in He.
  - destruct Hr as (es0 & Hr). now rewrite Hr in He.
Qed.

(** One member of the archive of a location, extracted where its parent
    directory is there, or where the location itself is still missing and
    the member lies directly in it. *)
Lemma extractEntry_step (w : os.World) (ps : list string) (b : string) (r : os.node)
  (rel' : list string) (c : string) (m : os.node) :
  names (ps ++ [b])%list -> names (rel' ++ [c])%list ->
  (forall l, m <> os.Symlink l) ->
  is_dir (os.get r ps) ->
  is_dir (os.get r ((ps ++ [b]) ++ rel')%list)
  \/ (rel' = [] /\ os.get r (ps ++ [b])%list = None) ->
  os.get r (((ps ++ [b]) ++ rel') ++ [c])%list = None ->
  (forall x, os.find_archive ((ps ++ [b]) ++ x)%list (os.archives w) = None) ->
  exists r',
    part_000.extractEntry (os.with_root w r) ("/" ++ strings.Join ps)
      (member_of b ((rel' ++ [c])%list, m))
    = (os.with_root w r', None)
    /\ extends r r'
    /\ restored w r' (((ps ++ [b]) ++ rel') ++ [c])%list m
    /\ (forall y, os.get r' y <> None ->
          y = (((ps ++ [b]) ++ rel') ++ [c])%list \/ y = (ps ++ [b])%list
          \/ os.get r y <> None)
    /\ is_dir (os.get r' (ps ++ [b])%list).
Proof.
  intros Ht Hrel Hm Hps Hpar Hnone Harch.
  set (t := (ps ++ [b])%list) in *. set (d := (t ++ rel')%list) in *.
  assert (Hd : names d).
  { apply names_app. split; [assumption|]. apply names_app in Hrel. apply Hrel. }
  assert (Hp : names (d ++ [c])%list).
  { apply names_app. split; [assumption|]. apply names_app in Hrel. apply Hrel. }
  assert (Ex : filepath.Join ["/" ++ strings.Join ps; strings.Join (b :: rel' ++ [c])]
               = "/" ++ strings.Join (d ++ [c])%list).
  { rewrite member_path by assumption. unfold d, t. now rewrite !app_assoc. }
  assert (Hfp : os.find_archive (d ++ [c])%list (os.archives w) = None).
  { unfold d. rewrite <- app_assoc. apply Harch. }
  assert (Hft : os.find_archive t (os.archives w) = None).
  { rewrite <- (app_nil_r t). apply Harch. }
  unfold part_000.extractEntry.
  destruct m as [perm data|l|perm es]; [| now destruct (Hm l) |];
    unfold member_of; cbn [fst snd tar.hdr tar.payload tar.Typeflag tar.Name tar.Mode];
    rewrite Ex.
  - (* a regular file *)
    rewrite Dir_rooted by assumption. rewrite MkdirAll_rooted by assumption.
    destruct Hpar as [Hdir | [-> Htn]].
    + destruct Hdir as (dperm & des & Hdir).
      rewrite (mkdirAll_existing (os.with_root w r) d 493 dperm des Hd Hdir).
      destruct (extractFile_new (os.with_root w r) d c data perm Hp
                  (ex_intro _ dperm (ex_intro _ des Hdir)) Hnone)
        as (r1 & r2 & Hput1 & Hput2 & ->).
      destruct (put_file_new r r1 r2 (d ++ [c])%list _ data Hnone Hput1 Hput2)
        as (He & Hg & Honly).
      exists r2. split; [reflexivity|]. split; [assumption|]. split; [exact Hg|].
      split; [intros y Hy; destruct (Honly y Hy); auto|].
      apply extends_dir with r; [assumption|].
      unfold d in Hdir. apply get_prefix_dir_or_self with rel' (os.Dir dperm des); auto.
      now exists dperm, des.
    + unfold d in *. rewrite app_nil_r in *. subst t.
      destruct (mkdirAll_new (os.with_root w r) ps b 493 Ht Hps Htn Hft)
        as (r1 & Hput1 & ->).
      destruct (put_dir_new r r1 (ps ++ [b])%list _ Htn Hput1) as (He1 & Hg1 & Honly1).
      assert (Hn1 : os.get r1 ((ps ++ [b]) ++ [c])%list = None)
        by (apply (put_below_none _ _ [c] _ _ Hput1 I); discriminate).
      change (os.with_root (os.with_root w r) r1) with (os.with_root w r1).
      destruct (extractFile_new (os.with_root w r1) (ps ++ [b])%list c data perm Hp)
        as (r2 & r3 & Hput2 & Hput3 & ->).
      { cbn [os.root os.with_root]. rewrite Hg1. eexists _, _. reflexivity. }
      { exact Hn1. }
      cbn [os.root os.with_root] in Hput2.
      destruct (put_file_new r1 r2 r3 ((ps ++ [b]) ++ [c])%list _ data Hn1 Hput2 Hput3)
        as (He & Hg & Honly).
      exists r3. split; [reflexivity|].
      split; [now apply extends_trans with r1|]. split; [exact Hg|].
      split.
      * intros y Hy. destruct (Honly y Hy) as [->|Hy1]; [now left|].
        destruct (Honly1 y Hy1); auto.
      * apply extends_dir with r1; [assumption|]. rewrite Hg1. eexists _, _. reflexivity.
  - (* a directory *)
    rewrite MkdirAll_rooted by assumption.
    destruct Hpar as [Hdir | [-> Htn]].
    + destruct (mkdirAll_new (os.with_root w r) d c perm Hp Hdir Hnone Hfp)
        as (r1 & Hput1 & ->).
      destruct (put_dir_new r r1 (d ++ [c])%list _ Hnone Hput1) as (He1 & Hg1 & Honly1).
      exists r1. split; [reflexivity|]. split; [assumption|].
      split; [now exists []|].
      split; [intros y Hy; destruct (Honly1 y Hy); auto|].
      apply extends_dir with r; [assumption|].
      destruct Hdir as (dperm & des & Hdir).
      unfold d in Hdir. apply get_prefix_dir_or_self with rel' (os.Dir dperm des); auto.
      now exists dperm, des.
    + unfold d in *. rewrite app_nil_r in *. subst t.
      rewrite mkdirAll_eq. cbv zeta. rewrite rev_involutive, render_rooted.
      destruct (Stat_below_missing (os.with_root w r) ps b c Hp) as (e & ->).
      { destruct Hps as (pp & pes & Hps). now apply straight_of_get with (os.Dir pp pes). }
      { exact Hps. }
      { exact Htn. }
      rewrite (rev_app_distr (ps ++ [b])%list [c]).
      change (rev [c] ++ rev (ps ++ [b]))%list with (c :: rev (ps ++ [b]))%list.
      cbn [orb].
      destruct (mkdirAll_new (os.with_root w r) ps b perm Ht Hps Htn Hft)
        as (r1 & Hput1 & Hmk).
      rewrite Hmk.
      destruct (put_dir_new r r1 (ps ++ [b])%list _ Htn Hput1) as (He1 & Hg1 & Honly1).
      assert (Hn1 : os.get r1 ((ps ++ [b]) ++ [c])%list = None)
        by (apply (put_below_none _ _ [c] _ _ Hput1 I); discriminate).
      change (os.with_root (os.with_root w r) r1) with (os.with_root w r1).
      destruct (Mkdir_new (os.with_root w r1) (ps ++ [b])%list c perm Hp)
        as (r2 & Hput2 & ->).
      { cbn [os.root os.with_root]. rewrite Hg1. eexists _, _. reflexivity. }
      { exact Hn1. }
      { exact Hfp. }
      cbn [os.root os.with_root] in Hput2.
      destruct (put_dir_new r1 r2 ((ps ++ [b]) ++ [c])%list _ Hn1 Hput2)
        as (He2 & Hg2 & Honly2).
      exists r2. split; [reflexivity|].
      split; [now apply extends_trans with r1|]. split; [now exists []|].
      split.
      * intros y Hy. destruct (Honly2 y Hy) as [->|Hy1]; [now left|].
        destruct (Honly1 y Hy1); auto.
      * apply extends_dir with r1; [assumption|]. rewrite Hg1. eexists _, _. reflexivity.
Qed.

(** *** The order of the kept entries *)

Lemma parent_first_seen (top : list string) (ks : list (list string * os.node)) :
  forall seen seen', (forall x, In x seen -> In x seen') ->
    parent_first top seen ks -> parent_first top seen' ks.
Proof.
  induction ks as [|x ks IH]; intros seen seen' Hsub; simpl; [auto|].
  intros [(rel' & c & E & Hp) Hks]. split.
  - exists rel', c. split; [assumption|]. destruct Hp as [Hp | (perm & es & Hp)]; eauto.
  - apply IH with (seen ++ [x])%list; [|assumption].
    intros y Hy. apply in_app_or in Hy. apply in_or_app. destruct Hy; auto.
Qed.

Lemma parent_first_app (top : list string) (l1 l2 : list (list string * os.node)) :
  forall seen, parent_first top seen l1 -> parent_first top (seen ++ l1)%list l2 ->
               parent_first top seen (l1 ++ l2)%list.
Proof.
  induction l1 as [|x l1 IH]; intros seen H1 H2.
  - now rewrite app_nil_r in H2.
  - destruct H1 as [Hx H1]. split; [assumption|].
    apply IH; [assumption|]. now rewrite <- app_assoc.
Qed.

Lemma parent_first_lift (top top' : list string) (perm : Z) (es : list (string * os.node))
  (ks : list (list string * os.node)) :
  forall seen, In (top', os.Dir perm es) seen ->
    parent_first top' seen ks -> parent_first top seen ks.
Proof.
  induction ks as [|x ks IH]; intros seen Hin; simpl; [auto|].
  intros [(rel' & c & E & Hp) Hks]. split.
  - exists rel', c. split; [assumption|]. right.
    destruct Hp as [-> | Hp]; [now exists perm, es | assumption].
  - apply IH; [apply in_or_app; now left | assumption].
Qed.

Lemma kept_parent_first (ignore : list string) (n : os.node) :
  forall cs seen, parent_first cs seen (kept ignore cs n).
Proof.
  induction n as [perm data|t|perm es IH] using node_induction; intros cs seen;
    [exact I | exact I |].
  simpl. revert seen. induction es as [|[c m] es IHes]; intros seen; [exact I|].
  inversion IH as [|? ? Hm Hes]; subst. cbn [flat_map fst snd].
  apply parent_first_app.
  - destruct (ignored ignore c); [exact I|]. split.
    + exists cs, c. split; [reflexivity | now left].
    + destruct m as [fperm data|t|dperm des]; [exact I | exact I |].
      apply parent_first_lift with (cs ++ [c])%list dperm des.
      * apply in_or_app. right. now left.
      * apply Hm.
  - now apply IHes.
Qed.

Lemma kept_paths (ignore : list string) (n : os.node) (cs x : list string) :
  In x (map fst (kept ignore cs n)) -> exists rel, rel <> [] /\ x = (cs ++ rel)%list.
Proof.
  intros H. apply in_map_iff in H. destruct H as ([y m] & <- & Hin).
  apply kept_spec in Hin. destruct Hin as (rel & Hne & -> & _). now exists rel.
Qed.

Lemma kept_NoDup (ignore : list string) (n : os.node) :
  distinct n -> forall cs, NoDup (map fst (kept ignore cs n)).
Proof.
  induction n as [perm data|t|perm es IH] using node_induction; intros Hd cs;
    [constructor | constructor |].
  apply distinct_Dir in Hd. destruct Hd as [Hnd Hall].
  simpl. induction es as [|[c m] es IHes]; [constructor|].
  inversion IH as [|? ? Hm Hes]; subst. inversion Hall as [|? ? Hdm Hdes]; subst.
  inversion Hnd as [|? ? Hc Hnd']; subst.
  cbn [flat_map fst snd]. rewrite map_app. apply NoDup_app.
  - destruct (ignored ignore c); [constructor|]. cbn [map fst]. constructor.
    + intros Hin. apply kept_paths in Hin. destruct Hin as (rel & Hne & E).
      rewrite <- (app_nil_r (cs ++ [c])) in E at 1. apply app_inv_head in E. congruence.
    + now apply Hm.
  - now apply IHes.
  - intros x Hx Hx'.
    assert (H1 : exists rel, x = (cs ++ c :: rel)%list).
    { destruct (ignored ignore c); [contradiction|]. cbn [map fst] in Hx.
      destruct Hx as [<- | Hx]; [now exists []|].
      apply kept_paths in Hx. destruct Hx as (rel & _ & ->).
      exists rel. now rewrite <- app_assoc. }
    destruct H1 as (rel & ->).
    apply in_map_iff in Hx'. destruct Hx' as ([y m'] & E & Hin). cbn [fst] in E. subst y.
    apply in_flat_map in Hin. destruct Hin as ([c' k] & Hin' & Hk). cbn [fst snd] in Hk.
    assert (H2 : exists rel', (cs ++ c :: rel)%list = (cs ++ c' :: rel')%list).
    { destruct (ignored ignore c'); [contradiction|].
      destruct Hk as [[= E _] | Hk]; [exists []; now rewrite <- E|].
      apply kept_spec in Hk. destruct Hk as (rel' & _ & E & _).
      exists rel'. rewrite E. now rewrite <- app_assoc. }
    destruct H2 as (rel' & E). apply app_inv_head in E. injection E as -> _.
    apply Hc. change c' with (fst (c', k)). now apply in_map.
Qed.

Lemma kept_names (ignore : list string) (n : os.node) :
  wf n -> Forall (fun x => names (fst x)) (kept ignore [] n).
Proof.
  intros Hwf. apply Forall_forall. intros [x m] Hin.
  apply kept_spec in Hin. destruct Hin as (rel & _ & -> & Hr & _).
  now destruct (reach_names _ _ _ Hwf Hr).
Qed.

(** *** Extracting the members of a location *)

Lemma member_name (b : string) (x : list string * os.node) :
  tar.Name (tar.hdr (member_of b x)) = strings.Join (b :: fst x).
Proof. unfold member_of. now destruct (snd x). Qed.

Lemma extract_members (w : os.World) (ps : list string) (b : string) (r0 : os.node) :
  names (ps ++ [b])%list -> ps <> [] ->
  is_dir (os.get r0 ps) -> os.get r0 (ps ++ [b])%list = None ->
  (forall x, os.find_archive ((ps ++ [b]) ++ x)%list (os.archives w) = None) ->
  forall rest done r,
    parent_first [] done rest -> NoDup (map fst (done ++ rest)%list) ->
    Forall (fun x => names (fst x)) rest -> nolinks rest ->
    extends r0 r ->
    (forall x m, In (x, m) done -> restored w r ((ps ++ [b]) ++ x)%list m) ->
    (forall y, os.get r y <> None ->
       os.get r0 y <> None \/ y = (ps ++ [b])%list
       \/ exists x m, y = ((ps ++ [b]) ++ x)%list /\ In (x, m) done) ->
    (done = [] -> os.get r (ps ++ [b])%list = None) ->
    (done <> [] -> is_dir (os.get r (ps ++ [b])%list)) ->
    exists r',
      part_000.extract_loop (os.with_root w r) ("/" ++ strings.Join ps)
        (map (member_of b) rest) None
      = (os.with_root w r', None)
      /\ extends r0 r'
      /\ (forall x m, In (x, m) (done ++ rest)%list ->
            restored w r' ((ps ++ [b]) ++ x)%list m)
      /\ (forall y, os.get r' y <> None ->
            os.get r0 y <> None \/ y = (ps ++ [b])%list
            \/ exists x m, y = ((ps ++ [b]) ++ x)%list /\ In (x, m) (done ++ rest)%list)
      /\ ((done ++ rest)%list <> [] -> is_dir (os.get r' (ps ++ [b])%list))
      /\ ((done ++ rest)%list = [] -> r' = r).
Proof.
  intros Ht Hne Hps Htn Harch. set (t := (ps ++ [b])%list) in *.
  induction rest as [|[rel m] rest IH]; intros done r Hpf Hnd Hnames Hnl He Hres Honly Hd0 Hd1.
  - exists r. rewrite app_nil_r. repeat split; auto.
  - destruct Hpf as [(rel' & c & Erel & Hpar) Hpf]. cbn [fst] in Erel. subst rel.
    inversion Hnames as [|? ? Hrel Hnames']; subst. cbn [fst] in Hrel.
    inversion Hnl as [|? ? Hm Hnl']; subst. cbn [snd] in Hm.
    assert (Hps_r : is_dir (os.get r ps)) by now apply extends_dir with r0.
    assert (Hnone : os.get r ((t ++ rel') ++ [c])%list = None).
    { destruct (os.get r ((t ++ rel') ++ [c])%list) as [n0|] eqn:E; [|reflexivity].
      exfalso. destruct (Honly ((t ++ rel') ++ [c])%list) as [H | [H | (x & m' & H & Hin)]].
      - now rewrite E.
      - apply H. rewrite <- app_assoc. now apply get_none_below.
      - rewrite <- app_assoc in H. rewrite <- (app_nil_r t) in H at 2.
        apply app_inv_head in H. now destruct rel'.
      - rewrite <- app_assoc in H. apply app_inv_head in H. subst x.
        rewrite map_app in Hnd. cbn [map fst] in Hnd.
        apply NoDup_remove_2 in Hnd. apply Hnd. apply in_or_app. left.
        change (rel' ++ [c])%list with (fst ((rel' ++ [c])%list, m')). now apply in_map. }
    assert (Hparent : is_dir (os.get r (t ++ rel')%list)
                      \/ (rel' = [] /\ os.get r t = None)).
    { destruct Hpar as [-> | (perm & es & Hin)].
      - rewrite app_nil_r. destruct done as [|d0 done'].
        + right. split; [reflexivity | now apply Hd0].
        + left. apply Hd1. discriminate.
      - left. specialize (Hres _ _ Hin). simpl in Hres. destruct Hres as (es' & ->).
        eexists _, _. reflexivity. }
    destruct (extractEntry_step w ps b r rel' c m Ht Hrel Hm Hps_r Hparent Hnone Harch)
      as (r1 & Hstep & He1 & Hres1 & Honly1 & Hdir1).
    cbn [map part_000.extract_loop]. rewrite member_name. cbn [fst].
    rewrite member_legal by assumption. rewrite Hstep.
    destruct (IH (done ++ [((rel' ++ [c])%list, m)])%list r1) as (r' & Hl & He' & Hres' & Honly' & Hd' & _).
    + assumption.
    + now rewrite <- app_assoc.
    + assumption.
    + assumption.
    + now apply extends_trans with r.
    + intros x m0 Hin. apply in_app_or in Hin. destruct Hin as [Hin | [[= <- <-] | []]].
      * apply extends_restored with r; auto.
      * rewrite app_assoc. exact Hres1.
    + intros y Hy. destruct (Honly1 y Hy) as [-> | [-> | Hy0]].
      * right. right. exists (rel' ++ [c])%list, m. split; [now rewrite app_assoc|].
        apply in_or_app. right. now left.
      * right. now left.
      * destruct (Honly y Hy0) as [H | [H | (x & m0 & H & Hin)]]; auto.
        right. right. exists x, m0. split; [assumption|]. apply in_or_app. now left.
    + intros E. now destruct done.
    + intros _. exact Hdir1.
    + rewrite <- app_assoc in *. cbn [app] in *.
      exists r'. split; [exact Hl|]. split; [assumption|]. split; [assumption|].
      split; [assumption|]. split; [assumption|]. intros E. now destruct done.
Qed.

(** *** Restore of what a backup wrote *)

Lemma OpenArchive_exists (w : os.World) (path : string) (a : tar.archive) :
  os.OpenArchive w path = Ok (Ok a) -> os.IsNotExist (os.Stat w path) = false.
Proof.
  unfold os.OpenArchive, os.Stat.
  destruct (os.namei w true path) as [q|]; [|discriminate]. simpl.
  unfold os.stat_at. destruct (os.find_archive q (os.archives w)).
  - destruct (os.get (os.root w) q); reflexivity.
  - destruct (os.get (os.root w) q) as [[| |]|]; discriminate.
Qed.

Lemma restoreLocation_extracts
  (w : os.World) (loc : part_000.Location) (backupDir : string)
  (ps : list string) (b : string) (n : os.node) (ignore : list string) :
  part_003.normalizePath w (part_000.Path loc) = Ok ("/" ++ strings.Join (ps ++ [b])%list) ->
  names (ps ++ [b])%list -> ps <> [] ->
  os.OpenArchive w (part_000.archivePath_of_restore loc backupDir)
  = Ok (Ok {| tar.entries := map (member_of b) (kept ignore [] n); tar.trailer := None |}) ->
  wf n -> distinct n -> nolinks (kept ignore [] n) ->
  is_dir (os.get (os.root w) ps) ->
  os.get (os.root w) (ps ++ [b])%list = None ->
  (forall x, os.find_archive ((ps ++ [b]) ++ x)%list (os.archives w) = None) ->
  exists w',
    part_000.restoreLocation w loc backupDir = (w', None)
    /\ (forall x m, In (x, m) (kept ignore [] n) ->
          restored w (os.root w') ((ps ++ [b]) ++ x)%list m)
    /\ (forall x, x <> [] -> os.get (os.root w') ((ps ++ [b]) ++ x)%list <> None ->
          exists m, In (x, m) (kept ignore [] n))
    /\ extends (os.root w) (os.root w')
    /\ (forall y, ~ is_prefix (ps ++ [b])%list y ->
          os.get (os.root w') y <> None -> os.get (os.root w) y <> None)
    /\ os.archives w' = os.archives w.
Proof.
  intros Hnorm Ht Hne Ho Hwf Hd Hnl Hps Htn Harch.
  unfold part_000.restoreLocation. rewrite Hnorm.
  unfold part_000.archivePath_of_restore in Ho.
  rewrite (OpenArchive_exists _ _ _ Ho).
  unfold part_000.extractArchive. rewrite Ho. cbv zeta. cbn [tar.entries tar.trailer].
  rewrite Dir_rooted by assumption.
  destruct (extract_members w ps b (os.root w) Ht Hne Hps Htn Harch
              (kept ignore [] n) [] (os.root w)) as (r' & Hl & He & Hres & Honly & _ & _).
  - apply kept_parent_first.
  - now apply kept_NoDup.
  - now apply kept_names.
  - assumption.
  - apply extends_refl.
  - intros x m [].
  - intros y Hy. now left.
  - intros _. assumption.
  - intros H. now destruct H.
  - replace (os.with_root w (os.root w)) with w in Hl by now destruct w.
    rewrite Hl. exists (os.with_root w r'). cbn [os.root os.with_root os.archives app] in *.
    split; [reflexivity|]. split; [exact Hres|]. split.
    { intros x Hx Hg. destruct (Honly _ Hg) as [H | [H | (x' & m & H & Hin)]].
      - destruct H. now apply get_none_below.
      - rewrite <- (app_nil_r (ps ++ [b])) in H at 2. apply app_inv_head in H. congruence.
      - apply app_inv_head in H. subst x'. now exists m. }
    split; [exact He|]. split; [|reflexivity].
    intros y Hy Hg. destruct (Honly _ Hg) as [H | [H | (x' & m & H & Hin)]].
    + assumption.
    + destruct Hy. subst y. apply is_prefix_refl.
    + destruct Hy. now exists x'.
Qed.

(** X12. An archive that holds the members of the kept entries of a
    directory without links among them, restored where the parent directory
    of the target is there and the target is not, and where every directory
    that is made lets its owner write below it (the bits 0300 are left by
    the umask in 0755 and in the bits of every kept directory):
    [restoreLocation] returns no error. Afterwards every kept file is at its
    path below the target with its bytes, and every kept directory is a
    directory, each with the permission bits of its member less the umask;
    below the target there is nothing else; and outside the target every
    file, link and directory is as it was, and nothing is new. *)
Theorem restoreLocation_recreates
  (w : os.World) (loc : part_000.Location) (backupDir : string)
  (ps : list string) (b : string) (n : os.node) (ignore : list string) :
  part_003.normalizePath w (part_000.Path loc) = Ok ("/" ++ strings.Join (ps ++ [b])%list) ->
  names (ps ++ [b])%list -> ps <> [] ->
  os.OpenArchive w (part_000.archivePath_of_restore loc backupDir)
  = Ok (Ok {| tar.entries := map (member_of b) (kept ignore [] n); tar.trailer := None |}) ->
  wf n -> distinct n -> nolinks (kept ignore [] n) ->
  is_dir (os.get (os.root w) ps) ->
  os.get (os.root w) (ps ++ [b])%list = None ->
  (forall x, os.find_archive ((ps ++ [b]) ++ x)%list (os.archives w) = None) ->
  dirs_writable w (kept ignore [] n) ->
  exists w',
    part_000.restoreLocation w loc backupDir = (w', None)
    /\ (forall x m, In (x, m) (kept ignore [] n) ->
          restored w (os.root w') ((ps ++ [b]) ++ x)%list m)
    /\ (forall x, x <> [] -> os.get (os.root w') ((ps ++ [b]) ++ x)%list <> None ->
          exists m, In (x, m) (kept ignore [] n))
    /\ extends (os.root w) (os.root w')
    /\ (forall y, ~ is_prefix (ps ++ [b])%list y ->
          os.get (os.root w') y <> None -> os.get (os.root w) y <> None)
    /\ os.archives w' = os.archives w.
Proof.
  intros Hnorm Ht Hne Ho Hwf Hd Hnl Hps Htn Harch _.
  now apply restoreLocation_extracts.
Qed.

(** X13. Backup and restore of a location: a directory at the end of a
    path without links, none of whose kept entries is a link, with no
    archive in it (the archive that is written lies outside the location,
    and no archive lies at or below its path). [backupLocation] returns no
    error; and in every world that holds the archive it wrote, where the
    parent directory of the location is there and the location is not, and
    where every directory that is made lets its owner write below it,
    [restoreLocation] returns no error and leaves below the location every
    kept file with its bytes and every kept directory, each with its
    permission bits less the umask of that world, and nothing else. *)
Theorem backup_restore_roundtrip
  (w : os.World) (loc : part_000.Location) (outputDir : string)
  (ps : list string) (b : string) (q : list string) (n : os.node) :
  part_003.normalizePath w (part_000.Path loc) = Ok ("/" ++ strings.Join (ps ++ [b])%list) ->
  names (ps ++ [b])%list -> ps <> [] ->
  straight (os.root w) (ps ++ [b])%list ->
  os.get (os.root w) (ps ++ [b])%list = Some n -> wf n -> distinct n ->
  nolinks (kept (part_000.Ignore loc) [] n) ->
  os.namei w true (part_000.archivePath_of_backup loc outputDir) = Ok q ->
  (forall perm es, os.get (os.root w) q <> Some (os.Dir perm es)) ->
  ~ is_prefix (ps ++ [b])%list q ->
  (forall x, os.find_archive ((ps ++ [b]) ++ x)%list (os.archives w) = None) ->
  exists w1 a,
    part_000.backupLocation w loc outputDir = (w1, None)
    /\ os.find_archive q (os.archives w1) = Some a
    /\ forall w2,
         part_003.normalizePath w2 (part_000.Path loc)
         = Ok ("/" ++ strings.Join (ps ++ [b])%list) ->
         os.OpenArchive w2 (part_000.archivePath_of_restore loc outputDir) = Ok (Ok a) ->
         is_dir (os.get (os.root w2) ps) ->
         os.get (os.root w2) (ps ++ [b])%list = None ->
         (forall x, os.find_archive ((ps ++ [b]) ++ x)%list (os.archives w2) = None) ->
         dirs_writable w2 (kept (part_000.Ignore loc) [] n) ->
         exists w3,
           part_000.restoreLocation w2 loc outputDir = (w3, None)
           /\ (forall x m, In (x, m) (kept (part_000.Ignore loc) [] n) ->
                 restored w2 (os.root w3) ((ps ++ [b]) ++ x)%list m)
           /\ (forall x, x <> [] -> os.get (os.root w3) ((ps ++ [b]) ++ x)%list <> None ->
                 exists m, In (x, m) (kept (part_000.Ignore loc) [] n)).
Proof.
  intros Hnorm Ht Hne Hst Hg Hwf Hd Hnl Hq Hnd _ _.
  destruct (backupLocation_writes w loc outputDir ps b q n Hnorm Ht Hst Hg Hwf Hd Hnl Hq Hnd)
    as (w1 & Hb & Hf & _).
  exists w1, {| tar.entries := map (member_of b) (kept (part_000.Ignore loc) [] n);
                tar.trailer := None |}.
  split; [assumption|]. split; [assumption|].
  intros w2 Hnorm2 Ho Hps2 Htn2 Harch2 _.
  destruct (restoreLocation_extracts w2 loc outputDir ps b n (part_000.Ignore loc)
              Hnorm2 Ht Hne Ho Hwf Hd Hnl Hps2 Htn2 Harch2)
    as (w3 & Hr & Hres & Honly & _).
  exists w3. auto.
Qed.


Lemma restoreLocation_recreates_witness :
  os.get (os.root sample.cleared) ["home"; "u"; "project"] = None
  /\ exists w',
       part_000.restoreLocation sample.cleared sample.loc "/backup" = (w', None)
       /\ os.get (os.root w') ["home"; "u"; "project"; "sub"; "b"]
          = Some (os.File 420 "bb").
Proof.
  split; [vm_compute; reflexivity|].
  destruct (restoreLocation_recreates sample.cleared sample.loc "/backup"
              ["home"; "u"] "project" fixture.project (part_000.Ignore sample.loc))
    as (w' & H1 & H2 & _).
  - vm_compute. reflexivity.
  - vm_compute. repeat constructor.
  - discriminate.
  - vm_compute. reflexivity.
  - vm_compute. repeat split.
  - vm_compute. repeat constructor; simpl; intuition discriminate.
  - vm_compute. repeat constructor; discriminate.
  - vm_compute. eexists _, _. reflexivity.
  - vm_compute. reflexivity.
  - intros x. vm_compute. reflexivity.
  - dirs_writable_by_computation.
  - exists w'. split; [assumption|].
    apply (H2 ["sub"; "b"] (os.File 420 "bb")). vm_compute. auto.
Defined.

Lemma backup_restore_roundtrip_witness :
  exists w3,
    part_000.restoreLocation sample.cleared sample.loc "/backup" = (w3, None)
    /\ os.get (os.root w3) ["home"; "u"; "project"; "a.txt"]
       = Some (os.File 420 "0123456789").
Proof.
  destruct (backup_restore_roundtrip fixture.world sample.loc "/backup"
              ["home"; "u"] "project"
              ["backup"; part_003.generateFilename "~/project"] fixture.project)
    as (w1 & a & H1 & H2 & H3).
  - vm_compute. reflexivity.
  - vm_compute. repeat constructor.
  - discriminate.
  - apply straight_of_get with fixture.project; [vm_compute; reflexivity | discriminate].
  - vm_compute. reflexivity.
  - vm_compute. repeat split.
  - vm_compute. repeat constructor; simpl; intuition discriminate.
  - vm_compute. repeat constructor; discriminate.
  - vm_compute. reflexivity.
  - intros perm es. vm_compute. discriminate.
  - intros [x Hx]. discriminate.
  - intros x. vm_compute. reflexivity.
  - assert (E : w1 = fst (part_000.backupLocation fixture.world sample.loc "/backup"))
      by now rewrite H1.
    rewrite E in H2. vm_compute in H2. injection H2 as <-.
    destruct (H3 sample.cleared) as (w3 & Hr & Hres & _).
    + vm_compute. reflexivity.
    + vm_compute. reflexivity.
    + vm_compute. eexists _, _. reflexivity.
    + vm_compute. reflexivity.
    + intros x. vm_compute. reflexivity.
    + dirs_writable_by_computation.
    + exists w3. split; [assumption|].
      apply (Hres ["a.txt"] (os.File 420 "0123456789")). vm_compute. auto.
Defined.

(** *** extractFile over a file that is there *)

(** X14. [extractFile] on a path that names a regular file empties the
    file and fills it with the content of the member; the file keeps the
    permission bits it had, those of the header are not applied. *)
Theorem extractFile_keeps_mode
  (w : os.World) (content path : string) (mode : Z) (p : list string)
  (fperm : Z) (old : string) :
  os.namei w true path = Ok p ->
  os.get (os.root w) p = Some (os.File fperm old) ->
  exists w',
    part_000.extractFile w content path mode = (w', None)
    /\ os.get (os.root w') p = Some (os.File fperm content)
    /\ os.archives w' = os.archives w.
Proof.
  intros Hn Hg. unfold part_000.extractFile, os.OpenFile_create_trunc. rewrite Hn, Hg.
  destruct (put_exists (os.File fperm "") p _ _ Hg) as (r1 & Hput1).
  unfold os.store at 1. rewrite Hput1.
  unfold os.Write. cbn [os.fd_closed os.fd_path os.root os.with_root].
  rewrite (put_get_eq _ _ _ _ Hput1).
  destruct (put_exists (os.File fperm ("" ++ content)) p r1 _ (put_get_eq _ _ _ _ Hput1))
    as (r2 & Hput2).
  unfold os.store. cbn [os.root os.with_root]. rewrite Hput2.
  eexists. split; [reflexivity|]. cbn [os.root os.with_root os.archives].
  split; [apply (put_get_eq _ _ _ _ Hput2) | reflexivity].
Qed.

Lemma extractFile_keeps_mode_witness :
  exists w',
    part_000.extractFile fixture.world "new" "/home/u/project/l" 511 = (w', None)
    /\ os.get (os.root w') ["home"; "u"; "project"; "a.txt"] = Some (os.File 420 "new").
Proof.
  destruct (extractFile_keeps_mode fixture.world "new" "/home/u/project/l" 511
              ["home"; "u"; "project"; "a.txt"] 420 "0123456789")
    as (w' & H1 & H2 & _).
  - vm_compute. reflexivity.
  - vm_compute. reflexivity.
  - now exists w'.
Defined.

(** *** Restore over the locations of a configuration *)

Lemma Restore_loop_app (backupDir : string) (rest : list part_000.Location) :
  forall pre w w1,
    part_000.Restore_loop w pre backupDir = (w1, None) ->
    part_000.Restore_loop w (pre ++ rest)%list backupDir
    = part_000.Restore_loop w1 rest backupDir.
Proof.
  induction pre as [|loc pre IH]; intros w w1; simpl.
  - now intros [= <-].
  - destruct (part_000.restoreLocation w loc backupDir) as [w2 [err|]]; [discriminate|].
    apply IH.
Qed.

(** X15. [Restore] restores the locations in the order of the
    configuration and stops at the first one that fails: its error is
    returned with the path of the location, the locations before it stay
    restored, and those after it are not touched. *)
Theorem Restore_stops_at_first_failure
  (w w1 w2 : os.World) (backupDir : string)
  (pre post : list part_000.Location) (loc : part_000.Location) (err : error) :
  part_000.Restore_loop w pre backupDir = (w1, None) ->
  part_000.restoreLocation w1 loc backupDir = (w2, Some err) ->
  part_000.Restore w
    {| part_000.Output := backupDir;
       part_000.Data_ := {| part_000.Locations := (pre ++ loc :: post)%list |} |} backupDir
  = (w2, Some (wrapError ("failed to restore " ++ part_000.Path loc) err)).
Proof.
  intros Hpre Hloc. unfold part_000.Restore. cbn [part_000.Locations part_000.Data_].
  rewrite (Restore_loop_app _ _ _ _ _ Hpre). cbn [part_000.Restore_loop].
  now rewrite Hloc.
Qed.

Lemma Restore_stops_at_first_failure_witness :
  exists w2,
    part_000.Restore sample.cleared
      {| part_000.Output := "/backup";
         part_000.Data_ :=
           {| part_000.Locations :=
                [sample.loc; fixture.location "/home/u/empty"; fixture.location "/data"] |} |}
      "/backup"
    = (w2, Some (wrapError "failed to restore /home/u/empty"
                   (errorString
                      ("archive not found: /backup/" ++
                       part_003.generateFilename "/home/u/empty"))))
    /\ os.get (os.root w2) ["home"; "u"; "project"; "sub"; "b"] = Some (os.File 420 "bb").
Proof.
  exists (fst (part_000.Restore_loop sample.cleared [sample.loc] "/backup")).
  split; [|vm_compute; reflexivity].
  apply (Restore_stops_at_first_failure sample.cleared
           (fst (part_000.Restore_loop sample.cleared [sample.loc] "/backup"))
           (fst (part_000.Restore_loop sample.cleared [sample.loc] "/backup"))
           "/backup" [sample.loc] [fixture.location "/data"]
           (fixture.location "/home/u/empty")).
  - vm_compute. reflexivity.
  - vm_compute. reflexivity.
Defined.

(** *** Removing a location *)

Lemma lookup_filter_eq (c : string) (es : list (string * os.node)) :
  os.lookup c (filter (fun e => negb (String.eqb (fst e) c)) es) = None.
Proof.
  induction es as [|[k v] es IH]; [reflexivity|]. simpl.
  destruct (String.eqb k c) eqn:E; simpl; [assumption|]. now rewrite E.
Qed.

Lemma lookup_filter_ne (c c' : string) (es : list (string * os.node)) :
  c' <> c -> os.lookup c' (filter (fun e => negb (String.eqb (fst e) c)) es) = os.lookup c' es.
Proof.
  intros Hne. induction es as [|[k v] es IH]; [reflexivity|]. simpl.
  destruct (String.eqb_spec k c) as [->|Hk]; simpl.
  - destruct (String.eqb_spec c c'); [congruence | assumption].
  - now rewrite IH.
Qed.

Lemma lookup_map_remove (c c' : string) (p : list string) (es : list (string * os.node)) :
  os.lookup c' (map (fun e => if String.eqb (fst e) c
                              then (fst e, os.remove (snd e) p) else e) es)
  = if String.eqb c' c
    then match os.lookup c es with Some m => Some (os.remove m p) | None => None end
    else os.lookup c' es.
Proof.
  induction es as [|[k v] es IH]; simpl.
  - now destruct (String.eqb c' c).
  - destruct (String.eqb_spec k c) as [->|Hk]; simpl.
    + destruct (String.eqb_spec c c') as [<-|Hc].
      * now rewrite String.eqb_refl.
      * rewrite IH. destruct (String.eqb_spec c' c); [congruence | reflexivity].
    + destruct (String.eqb_spec k c') as [<-|Hkc].
      * destruct (String.eqb_spec k c); [congruence | reflexivity].
      * apply IH.
Qed.

Lemma remove_cons (c : string) (p : list string) (perm : Z) (es : list (string * os.node)) :
  p <> [] ->
  os.remove (os.Dir perm es) (c :: p)
  = os.Dir perm (map (fun e => if String.eqb (fst e) c
                               then (fst e, os.remove (snd e) p) else e) es).
Proof. destruct p; [congruence | reflexivity]. Qed.

(** After the removal of [p] nothing is found at [p]. *)
Lemma get_remove_eq (p : list string) :
  p <> [] -> forall r, os.get (os.remove r p) p = None.
Proof.
  induction p as [|c p IH]; intros Hne r; [congruence|].
  destruct r as [perm data|t|perm es]; [now destruct p | now destruct p |].
  destruct p as [|c' p'].
  - simpl. now rewrite lookup_filter_eq.
  - rewrite remove_cons by discriminate. cbn [os.get].
    rewrite lookup_map_remove, String.eqb_refl.
    destruct (os.lookup c es); [apply IH; discriminate | reflexivity].
Qed.

(** The removal of [p] changes nothing that is neither above nor below
    [p], and a directory above [p] stays a directory with its bits. *)
Lemma get_remove_other (p : list string) :
  forall r y, ~ is_prefix p y ->
    match os.get r y with
    | Some (os.Dir perm _) =>
        exists es', os.get (os.remove r p) y = Some (os.Dir perm es')
    | o => os.get (os.remove r p) y = o
    end.
Proof.
  induction p as [|c p IH]; intros r y Hpy.
  - destruct Hpy. now exists y.
  - destruct r as [perm data|t|perm es].
    + replace (os.remove (os.File perm data) (c :: p)) with (os.File perm data)
        by now destruct p.
      destruct (os.get (os.File perm data) y) as [[| |dperm des]|]; eauto.
    + replace (os.remove (os.Symlink t) (c :: p)) with (os.Symlink t) by now destruct p.
      destruct (os.get (os.Symlink t) y) as [[| |dperm des]|]; eauto.
    + destruct y as [|c' y].
      * simpl. destruct p; eauto.
      * destruct p as [|c2 p'].
        -- simpl. destruct (String.eqb_spec c' c) as [->|Hne].
           ++ destruct Hpy. now exists y.
           ++ rewrite lookup_filter_ne by assumption.
              destruct (os.lookup c' es) as [child|]; [|reflexivity].
              destruct (os.get child y) as [[| |dperm des]|]; eauto.
        -- rewrite remove_cons by discriminate. cbn [os.get].
           rewrite lookup_map_remove.
           destruct (String.eqb_spec c' c) as [->|Hne].
           ++ destruct (os.lookup c es) as [child|]; [|reflexivity].
              apply IH. intros H. apply Hpy. now apply is_prefix_cons.
           ++ destruct (os.lookup c' es) as [child|]; [|reflexivity].
              destruct (os.get child y) as [[| |dperm des]|]; eauto.
Qed.

(** The removal of one location that is a directory, with all it leaves
    as it was. *)
Lemma ClearLocations_single
  (w : os.World) (loc : part_000.Location) (output : string)
  (t : list string) (perm : Z) (es : list (string * os.node)) :
  part_003.normalizePath w (part_000.Path loc) = Ok ("/" ++ strings.Join t) ->
  names t -> t <> [] ->
  os.get (os.root w) t = Some (os.Dir perm es) ->
  exists w',
    clear_go.ClearLocations w
      {| part_000.Output := output; part_000.Data_ := {| part_000.Locations := [loc] |} |}
    = (w', None)
    /\ os.get (os.root w') t = None
    /\ (forall y, ~ is_prefix t y ->
          match os.get (os.root w) y with
          | Some (os.Dir dperm _) => exists es', os.get (os.root w') y = Some (os.Dir dperm es')
          | o => os.get (os.root w') y = o
          end)
    /\ os.archives w' = os.archives w
    /\ (os.HOME w' = os.HOME w /\ os.wd w' = os.wd w /\ os.umask w' = os.umask w).
Proof.
  intros Hnorm Hn Hne Hg.
  unfold clear_go.ClearLocations. cbn [part_000.Locations part_000.Data_].
  cbn [clear_go.ClearLocations_loop]. rewrite Hnorm.
  destruct (Stat_dir w t perm es Hn Hg) as (fi & Hs & _). rewrite Hs. cbn [os.IsNotExist].
  unfold os.RemoveAll.
  rewrite namei_straight by (assumption || now apply straight_of_get with (os.Dir perm es)).
  destruct t as [|c t']; [congruence|].
  eexists. split; [reflexivity|]. cbn [os.root os.with_root os.archives].
  split; [now apply get_remove_eq|]. split; [|repeat split].
  intros y Hy. now apply get_remove_other.
Qed.

(** X16. [ClearLocations] on a configuration with one location, a
    directory reached without links that has no archive at or below its
    path: it returns no error, nothing is left at the path of the location,
    whatever is not below that path is there as before (a directory above it
    with its bits), and no archive is touched. *)
Theorem ClearLocations_removes
  (w : os.World) (loc : part_000.Location) (output : string)
  (t : list string) (perm : Z) (es : list (string * os.node)) :
  part_003.normalizePath w (part_000.Path loc) = Ok ("/" ++ strings.Join t) ->
  names t -> t <> [] ->
  os.get (os.root w) t = Some (os.Dir perm es) ->
  (forall x, os.find_archive (t ++ x)%list (os.archives w) = None) ->
  exists w',
    clear_go.ClearLocations w
      {| part_000.Output := output; part_000.Data_ := {| part_000.Locations := [loc] |} |}
    = (w', None)
    /\ os.get (os.root w') t = None
    /\ (forall y, ~ is_prefix t y ->
          match os.get (os.root w) y with
          | Some (os.Dir dperm _) => exists es', os.get (os.root w') y = Some (os.Dir dperm es')
          | o => os.get (os.root w') y = o
          end)
    /\ os.archives w' = os.archives w.
Proof.
  intros Hnorm Hn Hne Hg _.
  destruct (ClearLocations_single w loc output t perm es Hnorm Hn Hne Hg)
    as (w' & H1 & H2 & H3 & H4 & _).
  now exists w'.
Qed.

Lemma ClearLocations_removes_witness :
  exists w',
    clear_go.ClearLocations sample.backed_up sample.config = (w', None)
    /\ os.get (os.root w') ["home"; "u"; "project"] = None.
Proof.
  destruct (ClearLocations_removes sample.backed_up sample.loc "/backup"
              ["home"; "u"; "project"] 493
              [ (".git", os.Dir 493 [("HEAD", os.File 420 "ref: refs/heads/main")]);
                ("a.txt", os.File 420 "0123456789");
                ("l", os.Symlink "a.txt");
                ("node_modules",
                 os.Dir 493 [("pkg", os.Dir 493 [("index.js", os.File 420 "x")])]);
                ("sub", os.Dir 493 [("b", os.File 420 "bb")]) ])
    as (w' & H1 & H2 & _).
  - vm_compute. reflexivity.
  - vm_compute. repeat constructor.
  - discriminate.
  - vm_compute. reflexivity.
  - intros x. vm_compute. reflexivity.
  - exists w'. split; [exact H1 | exact H2].
Defined.

(** *** The order of the index *)

Lemma parent_first_split (top : list string) :
  forall pre seen x post,
    parent_first top seen (pre ++ x :: post)%list ->
    exists rel' c, fst x = (rel' ++ [c])%list
      /\ (rel' = top \/ exists perm es, In (rel', os.Dir perm es) (seen ++ pre)%list).
Proof.
  induction pre as [|y pre IH]; intros seen x post H.
  - destruct H as [H _]. now rewrite app_nil_r.
  - destruct H as [_ H]. apply IH in H. destruct H as (rel' & c & E & H).
    exists rel', c. split; [assumption|]. now rewrite <- app_assoc in H.
Qed.

Lemma kept_index_order (root : string) (ignore : list string) (n : os.node) :
  normal root -> wf n -> distinct n ->
  let idx := map (fun x => path_of root (fst x)) (kept ignore [] n) in
  NoDup idx
  /\ forall pre q post, idx = (pre ++ q :: post)%list ->
       filepath.Dir q = root \/ In (filepath.Dir q) pre.
Proof.
  intros Hn Hwf Hd idx. split.
  - unfold idx. rewrite <- (map_map fst (path_of root)).
    apply NoDup_map_NoDup_ForallPairs; [|now apply kept_NoDup].
    intros x y Hx Hy E.
    assert (Hnames : forall z, In z (map fst (kept ignore [] n)) -> names z).
    { intros z Hz. apply in_map_iff in Hz. destruct Hz as (k & <- & Hk).
      assert (H := kept_names ignore n Hwf). rewrite Forall_forall in H. now apply H. }
    apply (path_of_inj root); auto.
  - intros pre q post E. unfold idx in E.
    apply map_eq_app in E. destruct E as (kpre & krest & Ek & Epre & Erest).
    apply map_eq_cons in Erest. destruct Erest as (x & kpost & -> & Eq & _).
    assert (Hpf := kept_parent_first ignore n [] []). rewrite Ek in Hpf.
    apply parent_first_split in Hpf. destruct Hpf as (rel' & c & Ex & Hpar).
    assert (Hin : In x (kept ignore [] n)).
    { rewrite Ek. apply in_or_app. right. now left. }
    assert (Hx : names (fst x)).
    { assert (H := kept_names ignore n Hwf). rewrite Forall_forall in H. now apply H. }
    rewrite Ex in Hx.
    destruct (normal_elems _ Hn) as (ps & Er & Hps).
    assert (Hrel' : names rel') by (apply names_app in Hx; apply Hx).
    assert (Edir : filepath.Dir q = path_of root rel').
    { rewrite <- Eq, Ex, Er. rewrite !path_of_names by assumption.
      rewrite app_assoc. apply Dir_rooted. rewrite <- app_assoc. now apply names_app. }
    rewrite Edir. destruct Hpar as [-> | (perm & es & Hp)]; [now left|].
    right. rewrite <- Epre. cbn [app] in Hp.
    change (path_of root rel') with ((fun x => path_of root (fst x)) (rel', os.Dir perm es)).
    now apply in_map.
Qed.

(** X17. The index that [scan] builds for a directory with no name twice
    in a listing holds no path twice, and a path comes after the directory
    it lies in: the directory of every indexed path is the root of the
    location or a path earlier in the index. So it is for part_003 and for
    part_000. *)
Theorem scan_index_order (w : os.World) (root : string) (ignore : list string)
  (p : list string) (n : os.node) :
  normal root ->
  os.namei w false root = Ok p -> os.get (os.root w) p = Some n -> wf n -> distinct n ->
  (forall idx, exists l',
      part_003.scan w {| part_003.Path := root; part_003.Ignore := ignore;
                         part_003.index := idx |} = (l', None)
      /\ NoDup (part_003.index l')
      /\ forall pre q post, part_003.index l' = (pre ++ q :: post)%list ->
           filepath.Dir q = root \/ In (filepath.Dir q) pre)
  /\ (forall idx sz, exists l',
      part_000.scan w {| part_000.Path := root; part_000.Ignore := ignore;
                         part_000.index := idx; part_000.totalSize := sz |} = (l', None)
      /\ NoDup (part_000.index l')
      /\ forall pre q post, part_000.index l' = (pre ++ q :: post)%list ->
           filepath.Dir q = root \/ In (filepath.Dir q) pre).
Proof.
  intros Hn Hp Hg Hwf Hd.
  destruct (kept_index_order root ignore n Hn Hwf Hd) as [Hnd Hord]. split.
  - intros idx.
    destruct (part_003_scan_collect w {| part_003.Path := root; part_003.Ignore := ignore;
                part_003.index := idx |} p n Hn Hp Hg Hwf) as (l' & Hs & _ & Hi).
    exists l'. split; [assumption|]. rewrite Hi. now split.
  - intros idx sz.
    destruct (part_000_scan_collect w {| part_000.Path := root; part_000.Ignore := ignore;
                part_000.index := idx; part_000.totalSize := sz |} p n Hn Hp Hg Hwf)
      as (l' & Hs & _ & Hi & _).
    exists l'. split; [assumption|]. rewrite Hi. now split.
Qed.

Lemma scan_index_order_witness :
  exists l',
    part_003.scan fixture.world
      {| part_003.Path := "/home/u/project"; part_003.Ignore := fixture.ignore;
         part_003.index := [] |} = (l', None)
    /\ NoDup (part_003.index l').
Proof.
  destruct (proj1 (scan_index_order fixture.world "/home/u/project" fixture.ignore
                     ["home"; "u"; "project"] fixture.project
                     (conj eq_refl eq_refl) eq_refl eq_refl
                     ltac:(vm_compute; repeat split)
                     ltac:(vm_compute; repeat constructor; simpl; intuition discriminate))
              []) as (l' & H1 & H2 & _).
  now exists l'.
Defined.

(** *** The name of an archive *)

Lemma round_length (st : list Z) (kw : Z * Z) :
  List.length (sha256.round st kw) = List.length st.
Proof.
  unfold sha256.round.
  destruct st as [|a [|b [|c [|d [|e [|f [|g [|h [|i st]]]]]]]]]; reflexivity.
Qed.

Lemma compress_length (st block : list Z) :
  List.length (sha256.compress st block) = List.length st.
Proof.
  unfold sha256.compress. cbv zeta. rewrite length_map, length_combine.
  assert (H : forall l s, List.length (fold_left sha256.round l s) = List.length s).
  { induction l as [|x l IH]; intros s; simpl; [reflexivity|].
    now rewrite IH, round_length. }
  rewrite H. apply Nat.min_id.
Qed.

Lemma Sum256_length (s : string) : List.length (sha256.Sum256 s) = 32%nat.
Proof.
  unfold sha256.Sum256. cbv zeta.
  set (bl := sha256.blocks _ _).
  assert (H : forall l st, List.length (fold_left sha256.compress l st) = List.length st).
  { induction l as [|x l IH]; intros st; simpl; [reflexivity|].
    now rewrite IH, compress_length. }
  assert (Hf : forall l, List.length (flat_map (sha256.be_bytes 4) l)
                         = (4 * List.length l)%nat).
  { induction l as [|x l IH]; [reflexivity|].
    cbn [flat_map]. rewrite length_app, IH. simpl. lia. }
  rewrite Hf, H. reflexivity.
Qed.

Lemma hex_length (bs : list Z) : String.length (sha256.hex bs) = (2 * List.length bs)%nat.
Proof. induction bs as [|b bs IH]; [reflexivity|]. simpl in *. rewrite IH. lia. Qed.

Lemma hex_digit_noslash (d : Z) : Ascii.eqb (sha256.hex_digit d) strings.slash = false.
Proof.
  unfold sha256.hex_digit. generalize (Z.to_nat d). intros k.
  do 17 (destruct k as [|k]; [reflexivity|]). reflexivity.
Qed.

Lemma hex_noslash (bs : list Z) : noslash (sha256.hex bs) = true.
Proof.
  induction bs as [|b bs IH]; [reflexivity|].
  simpl. now rewrite !hex_digit_noslash, IH.
Qed.

Lemma noslash_app (a b : string) : noslash (a ++ b) = noslash a && noslash b.
Proof. induction a as [|c a IH]; simpl; [reflexivity|]. now rewrite IH, andb_assoc. Qed.

Lemma length_append (a b : string) :
  String.length (a ++ b) = (String.length a + String.length b)%nat.
Proof. induction a as [|c a IH]; simpl; [reflexivity|]. now rewrite IH. Qed.

Lemma Base_noslash (path : string) :
  filepath.Base path = "/" \/ noslash (filepath.Base path) = true.
Proof.
  unfold filepath.Base. destruct (String.eqb path ""); [now right|].
  assert (H : forall l, Forall (fun c => noslash c = true) l ->
                match filepath.strip_empty l with
                | c :: _ => noslash c = true
                | [] => True
                end).
  { induction l as [|c l IH]; intros Hl; simpl; [exact I|].
    inversion Hl; subst. destruct (String.eqb c ""); [now apply IH | assumption]. }
  specialize (H (rev (strings.Split path)) (Forall_rev (Split_all_noslash path))).
  destruct (filepath.strip_empty (rev (strings.Split path))); [now left | now right].
Qed.

Lemma filename_facts (path : string) :
  String.length (part_003.generateFilename path)
  = (String.length (filepath.Base path) + 72)%nat
  /\ String.length (sha256.hex (sha256.Sum256 path)) = 64%nat
  /\ (filepath.Base path <> "/" -> noslash (part_003.generateFilename path) = true).
Proof.
  unfold part_003.generateFilename.
  assert (Hh : String.length (sha256.hex (sha256.Sum256 path)) = 64%nat)
    by now rewrite hex_length, Sum256_length.
  split; [|split; [exact Hh|]].
  - rewrite !length_append, Hh. simpl. lia.
  - intros Hb. destruct (Base_noslash path) as [H|H]; [contradiction|].
    now rewrite !noslash_app, H, hex_noslash.
Qed.

(** X18. The name [generateFilename] gives an archive is the base name of
    the path, a hyphen, the 64 hexadecimal digits of the SHA-256 digest of
    the path and ".tar.gz": it is 72 bytes longer than the base name, and
    unless the base name is "/" (the path is the root) it holds no
    separator. *)
Theorem generateFilename_shape (path : string) :
  String.length (part_003.generateFilename path)
  = (String.length (filepath.Base path) + 72)%nat
  /\ String.length (sha256.hex (sha256.Sum256 path)) = 64%nat
  /\ (filepath.Base path <> "/" -> noslash (part_003.generateFilename path) = true).
Proof. apply filename_facts. Qed.

(** *** Where an archive is written *)

Lemma clean_elems_snoc (rooted : bool) (f : string) :
  filepath.plain f = true ->
  forall es out,
    filepath.clean_elems rooted (es ++ [f])%list out
    = (filepath.clean_elems rooted es out ++ [f])%list.
Proof.
  intros Hf. destruct (plain_cases _ Hf) as (E1 & E2 & E3).
  induction es as [|c es IH]; intros out.
  - simpl. now rewrite E1, E2, E3.
  - cbn [app filepath.clean_elems].
    destruct (String.eqb c "" || String.eqb c "."); [apply IH|].
    destruct (String.eqb c "..").
    + destruct out as [|top out']; [destruct rooted; apply IH|].
      destruct (String.eqb top ".."); apply IH.
    + apply IH.
Qed.

(** Every element [Clean] keeps has a first byte, which is no separator. *)
Lemma clean_elems_heads (rooted : bool) (es out : list string) :
  Forall (fun c => noslash c = true) es ->
  Forall (fun c => noslash c = true /\ c <> "" /\ c <> ".") out ->
  Forall (fun c => noslash c = true /\ c <> "" /\ c <> ".")
         (filepath.clean_elems rooted es out).
Proof.
  revert out. induction es as [|c es IH]; intros out He Ho; simpl.
  - now apply Forall_rev.
  - inversion He; subst.
    destruct (String.eqb_spec c ""); simpl; [now apply IH|].
    destruct (String.eqb_spec c "."); simpl; [now apply IH|].
    destruct (String.eqb c "..").
    + destruct out as [|top out'].
      * destruct rooted; apply IH; auto.
      * inversion Ho; subst. destruct (String.eqb top ".."); apply IH; auto.
    + apply IH; auto.
Qed.

Lemma Join_head (e : string) (es : list string) :
  noslash e = true -> e <> "" ->
  exists c s, strings.Join (e :: es) = String c s /\ Ascii.eqb c strings.slash = false.
Proof.
  intros Hs Hne. destruct e as [|c e']; [congruence|].
  simpl in Hs. apply andb_prop in Hs. destruct Hs as [Hc _]. apply negb_true_iff in Hc.
  destruct es; simpl; eauto.
Qed.

(** X19. The archive of a location is an entry of the output directory:
    for an output directory that is not the empty string and a path that is
    not the root, the path [backupLocation] and [restoreLocation] join from
    the output directory and the generated name is the cleaned output
    directory, a separator, and the name, which holds no separator. *)
Theorem archive_in_output_directory (outputDir path : string) :
  outputDir <> "" -> filepath.Base path <> "/" ->
  let name := part_003.generateFilename path in
  noslash name = true
  /\ filepath.Join [outputDir; name]
     = if String.eqb (filepath.Clean outputDir) "/" then "/" ++ name
       else if String.eqb (filepath.Clean outputDir) "." then name
       else filepath.Clean outputDir ++ "/" ++ name.
Proof.
  intros Hout Hbase name.
  destruct (filename_facts path) as (Hlen & _ & Hns). specialize (Hns Hbase).
  fold name in Hlen, Hns.
  split; [exact Hns|].
  assert (Hpl : filepath.plain name = true).
  { unfold filepath.plain.
    destruct name as [|c0 [|c1 [|c2 s]]]; simpl in Hlen; try lia.
    destruct (String.eqb_spec (String c0 (String c1 (String c2 s))) ""); [discriminate|].
    destruct (String.eqb_spec (String c0 (String c1 (String c2 s))) "."); [discriminate|].
    destruct (String.eqb_spec (String c0 (String c1 (String c2 s))) ".."); [discriminate|].
    reflexivity. }
  unfold filepath.Join.
  destruct (String.eqb_spec outputDir "") as [|_]; [contradiction|].
  change (strings.Join [outputDir; name]) with (outputDir ++ String strings.slash name).
  unfold filepath.Clean.
  assert (E0 : String.eqb (outputDir ++ String strings.slash name) "" = false)
    by (destruct outputDir; reflexivity).
  rewrite E0.
  destruct (String.eqb_spec outputDir "") as [|_]; [contradiction|].
  assert (Ea : filepath.IsAbs (outputDir ++ String strings.slash name)
               = filepath.IsAbs outputDir)
    by (destruct outputDir; [contradiction | reflexivity]).
  rewrite Ea. cbv zeta.
  rewrite Split_app_slash, (Split_noslash name Hns), clean_elems_snoc by assumption.
  set (outs := filepath.clean_elems (filepath.IsAbs outputDir) (strings.Split outputDir) []).
  assert (Houts : Forall (fun c => noslash c = true /\ c <> "" /\ c <> ".") outs).
  { apply clean_elems_heads; [apply Split_all_noslash | constructor]. }
  destruct (filepath.IsAbs outputDir).
  - destruct outs as [|e es].
    + reflexivity.
    + inversion Houts as [|? ? (Hs & Hne & _) _]; subst.
      destruct (Join_head e es Hs Hne) as (c & s & Ej & Hc).
      assert (E1 : String.eqb ("/" ++ strings.Join (e :: es)) "/" = false)
        by (rewrite Ej; reflexivity).
      rewrite E1. change (String.eqb ("/" ++ strings.Join (e :: es)) ".") with false.
      cbv iota. rewrite Join_app by discriminate. reflexivity.
  - destruct outs as [|e es].
    + reflexivity.
    + inversion Houts as [|? ? (Hs & Hne & Hdot) _]; subst.
      destruct (Join_head e es Hs Hne) as (c & s & Ej & Hc).
      change (match ((e :: es) ++ [name])%list with
              | [] => "."
              | _ :: _ => strings.Join ((e :: es) ++ [name])%list
              end) with (strings.Join ((e :: es) ++ [name])%list).
      rewrite Join_app by discriminate.
      assert (E1 : String.eqb (strings.Join (e :: es)) "/" = false).
      { rewrite Ej. simpl. unfold strings.slash in Hc. now rewrite Hc. }
      assert (E2 : String.eqb (strings.Join (e :: es)) "." = false).
      { apply String.eqb_neq. intros H.
        destruct es as [|e' es'].
        - simpl in H. congruence.
        - rewrite Join_cons in H by discriminate.
          destruct e as [|c' e'']; [congruence|]. simpl in H.
          injection H as _ H. destruct e''; discriminate. }
      rewrite E1, E2. reflexivity.
Qed.

Lemma archive_in_output_directory_witness :
  filepath.Join ["./backup"; part_003.generateFilename "~/project"]
  = "backup/" ++ part_003.generateFilename "~/project".
Proof.
  destruct (archive_in_output_directory "./backup" "~/project") as [_ H].
  - discriminate.
  - vm_compute. discriminate.
  - cbv zeta in H. rewrite H. vm_compute. reflexivity.
Defined.

(** *** Backup, deletion and restore of a location *)

Lemma normalizePath_frame (w w' : os.World) (path : string) :
  os.HOME w' = os.HOME w -> os.wd w' = os.wd w ->
  part_003.normalizePath w' path = part_003.normalizePath w path.
Proof.
  intros Hh Hw. unfold part_003.normalizePath, os.UserHomeDir, filepath.Abs, os.Getwd.
  now rewrite Hh, Hw.
Qed.


(** The name of an archive is a file name. *)
Lemma filename_name (path : string) :
  filepath.Base path <> "/" ->
  filepath.plain (part_003.generateFilename path) = true
  /\ noslash (part_003.generateFilename path) = true.
Proof.
  intros Hb. destruct (filename_facts path) as (Hlen & _ & Hns).
  split; [|now apply Hns].
  unfold filepath.plain.
  destruct (part_003.generateFilename path) as [|c0 [|c1 [|c2 s]]]; simpl in Hlen; try lia.
  destruct (String.eqb_spec (String c0 (String c1 (String c2 s))) ""); [discriminate|].
  destruct (String.eqb_spec (String c0 (String c1 (String c2 s))) "."); [discriminate|].
  destruct (String.eqb_spec (String c0 (String c1 (String c2 s))) ".."); [discriminate|].
  reflexivity.
Qed.

(** The archive of a location in an output directory in normal form. *)
Lemma archivePath_rooted (d : list string) (path : string) :
  names d -> filepath.Base path <> "/" ->
  filepath.Join ["/" ++ strings.Join d; part_003.generateFilename path]
  = "/" ++ strings.Join (d ++ [part_003.generateFilename path])%list
  /\ names (d ++ [part_003.generateFilename path])%list.
Proof.
  intros Hd Hb. destruct (filename_name path Hb) as [Hp Hs].
  destruct (plain_cases _ Hp) as (_ & _ & Hdd). split.
  - rewrite Join_parent; [|assumption|].
    + rewrite Split_noslash by assumption. cbn [filter]. now rewrite Hp.
    + rewrite Split_noslash by assumption. now repeat constructor.
  - apply names_app. split; [assumption|]. split; now repeat constructor.
Qed.


Lemma not_prefix_proper (pre suf : list string) :
  suf <> [] -> ~ is_prefix (pre ++ suf)%list pre.
Proof.
  intros Hs [x Hx]. apply (f_equal (@List.length string)) in Hx.
  rewrite !length_app in Hx. destruct suf; [congruence | simpl in Hx; lia].
Qed.

(** What a removal leaves of the directories beside the removed path. *)
Lemma beside_is_dir (r r' : os.node) (t y : list string) :
  (forall y, ~ is_prefix t y ->
     match os.get r y with
     | Some (os.Dir dperm _) => exists es', os.get r' y = Some (os.Dir dperm es')
     | o => os.get r' y = o
     end) ->
  ~ is_prefix t y -> is_dir (os.get r y) -> is_dir (os.get r' y).
Proof.
  intros H Hy (perm & es & Hg). specialize (H y Hy). rewrite Hg in H.
  destruct H as (es' & H). now exists perm, es'.
Qed.

Lemma beside_straight (r r' : os.node) (t : list string) :
  (forall y, ~ is_prefix t y ->
     match os.get r y with
     | Some (os.Dir dperm _) => exists es', os.get r' y = Some (os.Dir dperm es')
     | o => os.get r' y = o
     end) ->
  t <> [] -> straight r t -> os.get r' t = None -> straight r' t.
Proof.
  intros H Hne [Hd _] Hg. split.
  - intros pre suf E Hs. apply (beside_is_dir r r' t pre H).
    + rewrite E. now apply not_prefix_proper.
    + now apply (Hd pre suf).
  - intros l. rewrite Hg. discriminate.
Qed.



(** X21. A second run of [ClearLocations] over a location the first run
    removed (a directory reached without links, with no archive at or below
    its path) finds it gone and skips it: it returns no error and changes
    nothing. *)
Theorem ClearLocations_again
  (w : os.World) (loc : part_000.Location) (output : string)
  (t : list string) (perm : Z) (es : list (string * os.node)) :
  part_003.normalizePath w (part_000.Path loc) = Ok ("/" ++ strings.Join t) ->
  names t -> t <> [] ->
  os.get (os.root w) t = Some (os.Dir perm es) ->
  (forall x, os.find_archive (t ++ x)%list (os.archives w) = None) ->
  exists w',
    clear_go.ClearLocations w
      {| part_000.Output := output; part_000.Data_ := {| part_000.Locations := [loc] |} |}
    = (w', None)
    /\ clear_go.ClearLocations w'
         {| part_000.Output := output; part_000.Data_ := {| part_000.Locations := [loc] |} |}
       = (w', None).
Proof.
  intros Hnorm Hn Hne Hg Harch.
  destruct (ClearLocations_single w loc output t perm es Hnorm Hn Hne Hg)
    as (w' & H1 & H2 & H3 & H4 & (Hh & Hw & _)).
  exists w'. split; [exact H1|].
  unfold clear_go.ClearLocations. cbn [part_000.Locations part_000.Data_].
  cbn [clear_go.ClearLocations_loop].
  rewrite (normalizePath_frame w w') by assumption. rewrite Hnorm.
  rewrite Stat_missing; [reflexivity | assumption | | assumption |].
  - apply (beside_straight (os.root w) (os.root w') t H3); try assumption.
    apply straight_of_get with (os.Dir perm es); [assumption | discriminate].
  - rewrite H4. specialize (Harch []). now rewrite app_nil_r in Harch.
Qed.

Lemma ClearLocations_again_witness :
  clear_go.ClearLocations sample.cleared sample.config = (sample.cleared, None).
Proof.
  destruct (ClearLocations_again sample.backed_up sample.loc "/backup"
              ["home"; "u"; "project"] 493
              [ (".git", os.Dir 493 [("HEAD", os.File 420 "ref: refs/heads/main")]);
                ("a.txt", os.File 420 "0123456789");
                ("l", os.Symlink "a.txt");
                ("node_modules",
                 os.Dir 493 [("pkg", os.Dir 493 [("index.js", os.File 420 "x")])]);
                ("sub", os.Dir 493 [("b", os.File 420 "bb")]) ])
    as (w' & H1 & H2).
  - vm_compute. reflexivity.
  - vm_compute. repeat constructor.
  - discriminate.
  - vm_compute. reflexivity.
  - intros x. vm_compute. reflexivity.
  - fold sample.config in H1, H2.
    assert (E : w' = sample.cleared) by (unfold sample.cleared; now rewrite H1).
    rewrite <- E. exact H2.
Defined.

(** *** Create *)










(** Below a directory that is missing no path resolves. *)
Lemma namei_below_missing (w : os.World) (follow : bool) (d : list string) (c x : string) :
  names ((d ++ [c]) ++ [x])%list -> is_dir (os.get (os.root w) d) ->
  os.get (os.root w) (d ++ [c])%list = None ->
  os.namei w follow ("/" ++ strings.Join ((d ++ [c]) ++ [x])%list) = Err ENOENT.
Proof.
  intros Hn Hd Ho. unfold os.namei. simpl String.eqb. cbv iota.
  change (strings.HasPrefix ("/" ++ strings.Join ((d ++ [c]) ++ [x])%list) "/") with true.
  cbv iota. rewrite elems_rooted by assumption.
  rewrite <- !app_assoc. cbn [app].
  apply names_app in Hn. destruct Hn as [Hn _].
  apply names_app in Hn. destruct Hn as [Hdn [Hc _]].
  rewrite resolve_through; [|assumption|].
  - cbn [app]. rewrite resolve_cons. destruct Hd as (perm & es & ->).
    inversion Hc as [|? ? Hpc _]; subst. apply plain_cases in Hpc.
    destruct Hpc as (_ & _ & ->). now rewrite Ho.
  - intros u v E. cbn [app]. destruct Hd as (perm & es & Hd). rewrite E in Hd.
    apply get_prefix_dir_or_self with v (os.Dir perm es); [assumption | now exists perm, es].
Qed.



(** X23. [BackupData] does not make the output directory: when it is
    missing, below a directory that is there, the backup of the first
    location fails with the error of [os.Create] for the archive, wrapped by
    [backupLocation] and [BackupData], and nothing is written. The location
    is one that is found and whose name is not the root. *)
Theorem BackupData_missing_output
  (w : os.World) (loc : part_000.Location) (rest : list part_000.Location)
  (t : list string) (n : os.node) (d : list string) (c : string) :
  part_003.normalizePath w (part_000.Path loc) = Ok ("/" ++ strings.Join t) ->
  names t -> os.get (os.root w) t = Some n -> (forall l, n <> os.Symlink l) -> wf n ->
  filepath.Base (part_000.Path loc) <> "/" ->
  names (d ++ [c])%list -> is_dir (os.get (os.root w) d) ->
  os.get (os.root w) (d ++ [c])%list = None ->
  part_000.BackupData w
    {| part_000.Output := "/" ++ strings.Join (d ++ [c])%list;
       part_000.Data_ := {| part_000.Locations := loc :: rest |} |}
  = (w, Some (wrapError ("failed to backup " ++ part_000.Path loc)
                (wrapError "failed to create archive" ENOENT))).
Proof.
  intros Hnorm Ht Hg Hl Hwf Hbase Hon Hdd Ho.
  set (target := "/" ++ strings.Join t) in *.
  set (loc1 := {| part_000.Path := target; part_000.Ignore := part_000.Ignore loc;
                  part_000.index := part_000.index loc;
                  part_000.totalSize := part_000.totalSize loc |}).
  destruct (part_000_scan_collect w loc1 t n) as (l' & Hs & _); auto.
  { now apply names_normal. }
  { apply namei_straight; [assumption|]. now apply straight_of_get with n. }
  destruct (archivePath_rooted (d ++ [c])%list (part_000.Path loc) Hon Hbase) as [Hap Hqn].
  unfold part_000.BackupData.
  cbn [part_000.Locations part_000.Data_ part_000.Output part_000.BackupData_loop].
  unfold part_000.backupLocation. rewrite Hnorm. fold loc1. rewrite Hs.
  unfold part_003.newArchiveWriter, os.Create. rewrite Hap.
  now rewrite namei_below_missing by assumption.
Qed.

Lemma BackupData_missing_output_witness :
  part_000.BackupData fixture.world
    {| part_000.Output := "/backup/monday";
       part_000.Data_ := {| part_000.Locations := [sample.loc] |} |}
  = (fixture.world, Some (wrapError "failed to backup ~/project"
                            (wrapError "failed to create archive" ENOENT))).
Proof.
  apply (BackupData_missing_output fixture.world sample.loc []
           ["home"; "u"; "project"] fixture.project ["backup"] "monday").
  - vm_compute. reflexivity.
  - vm_compute. repeat constructor.
  - vm_compute. reflexivity.
  - discriminate.
  - vm_compute. repeat split.
  - vm_compute. discriminate.
  - vm_compute. repeat constructor.
  - vm_compute. eexists _, _. reflexivity.
  - vm_compute. reflexivity.
Defined.

(** *** Create where the output path is taken *)

Lemma MkdirAll_over_file (w : os.World) (o : list string) (mode fperm : Z) (data : string) :
  names o -> os.get (os.root w) o = Some (os.File fperm data) ->
  os.MkdirAll w ("/" ++ strings.Join o) mode = (w, Some ENOTDIR).
Proof.
  intros Hn Hg. rewrite MkdirAll_rooted by assumption.
  rewrite mkdirAll_eq. cbv zeta. rewrite rev_involutive, render_rooted.
  unfold os.Stat.
  rewrite namei_straight; [|assumption | apply straight_of_get with (os.File fperm data);
                                         [assumption | discriminate]].
  simpl bind. unfold os.stat_at. now rewrite Hg.
Qed.

(** X24. [Create] where the output path names a regular file: [os.MkdirAll]
    fails with ENOTDIR, and [Create] returns that error (wrapped as 'failed
    to create output directory' in part_001, as it is in config.go) before
    anything is copied or backed up; nothing changes, whatever the
    locations and the configuration file are. *)
Theorem Create_output_is_file
  (w : os.World) (o : list string) (fperm : Z) (data : string)
  (locs : list part_000.Location) (locs' : list data_go.Location) (configPath : string) :
  names o -> os.get (os.root w) o = Some (os.File fperm data) ->
  part_001.Create w
    {| part_000.Output := "/" ++ strings.Join o;
       part_000.Data_ := {| part_000.Locations := locs |} |} configPath
  = (w, Some (wrapError "failed to create output directory" ENOTDIR))
  /\ config_go.Create w
       {| data_go.Output := "/" ++ strings.Join o;
          data_go.Data_ := {| data_go.Locations := locs' |} |}
     = (w, Some ENOTDIR).
Proof.
  intros Hn Hg. unfold part_001.Create, config_go.Create.
  cbn [part_000.Output data_go.Output].
  now rewrite !(MkdirAll_over_file w o 493 fperm data Hn Hg).
Qed.

Lemma Create_output_is_file_witness :
  part_001.Create fixture.world
    {| part_000.Output := "/home/u/project/a.txt";
       part_000.Data_ := {| part_000.Locations := [sample.loc] |} |} "/home/u/project/a.txt"
  = (fixture.world, Some (wrapError "failed to create output directory" ENOTDIR)).
Proof.
  apply (Create_output_is_file fixture.world ["home"; "u"; "project"; "a.txt"]
           420 "0123456789" [sample.loc] [] "/home/u/project/a.txt").
  - vm_compute. repeat constructor.
  - vm_compute. reflexivity.
Defined.

(** ** C1: a header that is refused, and the members before it *)



















